(** * Musa Studio site scripts: the bouncing-ball toy and the scroll reveal

    A shallow embedding of the two variants of the page script
    ("Portfolio Interactions" and "Spatial Environment Physics") and the
    properties of their physics step, collision resolvers, obstacle
    provider, spawner and reveal observer; then the runs of the page
    (clicks, cursor events and requested frames from the initial state)
    with their invariants, and the scroll progress, scroll throttle and
    staggered scenes of the project pages.

    Number model.  A JavaScript Number is embedded as a real number of
    [R]: [+ - * /], [Math.sqrt], [Math.abs], [Math.min], [Math.max],
    [Math.pow], [Math.hypot], [Math.cos], [Math.sin], [Math.atan2] are
    the exact real operations, and comparisons are decided on [R].
    Rounding of IEEE doubles, NaN and the infinities are outside this
    model; every concrete input used below keeps all divisors non-zero.
    A statement that holds over [R] and is sharp (an equality, a bound
    that is attained) is a statement about exact arithmetic.  Where the
    rounding of the script's doubles decides such a statement, the
    arithmetic of the function is embedded a second time in [Doubles],
    over the binary64 numbers of the kernel, with the source's operations
    in the source's order, and evaluated on concrete inputs.

    Presentation-only effects (CSS class toggles, transform strings,
    squash and flash timers, the deferred removal of a faded element) do
    not feed back into the simulation and are left out of the state.  The
    children of the ball container are kept, since eviction and the floor
    removal of the first variant detach elements at once. *)

From Stdlib Require Import Reals Lra Lia List ZArith Bool Psatz.
From Corelib Require PrimFloat.
Import ListNotations.
Open Scope R_scope.

(** ** JavaScript number operations on [R] *)

Module JS.

(** [a < b] *)
Definition lt (a b : R) : bool := if Rlt_dec a b then true else false.
(** [a > b] *)
Definition gt (a b : R) : bool := if Rgt_dec a b then true else false.
(** [a === b] on numbers *)
Definition eq (a b : R) : bool := if Req_dec_T a b then true else false.
(** [a || d] on numbers: [0] is the only falsy real *)
Definition orElse (a d : R) : R := if Req_dec_T a 0 then d else a.
(** [Math.hypot(a, b)] *)
Definition hypot (a b : R) : R := sqrt (a * a + b * b).
(** [Math.pow(b, e)] for a positive base *)
Definition pow (b e : R) : R := Rpower b e.
(** [Math.floor(a)] as an integer *)
Definition floor (a : R) : Z := Int_part a.
(** [Math.atan2(y, x)] *)
Definition atan2 (y x : R) : R :=
  if Rlt_dec 0 x then atan (y / x)
  else if Rlt_dec x 0 then
    (if Rle_dec 0 y then atan (y / x) + PI else atan (y / x) - PI)
  else if Rlt_dec 0 y then PI / 2
  else if Rlt_dec y 0 then - (PI / 2)
  else 0.

End JS.

(** The layout box of an element as [getBoundingClientRect] returns it:
    [right] and [bottom] are derived from the origin and the size. *)
Record DOMRect := mkDOMRect {
  rect_left : R;
  rect_top : R;
  rect_width : R;
  rect_height : R
}.

Definition rect_right (r : DOMRect) : R := rect_left r + rect_width r.
Definition rect_bottom (r : DOMRect) : R := rect_top r + rect_height r.

(** The [type] tag of an obstacle object. *)
Inductive ObstacleType := rect | mask.

Definition isRect (t : ObstacleType) : bool :=
  match t with rect => true | mask => false end.

(** [element.remove()] on the children of the ball container; an element
    that is not attached is left alone, as the [parentNode] guard does. *)
Definition detach (el : nat) (dom : list nat) : list nat :=
  filter (fun e => negb (Nat.eqb e el)) dom.

(** In-place update of the [i]-th entry of an array. *)
Fixpoint setNth {A : Type} (i : nat) (v : A) (l : list A) : list A :=
  match l, i with
  | [], _ => []
  | _ :: tl, O => v :: tl
  | h :: tl, S i' => h :: setNth i' v tl
  end.

(** * Variant 1: Portfolio Interactions *)

Module Portfolio.

Definition maxBalls : nat := 20.
Definition gravity : R := 0.6.
Definition airResistance : R := 0.992.
Definition bounceFactor : R := 0.45.
Definition ballBounceFactor : R := 0.35.
Definition ballRadius : R := 10.
Definition stopVelocity : R := 0.2.
Definition maxVelocity : R := 30.

Record Ball := mkBall {
  element : nat;
  x : R;
  y : R;
  vx : R;
  vy : R;
  active : bool;
  stopping : bool
}.

Definition setPos (b : Ball) (x' y' : R) : Ball :=
  mkBall (element b) x' y' (vx b) (vy b) (active b) (stopping b).
Definition setVel (b : Ball) (vx' vy' : R) : Ball :=
  mkBall (element b) (x b) (y b) vx' vy' (active b) (stopping b).
Definition setActive (b : Ball) (a : bool) : Ball :=
  mkBall (element b) (x b) (y b) (vx b) (vy b) a (stopping b).

Definition speed (b : Ball) : R := sqrt (vx b * vx b + vy b * vy b).

(** The speed limit stated on the squares. *)
Definition bounded (b : Ball) : Prop :=
  vx b * vx b + vy b * vy b <= maxVelocity * maxVelocity.

(** Distance between the centres of two balls. *)
Definition centreDistance (a b : Ball) : R :=
  sqrt ((x b - x a) * (x b - x a) + (y b - y a) * (y b - y a)).

(** The collision normal [(nx, ny)] as [resolveBallCollision] computes it,
    zero-distance guard included. *)
Definition collisionNormal (a b : Ball) : R * R :=
  let dx := x b - x a in
  let dy := y b - y a in
  let dist0 := sqrt (dx * dx + dy * dy) in
  let dist := if JS.eq dist0 0 then 0.01 else dist0 in
  (dx / dist, dy / dist).

Record Obstacle := mkObstacle {
  otype : ObstacleType;
  left : R;
  right : R;
  top : R;
  bottom : R
}.

(** Module-level state of the script. *)
Record State := mkState {
  balls : list Ball;
  dom : list nat;            (* ball elements attached to document.body *)
  nextElement : nat;         (* identity of the next created element *)
  lastTime : R;
  animating : bool;
  frameRequested : bool      (* a requestAnimationFrame(animateAll) is pending *)
}.

Definition initial : State := mkState [] [] 0 0 false false.

(** What one frame reads from the page. *)
Record Frame := mkFrame {
  currentTime : R;
  obstacleRects : list DOMRect;   (* boxes of the [data-ball-obstacle] elements *)
  scrollY : R;
  clientWidth : R;
  scrollHeight : R
}.

(** [createBall]: a fresh element appended to the container. *)
Definition createBall (st : State) : nat * State :=
  (nextElement st,
   mkState (balls st) (dom st ++ [nextElement st]) (S (nextElement st))
           (lastTime st) (animating st) (frameRequested st)).

(** [cleanupBalls]: [while (balls.length > maxBalls) shift and detach]. *)
Fixpoint cleanupLoop (bs : list Ball) (d : list nat) : list Ball * list nat :=
  match bs with
  | [] => ([], d)
  | oldBall :: rest =>
      if (maxBalls <? length bs)%nat
      then cleanupLoop rest (detach (element oldBall) d)
      else (bs, d)
  end.

Definition cleanupBalls (st : State) : State :=
  let (bs, d) := cleanupLoop (balls st) (dom st) in
  mkState bs d (nextElement st) (lastTime st) (animating st) (frameRequested st).

(** [getObstacles], one flagged element at a time. *)
Definition obstacleOf (scrollY : R) (r : DOMRect) : option Obstacle :=
  if JS.lt (rect_width r) 6 || JS.lt (rect_height r) 6 then None
  else
    let insetX := Rmin 10 (rect_width r * 0.08) in
    let insetY := Rmin 10 (rect_height r * 0.12) in
    let left := rect_left r + insetX in
    let right := rect_right r - insetX in
    let top := rect_top r + scrollY + insetY in
    let bottom := rect_bottom r + scrollY - insetY in
    if JS.lt (right - left) 4 || JS.lt (bottom - top) 4 then None
    else Some (mkObstacle rect left right top bottom).

Definition getObstacles (scrollY : R) (els : list DOMRect) : list Obstacle :=
  flat_map (fun r => match obstacleOf scrollY r with
                     | Some o => [o]
                     | None => []
                     end) els.

(** The four penetration depths of [checkRectCollision]. *)
Definition overlapLeft (b : Ball) (obs : Obstacle) : R := (x b + ballRadius) - left obs.
Definition overlapRight (b : Ball) (obs : Obstacle) : R := right obs - (x b - ballRadius).
Definition overlapTop (b : Ball) (obs : Obstacle) : R := (y b + ballRadius) - top obs.
Definition overlapBottom (b : Ball) (obs : Obstacle) : R := bottom obs - (y b - ballRadius).
Definition minOverlapX (b : Ball) (obs : Obstacle) : R :=
  Rmin (overlapLeft b obs) (overlapRight b obs).
Definition minOverlapY (b : Ball) (obs : Obstacle) : R :=
  Rmin (overlapTop b obs) (overlapBottom b obs).

(** The AABB test of [checkRectCollision]. *)
Definition overlaps (b : Ball) (obs : Obstacle) : bool :=
  JS.gt (x b + ballRadius) (left obs) && JS.lt (x b - ballRadius) (right obs) &&
  JS.gt (y b + ballRadius) (top obs) && JS.lt (y b - ballRadius) (bottom obs).

(** Snap of a reflected component below the stop threshold. *)
Definition snap (v : R) : R := if JS.lt (Rabs v) stopVelocity then 0 else v.

Definition checkRectCollision (b : Ball) (obs : Obstacle) : bool * Ball :=
  if negb (isRect (otype obs)) then (false, b)
  else if overlaps b obs then
    if JS.lt (minOverlapX b obs) (minOverlapY b obs) then
      if JS.lt (overlapLeft b obs) (overlapRight b obs)
      then (true, mkBall (element b) (left obs - ballRadius) (y b)
                         (snap (- Rabs (vx b) * bounceFactor)) (vy b)
                         (active b) (stopping b))
      else (true, mkBall (element b) (right obs + ballRadius) (y b)
                         (snap (Rabs (vx b) * bounceFactor)) (vy b)
                         (active b) (stopping b))
    else
      if JS.lt (overlapTop b obs) (overlapBottom b obs)
      then (true, mkBall (element b) (x b) (top obs - ballRadius)
                         (vx b) (snap (- Rabs (vy b) * bounceFactor))
                         (active b) (stopping b))
      else (true, mkBall (element b) (x b) (bottom obs + ballRadius)
                         (vx b) (snap (Rabs (vy b) * bounceFactor))
                         (active b) (stopping b))
  else (false, b).

(** [resolveBallCollision(a, b)]: both objects are mutated, so both are
    returned. *)
Definition resolveBallCollision (a b : Ball) : Ball * Ball :=
  let dx := x b - x a in
  let dy := y b - y a in
  let minDist := ballRadius * 2 in
  let dist0 := sqrt (dx * dx + dy * dy) in
  let dist := if JS.eq dist0 0 then 0.01 else dist0 in
  if JS.lt dist minDist then
    let nx := dx / dist in
    let ny := dy / dist in
    let overlap := minDist - dist in
    let separation := overlap / 2 in
    let a1 := setPos a (x a - nx * separation) (y a - ny * separation) in
    let b1 := setPos b (x b + nx * separation) (y b + ny * separation) in
    let rvx := vx b1 - vx a1 in
    let rvy := vy b1 - vy a1 in
    let velAlongNormal := rvx * nx + rvy * ny in
    if JS.gt velAlongNormal 0 then (a1, b1)
    else
      let impulse := - (1 + ballBounceFactor) * velAlongNormal / 2 in
      let ix := impulse * nx in
      let iy := impulse * ny in
      (setVel a1 (vx a1 - ix) (vy a1 - iy),
       setVel b1 (vx b1 + ix) (vy b1 + iy))
  else (a, b).

Definition clampVelocity (b : Ball) : Ball :=
  let speed := sqrt (vx b * vx b + vy b * vy b) in
  if JS.gt speed maxVelocity then
    let scale := maxVelocity / speed in
    setVel b (vx b * scale) (vy b * scale)
  else b.

(** The statements of the first [forEach] of [animateAll], one by one:
    gravity, air resistance, (clamp,) position integration. *)
Definition applyGravity (deltaTime : R) (b : Ball) : Ball :=
  setVel b (vx b) (vy b + gravity * deltaTime).

Definition applyAirResistance (deltaTime : R) (b : Ball) : Ball :=
  setVel b (vx b * JS.pow airResistance deltaTime)
           (vy b * JS.pow airResistance deltaTime).

Definition move (deltaTime : R) (b : Ball) : Ball :=
  setPos b (x b + vx b * deltaTime) (y b + vy b * deltaTime).

Definition integrate (deltaTime : R) (b : Ball) : Ball :=
  if negb (active b) then b
  else move deltaTime
         (clampVelocity (applyAirResistance deltaTime (applyGravity deltaTime b))).

(** Second [forEach]: every obstacle in turn against one ball. *)
Definition collideObstacles (obstacles : list Obstacle) (b : Ball) : Ball :=
  if negb (active b) then b
  else fold_left (fun acc obs => snd (checkRectCollision acc obs)) obstacles b.

(** One iteration of the inner pair loop on the array. *)
Definition pairStep (bs : list Ball) (i j : nat) : list Ball :=
  match nth_error bs i, nth_error bs j with
  | Some a, Some b =>
      if active a && active b
      then let (a', b') := resolveBallCollision a b in
           setNth j b' (setNth i a' bs)
      else bs
  | _, _ => bs
  end.

(** [for i < n: for j in i+1 .. n-1: resolveBallCollision(balls[i], balls[j])] *)
Definition ballCollisions (bs : list Ball) : list Ball :=
  fold_left
    (fun acc i =>
       fold_left (fun acc' j => pairStep acc' i j)
                 (seq (S i) (length bs - S i)) acc)
    (seq 0 (length bs)) bs.

(** Whether [resolveBallCollision(a, b)] reaches its impulse: the pair
    overlaps and does not take the early return on [velAlongNormal > 0]. *)
Definition takesImpulse (a b : Ball) : bool :=
  let dx := x b - x a in
  let dy := y b - y a in
  let minDist := ballRadius * 2 in
  let dist0 := sqrt (dx * dx + dy * dy) in
  let dist := if JS.eq dist0 0 then 0.01 else dist0 in
  if JS.lt dist minDist then
    let nx := dx / dist in
    let ny := dy / dist in
    let rvx := vx b - vx a in
    let rvy := vy b - vy a in
    let velAlongNormal := rvx * nx + rvy * ny in
    negb (JS.gt velAlongNormal 0)
  else false.

(** The pair loop once more, keeping beside the array the elements of
    the balls that took an impulse. *)
Definition pairLog (acc : list Ball * list nat) (i j : nat)
  : list Ball * list nat :=
  match nth_error (fst acc) i, nth_error (fst acc) j with
  | Some a, Some b =>
      if active a && active b
      then (pairStep (fst acc) i j,
            if takesImpulse a b then element a :: element b :: snd acc
            else snd acc)
      else acc
  | _, _ => acc
  end.

Definition collisionLog (bs : list Ball) : list Ball * list nat :=
  fold_left
    (fun acc i =>
       fold_left (fun acc' j => pairLog acc' i j)
                 (seq (S i) (length bs - S i)) acc)
    (seq 0 (length bs)) (bs, []).

(** The elements of the balls struck by an impulse in the pair loop. *)
Definition struck (bs : list Ball) : list nat := snd (collisionLog bs).

(** Third [forEach]: walls, ceiling, and the fall below the floor. *)
Definition leftWall (b : Ball) : Ball :=
  if JS.lt (x b - ballRadius) 0
  then mkBall (element b) ballRadius (y b)
              (snap (Rabs (vx b) * bounceFactor)) (vy b)
              (active b) (stopping b)
  else b.

Definition rightWall (docWidth : R) (b : Ball) : Ball :=
  if JS.gt (x b + ballRadius) docWidth
  then mkBall (element b) (docWidth - ballRadius) (y b)
              (snap (- Rabs (vx b) * bounceFactor)) (vy b)
              (active b) (stopping b)
  else b.

Definition ceiling (sy : R) (b : Ball) : Ball :=
  if JS.lt (y b - ballRadius) sy
  then mkBall (element b) (x b) (sy + ballRadius)
              (vx b) (snap (Rabs (vy b) * bounceFactor))
              (active b) (stopping b)
  else b.

Definition walls (f : Frame) (b : Ball) (d : list nat) : Ball * list nat :=
  if negb (active b) then (b, d)
  else
    let b3 := ceiling (scrollY f) (rightWall (clientWidth f) (leftWall b)) in
    if JS.gt (y b3 - ballRadius) (scrollHeight f + 50)
    then (setActive b3 false, detach (element b3) d)
    else (b3, d).

Fixpoint wallsAll (f : Frame) (bs : list Ball) (d : list nat)
  : list Ball * list nat :=
  match bs with
  | [] => ([], d)
  | b :: tl =>
      let (b', d') := walls f b d in
      let (tl', d'') := wallsAll f tl d' in
      (b' :: tl', d'')
  end.

(** The normalised time step: [if (lastTime === 0) lastTime = currentTime;
    deltaTime = Math.min((currentTime - lastTime) / 16.67, 2)]. *)
Definition frameDelta (f : Frame) (st : State) : R :=
  let lastTime1 := if JS.eq (lastTime st) 0 then currentTime f
                   else lastTime st in
  Rmin ((currentTime f - lastTime1) / 16.67) 2.

(** The array as the pair loop finds it: after integration and the
    obstacle pass. *)
Definition beforePairs (f : Frame) (st : State) : list Ball :=
  let deltaTime := frameDelta f st in
  let obstacles := getObstacles (scrollY f) (obstacleRects f) in
  let bs1 := map (integrate deltaTime) (balls st) in
  map (collideObstacles obstacles) bs1.

(** No two active balls closer than one diameter. *)
Definition noOverlap (bs : list Ball) : Prop :=
  forall i j a b,
    (i < j)%nat -> nth_error bs i = Some a -> nth_error bs j = Some b ->
    active a = true -> active b = true ->
    ballRadius * 2 <= centreDistance a b.

(** [animateAll(currentTime)], the frame callback. *)
Definition animateAll (f : Frame) (st : State) : State :=
  match balls st with
  | [] => mkState [] (dom st) (nextElement st) 0 false false
  | _ :: _ =>
      let bs2 := beforePairs f st in
      let bs3 := ballCollisions bs2 in
      let (bs4, d) := wallsAll f bs3 (dom st) in
      let bs5 := filter active bs4 in
      if existsb active bs5
      then mkState bs5 d (nextElement st) (currentTime f) (animating st) true
      else mkState bs5 d (nextElement st) (currentTime f) false false
  end.

(** The click on the hero section. *)
Record Click := mkClick {
  onLinkOrButton : bool;     (* e.target.closest('a, button') *)
  clientX : R;
  clientY : R
}.

(** [rnd] is the value of [Math.random()]; [sy] is [window.scrollY]. *)
Definition heroClick (e : Click) (sy rnd : R) (st : State) : State :=
  if onLinkOrButton e then st
  else
    let st1 := cleanupBalls st in
    let (ball, st2) := createBall st1 in
    let ballObj := mkBall ball (clientX e) (clientY e + sy)
                          ((rnd - 0.5) * 6) 2 true false in
    let bs := balls st2 ++ [ballObj] in
    if animating st2
    then mkState bs (dom st2) (nextElement st2) (lastTime st2) true
                 (frameRequested st2)
    else mkState bs (dom st2) (nextElement st2) (lastTime st2) true true.

End Portfolio.

(** * Variant 2: Spatial Environment Physics *)

Module Spatial.

Definition mouseSmoothing : R := 0.15.
Definition maxBalls : nat := 15.
Definition gravity : R := 0.7.
Definition airResistance : R := 0.995.
Definition bounceFactor : R := 0.6.
Definition ballBounceFactor : R := 0.5.
Definition ballRadius : R := 12.
Definition stopVelocity : R := 0.15.
Definition maxVelocity : R := 35.
Definition magneticRadius : R := 150.
Definition magneticStrength : R := 0.3.
Definition maskAlphaThreshold : Z := 10.
Definition obstacleCacheDuration : R := 100.

Record Ball := mkBall {
  element : nat;
  x : R;
  y : R;
  vx : R;
  vy : R;
  active : bool;
  stopping : bool;
  rotation : R;
  spinSpeed : R;
  prevX : option R;              (* undefined until the first frame *)
  prevY : option R;
  restingStartTime : option R    (* undefined or null: [None] *)
}.

Definition setPos (b : Ball) (x' y' : R) : Ball :=
  mkBall (element b) x' y' (vx b) (vy b) (active b) (stopping b)
         (rotation b) (spinSpeed b) (prevX b) (prevY b) (restingStartTime b).
Definition setVel (b : Ball) (vx' vy' : R) : Ball :=
  mkBall (element b) (x b) (y b) vx' vy' (active b) (stopping b)
         (rotation b) (spinSpeed b) (prevX b) (prevY b) (restingStartTime b).
Definition setActive (b : Ball) (a : bool) : Ball :=
  mkBall (element b) (x b) (y b) (vx b) (vy b) a (stopping b)
         (rotation b) (spinSpeed b) (prevX b) (prevY b) (restingStartTime b).
Definition setRotation (b : Ball) (r : R) : Ball :=
  mkBall (element b) (x b) (y b) (vx b) (vy b) (active b) (stopping b)
         r (spinSpeed b) (prevX b) (prevY b) (restingStartTime b).
Definition setPrev (b : Ball) (px py : option R) : Ball :=
  mkBall (element b) (x b) (y b) (vx b) (vy b) (active b) (stopping b)
         (rotation b) (spinSpeed b) px py (restingStartTime b).
Definition setResting (b : Ball) (t : option R) : Ball :=
  mkBall (element b) (x b) (y b) (vx b) (vy b) (active b) (stopping b)
         (rotation b) (spinSpeed b) (prevX b) (prevY b) t.

Definition speed (b : Ball) : R := sqrt (vx b * vx b + vy b * vy b).

(** The speed limit stated on the squares. *)
Definition bounded (b : Ball) : Prop :=
  vx b * vx b + vy b * vy b <= maxVelocity * maxVelocity.

(** Distance between the centres of two balls. *)
Definition centreDistance (a b : Ball) : R :=
  sqrt ((x b - x a) * (x b - x a) + (y b - y a) * (y b - y a)).

(** The collision normal [(nx, ny)] as [resolveBallCollision] computes it,
    zero-distance guard included. *)
Definition collisionNormal (a b : Ball) : R * R :=
  let dx := x b - x a in
  let dy := y b - y a in
  let dist0 := sqrt (dx * dx + dy * dy) in
  let dist := if JS.eq dist0 0 then 0.01 else dist0 in
  (dx / dist, dy / dist).

(** The cached alpha source of a mask element: RGBA bytes, row major. *)
Record MaskData := mkMask {
  mdata : list Z;
  mwidth : Z;
  mheight : Z
}.

Record Bounds := mkBounds {
  left : R;
  right : R;
  top : R;
  bottom : R
}.

(** An obstacle object, tagged by its [type]. *)
Inductive Obstacle :=
| RectObstacle (bounds : Bounds)
| MaskObstacle (bounds : Bounds) (width height : R) (m : MaskData).

(** An image element flagged [data-ball-mask] with what the script reads
    from it; [pixels] is what drawing it at natural size would yield. *)
Record MaskElement := mkMaskElement {
  mel_id : nat;
  mel_box : DOMRect;
  mel_complete : bool;
  mel_naturalWidth : Z;
  mel_naturalHeight : Z;
  mel_pixels : list Z
}.

Record State := mkState {
  balls : list Ball;
  dom : list nat;            (* ball elements attached to the ball layer *)
  nextElement : nat;
  lastTime : R;
  animating : bool;
  frameRequested : bool;
  mouseX : R;
  mouseY : R;
  targetMouseX : R;
  targetMouseY : R;
  obstacleCache : list Obstacle;
  obstacleCacheTime : R;
  maskCache : list (nat * MaskData)
}.

Definition initial : State :=
  mkState [] [] 0 0 false false 0 0 0 0 [] 0 [].

Definition setBalls (st : State) (bs : list Ball) (d : list nat) : State :=
  mkState bs d (nextElement st) (lastTime st) (animating st)
          (frameRequested st) (mouseX st) (mouseY st) (targetMouseX st)
          (targetMouseY st) (obstacleCache st) (obstacleCacheTime st)
          (maskCache st).

Definition setLoop (st : State) (t : R) (anim req : bool) : State :=
  mkState (balls st) (dom st) (nextElement st) t anim req
          (mouseX st) (mouseY st) (targetMouseX st) (targetMouseY st)
          (obstacleCache st) (obstacleCacheTime st) (maskCache st).

Definition setObstacles (st : State) (obs : list Obstacle) (t : R)
           (mc : list (nat * MaskData)) : State :=
  mkState (balls st) (dom st) (nextElement st) (lastTime st) (animating st)
          (frameRequested st) (mouseX st) (mouseY st) (targetMouseX st)
          (targetMouseY st) obs t mc.

(** What one frame reads from the page.  [pairRandom i j] holds the two
    values [Math.random()] yields while the pair [(i, j)] is resolved. *)
Record Frame := mkFrame {
  currentTime : R;
  obstacleRects : list DOMRect;
  maskElements : list MaskElement;
  innerWidth : R;
  innerHeight : R;
  pairRandom : nat -> nat -> R * R
}.

(** The [mousemove] listener and the cursor smoothing loop. *)
Definition mouseMove (cx cy : R) (st : State) : State :=
  mkState (balls st) (dom st) (nextElement st) (lastTime st) (animating st)
          (frameRequested st) (mouseX st) (mouseY st) cx cy
          (obstacleCache st) (obstacleCacheTime st) (maskCache st).

Definition animateMouseDisturbance (st : State) : State :=
  mkState (balls st) (dom st) (nextElement st) (lastTime st) (animating st)
          (frameRequested st)
          (mouseX st + (targetMouseX st - mouseX st) * mouseSmoothing)
          (mouseY st + (targetMouseY st - mouseY st) * mouseSmoothing)
          (targetMouseX st) (targetMouseY st)
          (obstacleCache st) (obstacleCacheTime st) (maskCache st).

Fixpoint cacheGet (el : nat) (mc : list (nat * MaskData)) : option MaskData :=
  match mc with
  | [] => None
  | (k, m) :: tl => if Nat.eqb k el then Some m else cacheGet el tl
  end.

(** [getMaskData(el)] with the WeakMap threaded. *)
Definition getMaskData (el : MaskElement) (mc : list (nat * MaskData))
  : option MaskData * list (nat * MaskData) :=
  match cacheGet (mel_id el) mc with
  | Some m => (Some m, mc)
  | None =>
      if negb (mel_complete el) || Z.eqb (mel_naturalWidth el) 0
         || Z.eqb (mel_naturalHeight el) 0
      then (None, mc)
      else
        let m := mkMask (mel_pixels el) (mel_naturalWidth el)
                        (mel_naturalHeight el) in
        (Some m, (mel_id el, m) :: mc)
  end.

Definition createBall (st : State) : nat * State :=
  (nextElement st,
   mkState (balls st) (dom st ++ [nextElement st]) (S (nextElement st))
           (lastTime st) (animating st) (frameRequested st)
           (mouseX st) (mouseY st) (targetMouseX st) (targetMouseY st)
           (obstacleCache st) (obstacleCacheTime st) (maskCache st)).

Fixpoint cleanupLoop (bs : list Ball) (d : list nat) : list Ball * list nat :=
  match bs with
  | [] => ([], d)
  | oldBall :: rest =>
      if (maxBalls <? length bs)%nat
      then cleanupLoop rest (detach (element oldBall) d)
      else (bs, d)
  end.

Definition cleanupBalls (st : State) : State :=
  let (bs, d) := cleanupLoop (balls st) (dom st) in
  setBalls st bs d.

(** The rectangular part of [getObstacles], one flagged element at a
    time, in viewport coordinates. *)
Definition obstacleOf (r : DOMRect) : option Obstacle :=
  if JS.lt (rect_width r) 6 || JS.lt (rect_height r) 6 then None
  else
    let insetX := Rmin 10 (rect_width r * 0.08) in
    let insetY := Rmin 10 (rect_height r * 0.12) in
    let left := rect_left r + insetX in
    let right := rect_right r - insetX in
    let top := rect_top r + insetY in
    let bottom := rect_bottom r - insetY in
    if JS.lt (right - left) 4 || JS.lt (bottom - top) 4 then None
    else Some (RectObstacle (mkBounds left right top bottom)).

(** The mask part of [getObstacles]. *)
Fixpoint maskObstacles (els : list MaskElement) (mc : list (nat * MaskData))
  : list Obstacle * list (nat * MaskData) :=
  match els with
  | [] => ([], mc)
  | el :: tl =>
      let r := mel_box el in
      if JS.lt (rect_width r) 6 || JS.lt (rect_height r) 6
      then maskObstacles tl mc
      else
        match getMaskData el mc with
        | (None, mc') => maskObstacles tl mc'
        | (Some m, mc') =>
            let (rest, mc'') := maskObstacles tl mc' in
            (MaskObstacle (mkBounds (rect_left r) (rect_right r)
                                    (rect_top r) (rect_bottom r))
                          (rect_width r) (rect_height r) m :: rest, mc'')
        end
  end.

Definition rectObstacles (els : list DOMRect) : list Obstacle :=
  flat_map (fun r => match obstacleOf r with
                     | Some o => [o]
                     | None => []
                     end) els.

Definition getObstacles (f : Frame) (mc : list (nat * MaskData))
  : list Obstacle * list (nat * MaskData) :=
  let (ms, mc') := maskObstacles (maskElements f) mc in
  (rectObstacles (obstacleRects f) ++ ms, mc').

Definition overlapLeft (b : Ball) (o : Bounds) : R := (x b + ballRadius) - left o.
Definition overlapRight (b : Ball) (o : Bounds) : R := right o - (x b - ballRadius).
Definition overlapTop (b : Ball) (o : Bounds) : R := (y b + ballRadius) - top o.
Definition overlapBottom (b : Ball) (o : Bounds) : R := bottom o - (y b - ballRadius).
Definition minOverlapX (b : Ball) (o : Bounds) : R :=
  Rmin (overlapLeft b o) (overlapRight b o).
Definition minOverlapY (b : Ball) (o : Bounds) : R :=
  Rmin (overlapTop b o) (overlapBottom b o).

Definition overlaps (b : Ball) (o : Bounds) : bool :=
  JS.gt (x b + ballRadius) (left o) && JS.lt (x b - ballRadius) (right o) &&
  JS.gt (y b + ballRadius) (top o) && JS.lt (y b - ballRadius) (bottom o).

Definition snap (v : R) : R := if JS.lt (Rabs v) stopVelocity then 0 else v.

Definition checkRectCollision (b : Ball) (obs : Obstacle) : bool * Ball :=
  match obs with
  | MaskObstacle _ _ _ _ => (false, b)
  | RectObstacle o =>
      if overlaps b o then
        if JS.lt (minOverlapX b o) (minOverlapY b o) then
          let b1 :=
            if JS.lt (overlapLeft b o) (overlapRight b o)
            then setVel (setPos b (left o - ballRadius) (y b))
                        (snap (- Rabs (vx b) * bounceFactor)) (vy b)
            else setVel (setPos b (right o + ballRadius) (y b))
                        (snap (Rabs (vx b) * bounceFactor)) (vy b) in
          (true, setRotation b1 (JS.orElse (rotation b1) 0 + vx b1 * 2))
        else
          if JS.lt (overlapTop b o) (overlapBottom b o)
          then (true, setVel (setPos b (x b) (top o - ballRadius))
                             (vx b) (snap (- Rabs (vy b) * bounceFactor)))
          else (true, setVel (setPos b (x b) (bottom o + ballRadius))
                             (vx b) (snap (Rabs (vy b) * bounceFactor)))
      else (false, b)
  end.

(** [obs.mask.data[(iy * width + ix) * 4 + 3]]; [None] is [undefined]. *)
Definition alphaAt (m : MaskData) (ix iy : Z) : option Z :=
  let i := ((iy * mwidth m + ix) * 4 + 3)%Z in
  if (i <? 0)%Z then None else nth_error (mdata m) (Z.to_nat i).

Definition clampIndex (n i : Z) : Z := Z.max 0 (Z.min (n - 1) i).

(** The closure [sampleOpaque(dx, dy)] around the sampled pixel. *)
Definition sampleOpaque (m : MaskData) (sampleX sampleY dx dy : Z) : Z :=
  let ix := clampIndex (mwidth m) (sampleX + dx) in
  let iy := clampIndex (mheight m) (sampleY + dy) in
  match alphaAt m ix iy with
  | Some a => if (maskAlphaThreshold <? a)%Z then 1%Z else 0%Z
  | None => 0%Z
  end.

(** The central difference of opacity, before any fallback. *)
Definition opacityGradient (m : MaskData) (sampleX sampleY : Z) : Z * Z :=
  ((sampleOpaque m sampleX sampleY 1 0 - sampleOpaque m sampleX sampleY (-1) 0)%Z,
   (sampleOpaque m sampleX sampleY 0 1 - sampleOpaque m sampleX sampleY 0 (-1))%Z).

(** The normal [(nx, ny)] that [checkMaskCollision] reflects about:
    gradient, velocity fallback, then normalisation. *)
Definition maskNormal (b : Ball) (m : MaskData) (sampleX sampleY : Z) : R * R :=
  let (gx, gy) := opacityGradient m sampleX sampleY in
  let (nx, ny) :=
    if Z.eqb gx 0 && Z.eqb gy 0 then
      let speed := JS.orElse (JS.hypot (vx b) (vy b)) 1 in
      (vx b / speed, vy b / speed)
    else (IZR gx, IZR gy) in
  let nLen := JS.orElse (JS.hypot nx ny) 1 in
  (nx / nLen, ny / nLen).

Definition someOr (o : option R) (d : R) : R :=
  match o with Some v => v | None => d end.

(** Reflection about the normal, bounce scaling and roll-back to the
    position recorded at the start of the step. *)
Definition maskBounce (b : Ball) (m : MaskData) (sampleX sampleY : Z) : Ball :=
  let (nx, ny) := maskNormal b m sampleX sampleY in
  let vDot := vx b * nx + vy b * ny in
  let b1 := setVel b ((vx b - 2 * vDot * nx) * bounceFactor)
                     ((vy b - 2 * vDot * ny) * bounceFactor) in
  setPos b1 (someOr (prevX b1) (x b1)) (someOr (prevY b1) (y b1)).

(** [alpha <= maskAlphaThreshold]; the comparison is false on [undefined]. *)
Definition transparent (alpha : option Z) : bool :=
  match alpha with
  | Some a => (a <=? maskAlphaThreshold)%Z
  | None => false
  end.

(** [Math.max(0, Math.min(n - 1, Math.floor((local / extent) * n)))]:
    the mask pixel under a screen offset. *)
Definition samplePixel (local extent : R) (n : Z) : Z :=
  clampIndex n (JS.floor ((local / extent) * IZR n)).

Definition checkMaskCollision (b : Ball) (obs : Obstacle) : bool * Ball :=
  match obs with
  | RectObstacle _ => (false, b)
  | MaskObstacle o width height m =>
      if JS.lt (x b + ballRadius) (left o) || JS.gt (x b - ballRadius) (right o)
         || JS.lt (y b + ballRadius) (top o) || JS.gt (y b - ballRadius) (bottom o)
      then (false, b)
      else
        let localX := x b - left o in
        let localY := y b - top o in
        if JS.lt localX 0 || JS.lt localY 0 || JS.gt localX width
           || JS.gt localY height
        then (false, b)
        else
          let sampleX := samplePixel localX width (mwidth m) in
          let sampleY := samplePixel localY height (mheight m) in
          if transparent (alphaAt m sampleX sampleY) then (false, b)
          else (true, maskBounce b m sampleX sampleY)
  end.

(** [resolveBallCollision(a, b)]; [ra] and [rb] are the two
    [Math.random()] values of the spin transfer. *)
Definition resolveBallCollision (ra rb : R) (a b : Ball) : Ball * Ball :=
  let dx := x b - x a in
  let dy := y b - y a in
  let minDist := ballRadius * 2 in
  let dist0 := sqrt (dx * dx + dy * dy) in
  let dist := if JS.eq dist0 0 then 0.01 else dist0 in
  if JS.lt dist minDist then
    let nx := dx / dist in
    let ny := dy / dist in
    let overlap := minDist - dist in
    let separation := overlap / 2 in
    let a1 := setPos a (x a - nx * separation) (y a - ny * separation) in
    let b1 := setPos b (x b + nx * separation) (y b + ny * separation) in
    let rvx := vx b1 - vx a1 in
    let rvy := vy b1 - vy a1 in
    let velAlongNormal := rvx * nx + rvy * ny in
    if JS.gt velAlongNormal 0 then (a1, b1)
    else
      let impulse := - (1 + ballBounceFactor) * velAlongNormal / 2 in
      let ix := impulse * nx in
      let iy := impulse * ny in
      let a2 := setVel a1 (vx a1 - ix) (vy a1 - iy) in
      let b2 := setVel b1 (vx b1 + ix) (vy b1 + iy) in
      let spinTransfer := 5 in
      (setRotation a2 (JS.orElse (rotation a2) 0 + spinTransfer * (ra - 0.5)),
       setRotation b2 (JS.orElse (rotation b2) 0 + spinTransfer * (rb - 0.5)))
  else (a, b).

Definition clampVelocity (b : Ball) : Ball :=
  let speed := sqrt (vx b * vx b + vy b * vy b) in
  if JS.gt speed maxVelocity then
    let scale := maxVelocity / speed in
    setVel b (vx b * scale) (vy b * scale)
  else b.

(** [applyCursorMagnetism(ballObj)] with the smoothed cursor [(mx, my)]. *)
Definition applyCursorMagnetism (mx my : R) (b : Ball) : Ball :=
  let dx := mx - x b in
  let dy := my - y b in
  let distanceSq := dx * dx + dy * dy in
  let magneticRadiusSq := magneticRadius * magneticRadius in
  if JS.lt distanceSq magneticRadiusSq && JS.gt distanceSq 25 then
    let distance := sqrt distanceSq in
    let force := (1 - distance / magneticRadius) * magneticStrength in
    let angle := JS.atan2 dy dx in
    let forceX := cos angle * force in
    let forceY := sin angle * force in
    setVel b (vx b + forceX * 0.8) (vy b + forceY * 0.8)
  else b.



(** The statements of the first [forEach] of [animateAll], one by one. *)
Definition recordPrev (b : Ball) : Ball :=
  setPrev b (Some (x b)) (Some (y b)).

Definition applyGravity (deltaTime : R) (b : Ball) : Ball :=
  setVel b (vx b) (vy b + gravity * deltaTime).

Definition applyAirResistance (deltaTime : R) (b : Ball) : Ball :=
  setVel b (vx b * JS.pow airResistance deltaTime)
           (vy b * JS.pow airResistance deltaTime).

Definition move (deltaTime : R) (b : Ball) : Ball :=
  setPos b (x b + vx b * deltaTime) (y b + vy b * deltaTime).

Definition spin (deltaTime : R) (b : Ball) : Ball :=
  let b5 := if JS.eq (rotation b) 0 then setRotation b 0 else b in
  setRotation b5 (rotation b5
                  + ((vx b5 * 0.5) + JS.orElse (spinSpeed b5) 0) * deltaTime).

Definition integrate (mx my deltaTime : R) (b : Ball) : Ball :=
  if negb (active b) then b
  else
    spin deltaTime
      (move deltaTime
         (clampVelocity
            (applyAirResistance deltaTime
               (applyGravity deltaTime
                  (applyCursorMagnetism mx my (recordPrev b)))))).

(** Second [forEach]: every obstacle in turn against one ball. *)
Definition collideObstacles (obstacles : list Obstacle) (b : Ball) : Ball :=
  if negb (active b) then b
  else fold_left
         (fun acc obs =>
            match obs with
            | RectObstacle _ => snd (checkRectCollision acc obs)
            | MaskObstacle _ _ _ _ => snd (checkMaskCollision acc obs)
            end) obstacles b.

Definition pairStep (f : Frame) (bs : list Ball) (i j : nat) : list Ball :=
  match nth_error bs i, nth_error bs j with
  | Some a, Some b =>
      if active a && active b
      then let (a', b') := resolveBallCollision (fst (pairRandom f i j))
                                                (snd (pairRandom f i j)) a b in
           setNth j b' (setNth i a' bs)
      else bs
  | _, _ => bs
  end.

Definition ballCollisions (f : Frame) (bs : list Ball) : list Ball :=
  fold_left
    (fun acc i =>
       fold_left (fun acc' j => pairStep f acc' i j)
                 (seq (S i) (length bs - S i)) acc)
    (seq 0 (length bs)) bs.

(** Whether [resolveBallCollision(a, b)] reaches its impulse: the pair
    overlaps and does not take the early return on [velAlongNormal > 0]. *)
Definition takesImpulse (a b : Ball) : bool :=
  let dx := x b - x a in
  let dy := y b - y a in
  let minDist := ballRadius * 2 in
  let dist0 := sqrt (dx * dx + dy * dy) in
  let dist := if JS.eq dist0 0 then 0.01 else dist0 in
  if JS.lt dist minDist then
    let nx := dx / dist in
    let ny := dy / dist in
    let rvx := vx b - vx a in
    let rvy := vy b - vy a in
    let velAlongNormal := rvx * nx + rvy * ny in
    negb (JS.gt velAlongNormal 0)
  else false.

(** The pair loop once more, keeping beside the array the elements of
    the balls that took an impulse. *)
Definition pairLog (f : Frame) (acc : list Ball * list nat) (i j : nat)
  : list Ball * list nat :=
  match nth_error (fst acc) i, nth_error (fst acc) j with
  | Some a, Some b =>
      if active a && active b
      then (pairStep f (fst acc) i j,
            if takesImpulse a b then element a :: element b :: snd acc
            else snd acc)
      else acc
  | _, _ => acc
  end.

Definition collisionLog (f : Frame) (bs : list Ball) : list Ball * list nat :=
  fold_left
    (fun acc i =>
       fold_left (fun acc' j => pairLog f acc' i j)
                 (seq (S i) (length bs - S i)) acc)
    (seq 0 (length bs)) (bs, []).

(** The elements of the balls struck by an impulse in the pair loop. *)
Definition struck (f : Frame) (bs : list Ball) : list nat :=
  snd (collisionLog f bs).

(** [!ballObj.restingStartTime] is false only for a non-zero number. *)
Definition truthy (o : option R) : bool :=
  match o with
  | Some t => negb (JS.eq t 0)
  | None => false
  end.

(** Third [forEach]: walls, ceiling, far-below removal, floor bounce and
    the resting timeout. *)
Definition leftWall (b : Ball) : Ball :=
  if JS.lt (x b - ballRadius) 0
  then setVel (setPos b ballRadius (y b))
              (snap (Rabs (vx b) * bounceFactor)) (vy b)
  else b.

Definition rightWall (docWidth : R) (b : Ball) : Ball :=
  if JS.gt (x b + ballRadius) docWidth
  then setVel (setPos b (docWidth - ballRadius) (y b))
              (snap (- Rabs (vx b) * bounceFactor)) (vy b)
  else b.

Definition ceiling (b : Ball) : Ball :=
  if JS.lt (y b - ballRadius) 0
  then setVel (setPos b (x b) ballRadius)
              (vx b) (snap (Rabs (vy b) * bounceFactor))
  else b.

(** The body of [if (ballObj.y + ballRadius > docHeight)]: bounce on the
    floor and track the resting time. *)
Definition floorBounce (f : Frame) (b : Ball) : Ball :=
  let b4 := setVel (setPos b (x b) (innerHeight f - ballRadius))
                   (vx b) (snap (- Rabs (vy b) * bounceFactor)) in
  if JS.lt (Rabs (vx b4)) stopVelocity && JS.lt (Rabs (vy b4)) stopVelocity
  then
    if negb (truthy (restingStartTime b4))
    then setResting b4 (Some (currentTime f))
    else if JS.gt (currentTime f - someOr (restingStartTime b4) 0) 3000
         then setActive b4 false
         else b4
  else setResting b4 None.

Definition walls (f : Frame) (b : Ball) : Ball :=
  if negb (active b) then b
  else
    let b3 := ceiling (rightWall (innerWidth f) (leftWall b)) in
    if JS.gt (y b3) (innerHeight f + 200) then setActive b3 false
    else if JS.gt (y b3 + ballRadius) (innerHeight f) then floorBounce f b3
    else setResting b3 None.

(** The normalised time step: [if (lastTime === 0) lastTime = currentTime;
    deltaTime = Math.min((currentTime - lastTime) / 16.67, 2)]. *)
Definition frameDelta (f : Frame) (st : State) : R :=
  let lastTime1 := if JS.eq (lastTime st) 0 then currentTime f
                   else lastTime st in
  Rmin ((currentTime f - lastTime1) / 16.67) 2.

(** The obstacle cache refresh at the head of a frame. *)
Definition refreshObstacles (f : Frame) (st : State) : State :=
  if JS.gt (currentTime f - obstacleCacheTime st) obstacleCacheDuration
  then let (obs, mc) := getObstacles f (maskCache st) in
       setObstacles st obs (currentTime f) mc
  else st.

(** The array as the pair loop finds it: after integration and the
    obstacle pass. *)
Definition beforePairs (f : Frame) (st : State) : list Ball :=
  let deltaTime := frameDelta f st in
  let st1 := refreshObstacles f st in
  let obstacles := obstacleCache st1 in
  let bs1 := map (integrate (mouseX st1) (mouseY st1) deltaTime) (balls st1) in
  map (collideObstacles obstacles) bs1.

(** No two active balls closer than one diameter. *)
Definition noOverlap (bs : list Ball) : Prop :=
  forall i j a b,
    (i < j)%nat -> nth_error bs i = Some a -> nth_error bs j = Some b ->
    active a = true -> active b = true ->
    ballRadius * 2 <= centreDistance a b.

(** [animateAll(currentTime)], the frame callback. *)
Definition animateAll (f : Frame) (st : State) : State :=
  match balls st with
  | [] => setLoop st 0 false false
  | _ :: _ =>
      let st1 := refreshObstacles f st in
      let bs2 := beforePairs f st in
      let bs3 := ballCollisions f bs2 in
      let bs4 := map (walls f) bs3 in
      let bs5 := filter active bs4 in
      if existsb active bs5
      then setLoop (setBalls st1 bs5 (dom st1)) (currentTime f) (animating st1) true
      else setLoop (setBalls st1 bs5 (dom st1)) (currentTime f) false false
  end.

(** The four [Math.random()] values of one [spawnBall] call. *)
Record SpawnRandom := mkSpawnRandom {
  rnd_vx : R;
  rnd_vy : R;
  rnd_rotation : R;
  rnd_spin : R
}.

(** [spawnBall(x, y, vx, vy, variant)]; the variant only picks a CSS
    class.  The new ball object is returned with the state. *)
Definition spawnBall (px py pvx pvy : R) (r : SpawnRandom) (st : State)
  : Ball * State :=
  let st1 := cleanupBalls st in
  let (ball, st2) := createBall st1 in
  let ballObj := mkBall ball px py
                        (pvx + (rnd_vx r - 0.5) * 6)
                        (pvy + (rnd_vy r - 0.5) * 4)
                        true false
                        (rnd_rotation r * 360)
                        ((rnd_spin r - 0.5) * 10)
                        None None None in
  let st3 := setBalls st2 (balls st2 ++ [ballObj]) (dom st2) in
  (ballObj,
   if animating st3 then st3
   else setLoop st3 (lastTime st3) true true).

End Spatial.

(** * Reveal on scroll (identical in both variants) *)

Module Reveal.

(** [classList.add('revealed')] keeps a class list free of duplicates. *)
Definition addClass (el : nat) (l : list nat) : list nat :=
  if existsb (Nat.eqb el) l then l else el :: l.

Record State := mkState {
  revealed : list nat;    (* elements carrying the class [revealed] *)
  observed : list nat     (* targets of [revealObserver] *)
}.

(** An [IntersectionObserverEntry]. *)
Record Entry := mkEntry {
  target : nat;
  isIntersecting : bool
}.

(** Script start: observe every flagged element, then, under
    [prefers-reduced-motion: reduce], mark every one of them. *)
Definition init (reveals : list nat) (reducedMotion : bool) : State :=
  let st := mkState [] reveals in
  if reducedMotion
  then mkState (fold_left (fun acc el => addClass el acc) reveals (revealed st))
               (observed st)
  else st.

(** The observer callback on one batch of entries. *)
Definition onEntry (st : State) (e : Entry) : State :=
  if isIntersecting e
  then mkState (addClass (target e) (revealed st))
               (detach (target e) (observed st))
  else st.

Definition callback (entries : list Entry) (st : State) : State :=
  fold_left onEntry entries st.

(** The browser delivers entries only for targets under observation:
    the observer can fire for [el] exactly while [el] is observed. *)
Definition canFireFor (st : State) (el : nat) : Prop := In el (observed st).

Definition deliverable (st : State) (entries : list Entry) : Prop :=
  forall e, In e entries -> canFireFor st (target e).

(** The states the page can reach by observer firings. *)
Inductive reachable (st0 : State) : State -> Prop :=
| reach_init : reachable st0 st0
| reach_fire st entries :
    reachable st0 st -> deliverable st entries ->
    reachable st0 (callback entries st).

(** Revealed and observed elements split the flagged ones. *)
Definition split_of (reveals : list nat) (st : State) : Prop :=
  (forall el, In el (revealed st) -> In el reveals /\ ~ In el (observed st))
  /\ (forall el, In el reveals -> In el (revealed st) \/ In el (observed st))
  /\ NoDup (revealed st)
  /\ (forall el, In el (observed st) -> In el reveals).

End Reveal.

(** * Runs of the page *)

(** The states variant 1 can reach: clicks on the hero at any time, and
    the frame callback whenever one has been requested. *)
Module PortfolioRun.
Import Portfolio.

Inductive reachable : State -> Prop :=
| run_start : reachable initial
| run_click e sy rnd st :
    reachable st -> reachable (heroClick e sy rnd st)
| run_frame f st :
    reachable st -> frameRequested st = true -> reachable (animateAll f st).

(** What the steps before the wall pass leave alone: the element and the
    [active] flag of a ball. *)
Definition tag (b : Ball) : nat * bool := (element b, active b).

(** A ball inside the document after the wall pass. *)
Definition contained (f : Frame) (b : Ball) : Prop :=
  ballRadius <= x b <= clientWidth f - ballRadius
  /\ scrollY f + ballRadius <= y b
  /\ y b - ballRadius <= scrollHeight f + 50.

End PortfolioRun.

(** The hero click of variant 2 with its launch patterns.  [rnd i] is the
    value of the [i]-th call of [Math.random()] made by the handler. *)
Module SpatialClick.
Import Spatial.

Inductive Pattern := burst | straight | arc | randomDirection.

(** [patterns[Math.floor(Math.random() * patterns.length)]] followed by the
    [switch]: index 3 and a missing entry both take the default case. *)
Definition pickPattern (r : R) : Pattern :=
  match JS.floor (r * 4) with
  | 0%Z => burst
  | 1%Z => straight
  | 2%Z => arc
  | _ => randomDirection
  end.

Record Click := mkClick {
  onLinkOrButton : bool;     (* e.target.closest('a, button') *)
  pageX : R;
  pageY : R
}.

(** The launch velocity and the number of random values used so far. *)
Definition launch (rnd : nat -> R) : R * R * nat :=
  let pattern := pickPattern (rnd 0%nat) in
  let clickForce := 8 + rnd 1%nat * 4 in
  let angle := (rnd 2%nat - 0.5) * PI / 2 in
  match pattern with
  | burst =>
      let burstAngle := rnd 3%nat * PI * 2 in
      (cos burstAngle * clickForce, sin burstAngle * clickForce, 4%nat)
  | straight => ((rnd 3%nat - 0.5) * 2, clickForce, 4%nat)
  | arc => ((rnd 3%nat - 0.5) * clickForce * 1.5, - clickForce * 0.5, 4%nat)
  | randomDirection =>
      ((rnd 3%nat - 0.5) * clickForce * 2, rnd 4%nat * clickForce, 5%nat)
  end.

(** The [spawnBall] call of the handler; the draw for [variant] sits
    between the launch pattern and the four draws of [spawnBall]. *)
Definition spawnFromClick (e : Click) (rnd : nat -> R) (st : State)
  : Ball * State :=
  let '(vx0, vy0, k) := launch rnd in
  spawnBall (pageX e) (pageY e) vx0 vy0
            (mkSpawnRandom (rnd (k + 1)%nat) (rnd (k + 2)%nat)
                           (rnd (k + 3)%nat) (rnd (k + 4)%nat)) st.

Definition heroClick (e : Click) (rnd : nat -> R) (st : State) : State :=
  if onLinkOrButton e then st else snd (spawnFromClick e rnd st).

End SpatialClick.

(** The states variant 2 can reach. *)
Module SpatialRun.
Import Spatial.

Inductive reachable : State -> Prop :=
| go_start : reachable initial
| go_spawn px py pvx pvy r st :
    reachable st -> reachable (snd (spawnBall px py pvx pvy r st))
| go_click e rnd st :
    reachable st -> reachable (SpatialClick.heroClick e rnd st)
| go_move cx cy st :
    reachable st -> reachable (mouseMove cx cy st)
| go_smooth st :
    reachable st -> reachable (animateMouseDisturbance st)
| go_frame f st :
    reachable st -> frameRequested st = true -> reachable (animateAll f st).

Definition tag (b : Ball) : nat * bool := (element b, active b).

(** A ball inside the viewport after the wall pass. *)
Definition contained (f : Frame) (b : Ball) : Prop :=
  ballRadius <= x b <= innerWidth f - ballRadius
  /\ ballRadius <= y b <= innerHeight f - ballRadius.

End SpatialRun.

(** * Project pages: scroll progress and the scroll throttle *)

Module Project.

(** [getScrollProgress(element)] from the element's box, [window.scrollY]
    and [window.innerHeight]. *)
Definition getScrollProgress (box : DOMRect) (scrollY windowHeight : R) : R :=
  let scrollStart := rect_top box + scrollY - windowHeight in
  let scrollEnd := rect_bottom box + scrollY in
  let scrollDistance := scrollEnd - scrollStart in
  let currentScroll := scrollY + windowHeight in
  Rmax 0 (Rmin 1 ((currentScroll - scrollStart) / scrollDistance)).

(** The staggered reveal of [animateScene], used for layers, screens,
    cards and assets: [els.forEach((el, index) => { if (progress > base +
    index * step) el.classList.add('visible') })], on the [visible] flags
    of the elements from position [index] on. *)
Fixpoint stagger (base step progress : R) (index : nat) (visible : list bool)
  : list bool :=
  match visible with
  | [] => []
  | v :: tl =>
      (if JS.gt progress (base + INR index * step) then true else v)
        :: stagger base step progress (S index) tl
  end.

(** Scene 02: the identity layers and the text block, if there is one. *)
Record IdentityScene := mkIdentity {
  layers : list bool;
  text : option bool
}.

Definition animateIdentity (progress : R) (s : IdentityScene) : IdentityScene :=
  mkIdentity (stagger 0.2 0.15 progress 0 (layers s))
             (match text s with
              | Some v => Some (if JS.gt progress 0.5 then true else v)
              | None => None
              end).

(** One pass of [updateSceneAnimations] over an identity scene. *)
Definition updateIdentity (box : DOMRect) (scrollY windowHeight : R)
           (s : IdentityScene) : IdentityScene :=
  animateIdentity (getScrollProgress box scrollY windowHeight) s.



(** The throttle around [updateSceneAnimations]: the flag, the frame
    callbacks queued, and the number of updates run so far. *)
Record Throttle := mkThrottle {
  ticking : bool;
  queued : nat;
  updates : nat
}.

Definition start : Throttle := mkThrottle false 0 1.

(** [onScroll] *)
Definition onScroll (t : Throttle) : Throttle :=
  if negb (ticking t)
  then mkThrottle true (S (queued t)) (updates t)
  else t.

(** The callback handed to [requestAnimationFrame]. *)
Definition onFrame (t : Throttle) : Throttle :=
  mkThrottle false (Nat.pred (queued t)) (S (updates t)).

(** The [resize] listener runs the update directly. *)
Definition onResize (t : Throttle) : Throttle :=
  mkThrottle (ticking t) (queued t) (S (updates t)).

Inductive reachable : Throttle -> Prop :=
| tick_start : reachable start
| tick_scroll t : reachable t -> reachable (onScroll t)
| tick_resize t : reachable t -> reachable (onResize t)
| tick_frame t : reachable t -> (0 < queued t)%nat -> reachable (onFrame t).

End Project.

(** * The arithmetic core over binary64 *)

(** The numeric functions whose sharp properties depend on rounding,
    once more, on the doubles the script computes with: [+ - * /],
    [Math.sqrt], [Math.abs] and the comparisons are the IEEE 754 binary64
    operations, a decimal literal is the nearest double, and every
    statement of the source is evaluated in the source's order.  The two
    variants differ in their constants only; a ball is given by the four
    numbers these functions read and write. *)
Module Doubles.
Import PrimFloat.
#[local] Set Warnings "-inexact-float".

Record Constants := mkConstants {
  bounceFactor : float;
  ballBounceFactor : float;
  ballRadius : float;
  stopVelocity : float;
  maxVelocity : float
}.

Definition portfolio : Constants := mkConstants 0.45 0.35 10 0.2 30.
Definition spatial : Constants := mkConstants 0.6 0.5 12 0.15 35.

Record Ball := mkBall {
  x : float;
  y : float;
  vx : float;
  vy : float
}.

Record Box := mkBox {
  left : float;
  right : float;
  top : float;
  bottom : float
}.

(** [a === b] on numbers. *)
Definition same (a b : float) : bool := (a =? b)%float.

(** [Math.min(a, b)] on numbers. *)
Definition min (a b : float) : float := if (b <? a)%float then b else a.

Definition speed (b : Ball) : float :=
  sqrt (vx b * vx b + vy b * vy b)%float.

Definition clampVelocity (c : Constants) (b : Ball) : Ball :=
  let speed := sqrt (vx b * vx b + vy b * vy b)%float in
  if (maxVelocity c <? speed)%float then
    let scale := (maxVelocity c / speed)%float in
    mkBall (x b) (y b) (vx b * scale)%float (vy b * scale)%float
  else b.

Definition resolveBallCollision (c : Constants) (a b : Ball) : Ball * Ball :=
  let dx := (x b - x a)%float in
  let dy := (y b - y a)%float in
  let minDist := (ballRadius c * 2)%float in
  let dist0 := sqrt (dx * dx + dy * dy)%float in
  let dist := if (dist0 =? 0)%float then 0.01%float else dist0 in
  if (dist <? minDist)%float then
    let nx := (dx / dist)%float in
    let ny := (dy / dist)%float in
    let overlap := (minDist - dist)%float in
    let separation := (overlap / 2)%float in
    let a1 := mkBall (x a - nx * separation)%float (y a - ny * separation)%float
                     (vx a) (vy a) in
    let b1 := mkBall (x b + nx * separation)%float (y b + ny * separation)%float
                     (vx b) (vy b) in
    let rvx := (vx b1 - vx a1)%float in
    let rvy := (vy b1 - vy a1)%float in
    let velAlongNormal := (rvx * nx + rvy * ny)%float in
    if (0 <? velAlongNormal)%float then (a1, b1)
    else
      let impulse := (- (1 + ballBounceFactor c) * velAlongNormal / 2)%float in
      let ix := (impulse * nx)%float in
      let iy := (impulse * ny)%float in
      (mkBall (x a1) (y a1) (vx a1 - ix)%float (vy a1 - iy)%float,
       mkBall (x b1) (y b1) (vx b1 + ix)%float (vy b1 + iy)%float)
  else (a, b).

(** [checkRectCollision] against a rectangular obstacle; the rotation
    that variant 2 adds on the X axis is no part of a [Ball] here. *)
Definition checkRectCollision (c : Constants) (b : Ball) (obs : Box) : bool * Ball :=
  let ballLeft := (x b - ballRadius c)%float in
  let ballRight := (x b + ballRadius c)%float in
  let ballTop := (y b - ballRadius c)%float in
  let ballBottom := (y b + ballRadius c)%float in
  if (left obs <? ballRight)%float && (ballLeft <? right obs)%float
     && (top obs <? ballBottom)%float && (ballTop <? bottom obs)%float
  then
    let overlapLeft := (ballRight - left obs)%float in
    let overlapRight := (right obs - ballLeft)%float in
    let overlapTop := (ballBottom - top obs)%float in
    let overlapBottom := (bottom obs - ballTop)%float in
    let minOverlapX := min overlapLeft overlapRight in
    let minOverlapY := min overlapTop overlapBottom in
    if (minOverlapX <? minOverlapY)%float then
      let b1 :=
        if (overlapLeft <? overlapRight)%float
        then mkBall (left obs - ballRadius c)%float (y b)
                    (- abs (vx b) * bounceFactor c)%float (vy b)
        else mkBall (right obs + ballRadius c)%float (y b)
                    (abs (vx b) * bounceFactor c)%float (vy b) in
      (true,
       if (abs (vx b1) <? stopVelocity c)%float
       then mkBall (x b1) (y b1) 0%float (vy b1) else b1)
    else
      let b1 :=
        if (overlapTop <? overlapBottom)%float
        then mkBall (x b) (top obs - ballRadius c)%float
                    (vx b) (- abs (vy b) * bounceFactor c)%float
        else mkBall (x b) (bottom obs + ballRadius c)%float
                    (vx b) (abs (vy b) * bounceFactor c)%float in
      (true,
       if (abs (vy b1) <? stopVelocity c)%float
       then mkBall (x b1) (y b1) (vx b1) 0%float else b1)
  else (false, b).

(** What the sharp statements compare. *)
Definition overLimit (c : Constants) (b : Ball) : bool :=
  (maxVelocity c <? speed b)%float.

Definition sameVelocity (a b : Ball) : bool :=
  same (vx a) (vx b) && same (vy a) (vy b).

Definition sumVx (p : Ball * Ball) : float := (vx (fst p) + vx (snd p))%float.
Definition sumVy (p : Ball * Ball) : float := (vy (fst p) + vy (snd p))%float.
Definition sumX (p : Ball * Ball) : float := (x (fst p) + x (snd p))%float.
Definition sumY (p : Ball * Ball) : float := (y (fst p) + y (snd p))%float.

(** A ball flying at (-40, -39.6). *)
Definition fast : Ball := mkBall 0 0 (-40) (-39.6).

(** Two overlapping balls closing in, one pair for each variant. *)
Definition leftBall : Ball := mkBall 0 0 1 0.
Definition rightBall1 : Ball := mkBall 3 8 (-2) (-1).
Definition rightBall2 : Ball := mkBall 3 4 (-2) 0.

(** A ball moving right at 3 into the left edge, at 0.4, of a box. *)
Definition edgeBox : Box := mkBox 0.4 100 0 100.
Definition edgeBall : Ball := mkBall (-4.6) 50 3 0.

End Doubles.

(** * Concrete inputs *)

(** The state after [n] clicks on the hero, with no frame in between. *)
Definition click0 : Portfolio.Click := Portfolio.mkClick false 100 100.

Definition portfolioClicks (n : nat) : Portfolio.State :=
  Nat.iter n (Portfolio.heroClick click0 0 0.5) Portfolio.initial.

Definition portfolioBall (i : nat) : Portfolio.Ball :=
  Portfolio.mkBall i 100 (100 + 0) ((0.5 - 0.5) * 6) 2 true false.

Definition spawn0 (st : Spatial.State) : Spatial.State :=
  snd (Spatial.spawnBall 100 100 0 2 (Spatial.mkSpawnRandom 0.5 0.5 0 0.5) st).

Definition spatialSpawns (n : nat) : Spatial.State :=
  Nat.iter n spawn0 Spatial.initial.

Definition spatialBall (i : nat) : Spatial.Ball :=
  Spatial.mkBall i 100 100 (0 + (0.5 - 0.5) * 6) (2 + (0.5 - 0.5) * 4)
                 true false (0 * 360) ((0.5 - 0.5) * 10) None None None.

(** Two balls of the first variant on the very same spot, and two that
    overlap at distance 12. *)
Definition stackedA : Portfolio.Ball := Portfolio.mkBall 0 50 50 0 0 true false.
Definition stackedB : Portfolio.Ball := Portfolio.mkBall 1 50 50 0 0 true false.
Definition nearA : Portfolio.Ball := Portfolio.mkBall 0 0 0 0 0 true false.
Definition nearB : Portfolio.Ball := Portfolio.mkBall 1 12 0 0 0 true false.

(** The same for the second variant. *)
Definition stackedA2 : Spatial.Ball :=
  Spatial.mkBall 0 50 50 0 0 true false 0 0 None None None.
Definition stackedB2 : Spatial.Ball :=
  Spatial.mkBall 1 50 50 0 0 true false 0 0 None None None.
Definition nearA2 : Spatial.Ball :=
  Spatial.mkBall 0 0 0 0 0 true false 0 0 None None None.
Definition nearB2 : Spatial.Ball :=
  Spatial.mkBall 1 12 0 0 0 true false 0 0 None None None.

(** A 100 by 100 obstacle at the origin, a ball overlapping its top-left
    corner by 5 on both axes, and a ball overlapping only its left edge. *)
Definition box : Portfolio.Obstacle := Portfolio.mkObstacle rect 0 100 0 100.
Definition cornerBall : Portfolio.Ball := Portfolio.mkBall 0 (-5) (-5) 3 4 true false.
Definition sideBall : Portfolio.Ball := Portfolio.mkBall 0 (-5) 50 3 4 true false.

Definition box2 : Spatial.Bounds := Spatial.mkBounds 0 100 0 100.
Definition cornerBall2 : Spatial.Ball :=
  Spatial.mkBall 0 (-7) (-7) 3 4 true false 0 0 None None None.
Definition sideBall2 : Spatial.Ball :=
  Spatial.mkBall 0 (-7) 50 3 4 true false 0 0 None None None.

(** Layout boxes of flagged elements: 6 wide, 6 high, and a roomy one. *)
Definition narrowBox : DOMRect := mkDOMRect 0 0 6 100.
Definition lowBox : DOMRect := mkDOMRect 0 0 100 6.
Definition roomyBox : DOMRect := mkDOMRect 0 0 200 50.

(** A fully opaque one-pixel mask stretched over a 100 by 100 image, and
    a ball inside it moving with velocity (3, 4). *)
Definition onePixel : Spatial.MaskData := Spatial.mkMask [0; 0; 0; 255]%Z 1 1.
Definition maskBox : Spatial.Obstacle :=
  Spatial.MaskObstacle (Spatial.mkBounds 0 100 0 100) 100 100 onePixel.
Definition maskBall : Spatial.Ball :=
  Spatial.mkBall 0 50 50 3 4 true false 0 0 None None None.


(** A running loop whose only ball is about to drop below the floor of a
    3000px high document, and the frame 100ms after the previous one. *)
Definition fallingBall : Portfolio.Ball := Portfolio.mkBall 0 100 3030 0 20 true false.
Definition fallingState : Portfolio.State :=
  Portfolio.mkState [fallingBall] [0%nat] 1 1000 true true.
Definition lastFrame : Portfolio.Frame := Portfolio.mkFrame 1100 [] 0 1200 3000.

(** A ball of the second variant left below the floor after the viewport
    shrank to 800px, the cursor resting at the origin. *)
Definition fallingBall2 : Spatial.Ball :=
  Spatial.mkBall 0 400 990 0 20 true false 0 0 None None None.
Definition fallingState2 : Spatial.State :=
  Spatial.mkState [fallingBall2] [0%nat] 1 1000 true true 0 0 0 0 [] 950 [].
Definition lastFrame2 : Spatial.Frame :=
  Spatial.mkFrame 1100 [] [] 1200 800 (fun _ _ => (0.5, 0.5)).

(** Two balls of the first variant on crossing courses, both within the
    speed limit: one flying to the right, one falling, meeting 10px apart
    after the next integration; a 2000 by 5000 document without obstacles. *)
Definition crossA : Portfolio.Ball :=
  Portfolio.mkBall 0 100 1057.075712 29 (-1.2) true false.
Definition crossB : Portfolio.Ball :=
  Portfolio.mkBall 1 167.075712 1000 0 27.8 true false.
Definition crossingState : Portfolio.State :=
  Portfolio.mkState [crossA; crossB] [0%nat; 1%nat] 2 1000 true true.
Definition crossingFrame : Portfolio.Frame := Portfolio.mkFrame 1100 [] 0 2000 5000.

(** The first frame after one click, and after one spawn in mid-viewport. *)
Definition firstFrame : Portfolio.Frame := Portfolio.mkFrame 16 [] 0 1200 3000.
Definition loneBall2 : Spatial.Ball :=
  Spatial.mkBall 0 600 300 1 2 true false 0 0 None None None.
Definition loneState2 : Spatial.State :=
  Spatial.mkState [loneBall2] [0%nat] 1 0 true true 0 0 0 0 [] 0 [].
Definition firstFrame2 : Spatial.Frame :=
  Spatial.mkFrame 16 [] [] 1200 800 (fun _ _ => (0.5, 0.5)).


(** Two balls 40px apart. *)
Definition farA : Portfolio.Ball := Portfolio.mkBall 0 0 0 4 0 true false.
Definition farB : Portfolio.Ball := Portfolio.mkBall 1 40 0 (-6) 0 true false.
Definition farA2 : Spatial.Ball :=
  Spatial.mkBall 0 0 0 4 0 true false 0 0 None None None.
Definition farB2 : Spatial.Ball :=
  Spatial.mkBall 1 40 0 (-6) 0 true false 0 0 None None None.

(** A loop that ran its last frame at 1000, and a frame 10ms later. *)
Definition runningState : Portfolio.State :=
  Portfolio.mkState [fallingBall] [0%nat] 1 1000 true true.
Definition soonFrame : Portfolio.Frame := Portfolio.mkFrame 1010 [] 0 1200 3000.
Definition runningState2 : Spatial.State :=
  Spatial.mkState [loneBall2] [0%nat] 1 1000 true true 0 0 0 0 [] 950 [].
Definition soonFrame2 : Spatial.Frame :=
  Spatial.mkFrame 1010 [] [] 1200 800 (fun _ _ => (0.5, 0.5)).

(** The crossing pair with a third ball far off that falls at 40, above
    the limit of 30 it is clamped to. *)
Definition fastBall : Portfolio.Ball := Portfolio.mkBall 2 600 200 0 40 true false.
Definition busyState : Portfolio.State :=
  Portfolio.mkState [crossA; crossB; fastBall] [0%nat; 1%nat; 2%nat] 3 1000 true true.

(** A ball lying still on the floor of an 800px viewport since 500. *)
Definition restingBall2 : Spatial.Ball :=
  Spatial.mkBall 0 600 788 0 0 true false 0 0 (Some 600) (Some 788) (Some 500).
Definition restingState2 : Spatial.State :=
  Spatial.mkState [restingBall2] [0%nat] 1 1000 true true 0 0 0 0 [] 950 [].

(** A click in the open hero, with every [Math.random()] yielding 0.5. *)
Definition heroPoint : SpatialClick.Click := SpatialClick.mkClick false 300 200.
Definition evenRandom : nat -> R := fun _ => 0.5.

(** A loaded two-pixel image flagged as a mask, and the same element
    after its picture changed. *)
Definition logoImage : Spatial.MaskElement :=
  Spatial.mkMaskElement 3 (mkDOMRect 0 0 100 50) true 2 1 [0; 0; 0; 255; 0; 0; 0; 0]%Z.
Definition logoImageLater : Spatial.MaskElement :=
  Spatial.mkMaskElement 3 (mkDOMRect 0 0 100 50) true 2 1 [0; 0; 0; 0; 0; 0; 0; 0]%Z.

(** A scene box 600px high whose top is 300px below the top of an 800px
    viewport, and an identity scene of eight hidden layers. *)
Definition sceneBox : DOMRect := mkDOMRect 0 300 1000 600.
Definition eightLayers : Project.IdentityScene :=
  Project.mkIdentity (repeat false 8) (Some false).

(** * Properties *)

(** ** Comparisons and square roots *)

Lemma lt_true (a b : R) : JS.lt a b = true <-> a < b.
Proof. unfold JS.lt; destruct (Rlt_dec a b); split; intros; try lra; congruence. Qed.

Lemma lt_false (a b : R) : JS.lt a b = false <-> b <= a.
Proof. unfold JS.lt; destruct (Rlt_dec a b); split; intros; try lra; congruence. Qed.

Lemma gt_true (a b : R) : JS.gt a b = true <-> b < a.
Proof. unfold JS.gt; destruct (Rgt_dec a b); split; intros; try lra; congruence. Qed.

Lemma gt_false (a b : R) : JS.gt a b = false <-> a <= b.
Proof. unfold JS.gt; destruct (Rgt_dec a b); split; intros; try lra; congruence. Qed.

Lemma eq_true (a b : R) : JS.eq a b = true <-> a = b.
Proof. unfold JS.eq; destruct (Req_dec_T a b); split; intros; try lra; congruence. Qed.

Lemma eq_false (a b : R) : JS.eq a b = false <-> a <> b.
Proof. unfold JS.eq; destruct (Req_dec_T a b); split; intros; try lra; congruence. Qed.

Lemma orElse_zero (a : R) : JS.orElse a 0 = a.
Proof. unfold JS.orElse; destruct (Req_dec_T a 0); lra. Qed.

Lemma sum_sq_nonneg (a b : R) : 0 <= a * a + b * b.
Proof. nra. Qed.

Lemma sqrt_le_bound (s m : R) : 0 <= m -> s <= m * m -> sqrt s <= m.
Proof.
  intros Hm Hs.
  destruct (Rle_or_lt s 0) as [Hneg | Hpos].
  - destruct Hneg as [Hlt | Heq].
    + rewrite sqrt_neg_0 by lra. exact Hm.
    + subst s. rewrite sqrt_0. exact Hm.
  - rewrite <- (sqrt_square m) by exact Hm.
    apply sqrt_le_1; nra.
Qed.

Lemma sqrt_gt_bound (s m : R) : 0 <= m -> m * m < s -> m < sqrt s.
Proof.
  intros Hm Hs.
  rewrite <- (sqrt_square m) at 1 by exact Hm.
  apply sqrt_lt_1; nra.
Qed.

Lemma sqrt_sq_abs (a : R) : sqrt (a * a) = Rabs a.
Proof. replace (a * a) with (Rsqr a) by (unfold Rsqr; ring). apply sqrt_Rsqr_abs. Qed.

Lemma hypot_zero_iff (a b : R) : sqrt (a * a + b * b) = 0 <-> a = 0 /\ b = 0.
Proof.
  split.
  - intros H. apply sqrt_eq_0 in H; [nra | apply sum_sq_nonneg].
  - intros [-> ->]. replace (0 * 0 + 0 * 0) with 0 by ring. apply sqrt_0.
Qed.

Lemma hypot_sq (a b : R) :
  sqrt (a * a + b * b) * sqrt (a * a + b * b) = a * a + b * b.
Proof. apply sqrt_sqrt, sum_sq_nonneg. Qed.

(** ** The spawner and the cap *)

Lemma length_setNth {A : Type} (i : nat) (v : A) (l : list A) :
  length (setNth i v l) = length l.
Proof.
  revert i; induction l as [| h tl IH]; intros [| i]; simpl; auto.
Qed.

Module PortfolioSpawn.
Import Portfolio.

Lemma cleanupLoop_within_cap_v1 bs d :
  (length bs <= maxBalls)%nat -> cleanupLoop bs d = (bs, d).
Proof.
  intros Hlen. destruct bs as [| b rest]; [reflexivity |].
  cbn [cleanupLoop].
  destruct (Nat.ltb_spec maxBalls (length (b :: rest))); [lia | reflexivity].
Qed.

Lemma cleanupLoop_length_v1 bs d :
  length (fst (cleanupLoop bs d)) = Nat.min (length bs) maxBalls.
Proof.
  revert d; induction bs as [| b rest IH]; intros d; [reflexivity |].
  cbn [cleanupLoop].
  destruct (Nat.ltb_spec maxBalls (length (b :: rest))) as [Hgt | Hle].
  - rewrite IH. cbn [length] in *. lia.
  - cbn [fst length] in *. lia.
Qed.

Lemma heroClick_balls e sy rnd st :
  onLinkOrButton e = false ->
  balls (heroClick e sy rnd st) =
  fst (cleanupLoop (balls st) (dom st))
  ++ [mkBall (nextElement st) (clientX e) (clientY e + sy)
             ((rnd - 0.5) * 6) 2 true false].
Proof.
  intros He. unfold heroClick, cleanupBalls, createBall. rewrite He.
  destruct (cleanupLoop (balls st) (dom st)) as [bs d]. cbn.
  destruct (animating st); reflexivity.
Qed.

(** What the code does guarantee: one more than the cap. *)
Lemma heroClick_length_bound e sy rnd st :
  (length (balls (heroClick e sy rnd st)) <= Nat.max (length (balls st)) (S maxBalls))%nat.
Proof.
  destruct (onLinkOrButton e) eqn:He.
  - unfold heroClick. rewrite He. lia.
  - rewrite heroClick_balls by exact He.
    rewrite length_app, cleanupLoop_length_v1. cbn [length]. lia.
Qed.

(** One ball above the cap is where eviction sets in: the oldest ball
    leaves the array and its element leaves the container. *)
Lemma heroClick_evicts_above_cap e sy rnd st oldest rest :
  onLinkOrButton e = false ->
  balls st = oldest :: rest -> length rest = maxBalls ->
  balls (heroClick e sy rnd st)
  = rest ++ [mkBall (nextElement st) (clientX e) (clientY e + sy)
                    ((rnd - 0.5) * 6) 2 true false]
  /\ dom (heroClick e sy rnd st)
     = detach (element oldest) (dom st) ++ [nextElement st].
Proof.
  intros He Hbs Hlen.
  assert (Hc : cleanupLoop (balls st) (dom st)
               = (rest, detach (element oldest) (dom st))).
  { rewrite Hbs. cbn [cleanupLoop].
    destruct (Nat.ltb_spec maxBalls (length (oldest :: rest))) as [_ | Hle];
      [| cbn [length] in Hle; lia].
    apply cleanupLoop_within_cap_v1. lia. }
  unfold heroClick, cleanupBalls, createBall. rewrite He, Hc. cbn.
  destruct (animating st); cbn; auto.
Qed.

End PortfolioSpawn.

Module SpatialSpawn.
Import Spatial.

Lemma cleanupLoop_within_cap_v2 bs d :
  (length bs <= maxBalls)%nat -> cleanupLoop bs d = (bs, d).
Proof.
  intros Hlen. destruct bs as [| b rest]; [reflexivity |].
  cbn [cleanupLoop].
  destruct (Nat.ltb_spec maxBalls (length (b :: rest))); [lia | reflexivity].
Qed.

Lemma cleanupLoop_length_v2 bs d :
  length (fst (cleanupLoop bs d)) = Nat.min (length bs) maxBalls.
Proof.
  revert d; induction bs as [| b rest IH]; intros d; [reflexivity |].
  cbn [cleanupLoop].
  destruct (Nat.ltb_spec maxBalls (length (b :: rest))) as [Hgt | Hle].
  - rewrite IH. cbn [length] in *. lia.
  - cbn [fst length] in *. lia.
Qed.

Lemma spawnBall_balls px py pvx pvy r st :
  balls (snd (spawnBall px py pvx pvy r st)) =
  fst (cleanupLoop (balls st) (dom st)) ++ [fst (spawnBall px py pvx pvy r st)].
Proof.
  unfold spawnBall, cleanupBalls, createBall, setBalls, setLoop.
  destruct (cleanupLoop (balls st) (dom st)) as [bs d]. cbn.
  destruct (animating st); reflexivity.
Qed.

Lemma spawnBall_length_bound px py pvx pvy r st :
  (length (balls (snd (spawnBall px py pvx pvy r st)))
   <= Nat.max (length (balls st)) (S maxBalls))%nat.
Proof.
  rewrite spawnBall_balls, length_app, cleanupLoop_length_v2. cbn [length]. lia.
Qed.

Lemma spawnBall_evicts_above_cap px py pvx pvy r st oldest rest :
  balls st = oldest :: rest -> length rest = maxBalls ->
  balls (snd (spawnBall px py pvx pvy r st))
  = rest ++ [fst (spawnBall px py pvx pvy r st)]
  /\ dom (snd (spawnBall px py pvx pvy r st))
     = detach (element oldest) (dom st) ++ [nextElement st].
Proof.
  intros Hbs Hlen.
  assert (Hc : cleanupLoop (balls st) (dom st)
               = (rest, detach (element oldest) (dom st))).
  { rewrite Hbs. cbn [cleanupLoop].
    destruct (Nat.ltb_spec maxBalls (length (oldest :: rest))) as [_ | Hle];
      [| cbn [length] in Hle; lia].
    apply cleanupLoop_within_cap_v2. lia. }
  unfold spawnBall, cleanupBalls, createBall, setBalls, setLoop. rewrite Hc. cbn.
  destruct (animating st); cbn; auto.
Qed.

End SpatialSpawn.

Lemma portfolioClicks_state n :
  (n <= Portfolio.maxBalls)%nat ->
  Portfolio.balls (portfolioClicks n) = map portfolioBall (seq 0 n)
  /\ Portfolio.nextElement (portfolioClicks n) = n.
Proof.
  induction n as [| n IH]; intros Hn; [split; reflexivity |].
  destruct IH as [IHb IHn]; [lia |].
  change (portfolioClicks (S n))
    with (Portfolio.heroClick click0 0 0.5 (portfolioClicks n)).
  split.
  - rewrite PortfolioSpawn.heroClick_balls by reflexivity.
    rewrite PortfolioSpawn.cleanupLoop_within_cap_v1
      by (rewrite IHb, length_map, length_seq; lia).
    cbn [fst]. rewrite IHb, IHn, seq_S, map_app. reflexivity.
  - unfold Portfolio.heroClick, Portfolio.cleanupBalls, Portfolio.createBall.
    cbn [Portfolio.onLinkOrButton click0].
    destruct (Portfolio.cleanupLoop _ _) as [bs d]. cbn.
    destruct (Portfolio.animating (portfolioClicks n)); cbn; congruence.
Qed.

Lemma spatialSpawns_state n :
  (n <= Spatial.maxBalls)%nat ->
  Spatial.balls (spatialSpawns n) = map spatialBall (seq 0 n)
  /\ Spatial.nextElement (spatialSpawns n) = n.
Proof.
  induction n as [| n IH]; intros Hn; [split; reflexivity |].
  destruct IH as [IHb IHn]; [lia |].
  change (spatialSpawns (S n)) with (spawn0 (spatialSpawns n)).
  unfold spawn0. split.
  - rewrite SpatialSpawn.spawnBall_balls.
    rewrite SpatialSpawn.cleanupLoop_within_cap_v2
      by (rewrite IHb, length_map, length_seq; lia).
    cbn [fst]. rewrite IHb, seq_S, map_app. f_equal.
    unfold Spatial.spawnBall, Spatial.cleanupBalls, Spatial.createBall,
      Spatial.setBalls, Spatial.setLoop.
    destruct (Spatial.cleanupLoop _ _) as [bs d]. cbn. rewrite IHn. reflexivity.
  - unfold Spatial.spawnBall, Spatial.cleanupBalls, Spatial.createBall,
      Spatial.setBalls, Spatial.setLoop.
    destruct (Spatial.cleanupLoop _ _) as [bs d]. cbn.
    destruct (Spatial.animating (spatialSpawns n)); cbn; congruence.
Qed.

(** C1 (the code departs from the claim).  A spawn that finds the
    collection exactly at the cap evicts nothing: [cleanupBalls] only
    shifts while [balls.length > maxBalls], so the oldest ball stays
    tracked, its element stays attached, and the collection holds
    [maxBalls + 1] balls afterwards, in both variants. *)
Theorem C1_spawn_at_cap_exceeds_cap :
  (forall e sy rnd st oldest rest,
      Portfolio.onLinkOrButton e = false ->
      Portfolio.balls st = oldest :: rest ->
      length (Portfolio.balls st) = Portfolio.maxBalls ->
      let st' := Portfolio.heroClick e sy rnd st in
      length (Portfolio.balls st') = S Portfolio.maxBalls
      /\ hd_error (Portfolio.balls st') = Some oldest
      /\ Portfolio.dom st' = Portfolio.dom st ++ [Portfolio.nextElement st])
  /\
  (forall px py pvx pvy r st oldest rest,
      Spatial.balls st = oldest :: rest ->
      length (Spatial.balls st) = Spatial.maxBalls ->
      let st' := snd (Spatial.spawnBall px py pvx pvy r st) in
      length (Spatial.balls st') = S Spatial.maxBalls
      /\ hd_error (Spatial.balls st') = Some oldest
      /\ Spatial.dom st' = Spatial.dom st ++ [Spatial.nextElement st]).
Proof.
  split.
  - intros e sy rnd st oldest rest He Hbs Hlen st'. subst st'.
    assert (Hc : Portfolio.cleanupLoop (Portfolio.balls st) (Portfolio.dom st)
                 = (Portfolio.balls st, Portfolio.dom st))
      by (apply PortfolioSpawn.cleanupLoop_within_cap_v1; lia).
    unfold Portfolio.heroClick, Portfolio.cleanupBalls, Portfolio.createBall.
    rewrite He, Hc. cbn.
    destruct (Portfolio.animating st); cbn;
      rewrite ?length_app, ?Hlen, ?Hbs; cbn; auto.
  - intros px py pvx pvy r st oldest rest Hbs Hlen st'. subst st'.
    assert (Hc : Spatial.cleanupLoop (Spatial.balls st) (Spatial.dom st)
                 = (Spatial.balls st, Spatial.dom st))
      by (apply SpatialSpawn.cleanupLoop_within_cap_v2; lia).
    unfold Spatial.spawnBall, Spatial.cleanupBalls, Spatial.createBall,
      Spatial.setBalls, Spatial.setLoop.
    rewrite Hc. cbn.
    destruct (Spatial.animating st); cbn;
      rewrite ?length_app, ?Hlen, ?Hbs; cbn; auto.
Qed.

(** Twenty clicks (fifteen spawns) fill the collection to the cap; the
    next one makes it twenty-one (sixteen) with the first ball still in
    front. *)
Lemma C1_spawn_at_cap_witness :
  (length (Portfolio.balls (portfolioClicks 20)) = 20%nat
   /\ length (Portfolio.balls (Portfolio.heroClick click0 0 0.5 (portfolioClicks 20)))
      = 21%nat
   /\ hd_error (Portfolio.balls (Portfolio.heroClick click0 0 0.5 (portfolioClicks 20)))
      = Some (portfolioBall 0))
  /\
  (length (Spatial.balls (spatialSpawns 15)) = 15%nat
   /\ length (Spatial.balls (spawn0 (spatialSpawns 15))) = 16%nat
   /\ hd_error (Spatial.balls (spawn0 (spatialSpawns 15))) = Some (spatialBall 0)).
Proof.
  destruct C1_spawn_at_cap_exceeds_cap as [HP HS].
  destruct (portfolioClicks_state 20) as [HbP _]; [unfold Portfolio.maxBalls; lia |].
  destruct (spatialSpawns_state 15) as [HbS _]; [unfold Spatial.maxBalls; lia |].
  split.
  - destruct (HP click0 0 0.5 (portfolioClicks 20) (portfolioBall 0)
                 (map portfolioBall (seq 1 19)) eq_refl HbP) as (H21 & Hhd & _).
    + rewrite HbP. reflexivity.
    + split; [rewrite HbP; reflexivity |]. split; [exact H21 | exact Hhd].
  - destruct (HS 100 100 0 2 (Spatial.mkSpawnRandom 0.5 0.5 0 0.5)
                 (spatialSpawns 15) (spatialBall 0)
                 (map spatialBall (seq 1 14)) HbS) as (H16 & Hhd & _).
    + rewrite HbS. reflexivity.
    + split; [rewrite HbS; reflexivity |]. split; [exact H16 | exact Hhd].
Defined.

(** ** Ball against ball *)

(** Pushing two points apart along their unit normal by half the overlap
    each leaves them exactly [m] apart. *)
Lemma separation_distance (xa ya xb yb m : R) :
  let dx := xb - xa in
  let dy := yb - ya in
  let d := sqrt (dx * dx + dy * dy) in
  let s := (m - d) / 2 in
  0 < d -> 0 <= m ->
  sqrt (((xb + dx / d * s) - (xa - dx / d * s)) * ((xb + dx / d * s) - (xa - dx / d * s))
        + ((yb + dy / d * s) - (ya - dy / d * s)) * ((yb + dy / d * s) - (ya - dy / d * s)))
  = m.
Proof.
  intros dx dy d s Hd Hm.
  assert (Hsq : d * d = dx * dx + dy * dy) by (apply hypot_sq).
  subst s. clearbody d. subst dx dy.
  replace (((xb + (xb - xa) / d * ((m - d) / 2)) - (xa - (xb - xa) / d * ((m - d) / 2)))
           * ((xb + (xb - xa) / d * ((m - d) / 2)) - (xa - (xb - xa) / d * ((m - d) / 2)))
           + ((yb + (yb - ya) / d * ((m - d) / 2)) - (ya - (yb - ya) / d * ((m - d) / 2)))
             * ((yb + (yb - ya) / d * ((m - d) / 2)) - (ya - (yb - ya) / d * ((m - d) / 2))))
    with (m * m * (((xb - xa) * (xb - xa) + (yb - ya) * (yb - ya)) / (d * d)))
    by (field; lra).
  rewrite <- Hsq.
  replace (m * m * (d * d / (d * d))) with (m * m) by (field; lra).
  apply sqrt_square, Hm.
Qed.

(** Turns decided guards in the context into (in)equalities. *)
Ltac reflect_guards :=
  repeat match goal with
         | H : JS.eq _ _ = true |- _ => apply eq_true in H
         | H : JS.eq _ _ = false |- _ => apply eq_false in H
         | H : JS.lt _ _ = true |- _ => apply lt_true in H
         | H : JS.lt _ _ = false |- _ => apply lt_false in H
         | H : JS.gt _ _ = true |- _ => apply gt_true in H
         | H : JS.gt _ _ = false |- _ => apply gt_false in H
         end.

Module PortfolioPairs.
Import Portfolio.

Lemma resolve_separates_v1 a b :
  0 < centreDistance a b -> centreDistance a b < ballRadius * 2 ->
  let d := centreDistance a b in
  let a' := fst (resolveBallCollision a b) in
  let b' := snd (resolveBallCollision a b) in
  x a' = x a - (x b - x a) / d * ((ballRadius * 2 - d) / 2)
  /\ y a' = y a - (y b - y a) / d * ((ballRadius * 2 - d) / 2)
  /\ x b' = x b + (x b - x a) / d * ((ballRadius * 2 - d) / 2)
  /\ y b' = y b + (y b - y a) / d * ((ballRadius * 2 - d) / 2)
  /\ centreDistance a' b' = ballRadius * 2.
Proof.
  intros Hpos Hlt d a' b'. subst d a' b'.
  assert (Hm : 0 <= ballRadius * 2) by (unfold ballRadius; lra).
  assert (Hsep := separation_distance (x a) (y a) (x b) (y b) (ballRadius * 2)).
  cbv zeta in Hsep. fold (centreDistance a b) in Hsep.
  specialize (Hsep Hpos Hm).
  unfold resolveBallCollision. fold (centreDistance a b).
  assert (E0 : JS.eq (centreDistance a b) 0 = false) by (apply eq_false; lra).
  assert (E1 : JS.lt (centreDistance a b) (ballRadius * 2) = true)
    by (apply lt_true; exact Hlt).
  rewrite E0, E1. cbv zeta.
  destruct (JS.gt _ 0); cbn [fst snd setPos setVel x y];
    (repeat split; try reflexivity); unfold centreDistance at 1; cbn [x y];
    exact Hsep.
Qed.

Lemma resolve_coincident_v1 a b :
  centreDistance a b = 0 ->
  let a' := fst (resolveBallCollision a b) in
  let b' := snd (resolveBallCollision a b) in
  x a' = x a /\ y a' = y a /\ x b' = x b /\ y b' = y b
  /\ vx a' = vx a /\ vy a' = vy a /\ vx b' = vx b /\ vy b' = vy b.
Proof.
  intros Hz a' b'. subst a' b'.
  unfold centreDistance in Hz.
  destruct (proj1 (hypot_zero_iff _ _) Hz) as [Hdx Hdy].
  unfold resolveBallCollision. rewrite Hz, Hdx, Hdy.
  assert (E0 : JS.eq 0 0 = true) by (apply eq_true; reflexivity).
  assert (E1 : JS.lt 0.01 (ballRadius * 2) = true)
    by (apply lt_true; unfold ballRadius; lra).
  rewrite E0, E1. cbv zeta.
  destruct (JS.gt _ 0); cbn [fst snd setPos setVel x y vx vy];
    repeat split; unfold Rdiv; ring.
Qed.

Lemma resolve_impulse_v1 a b :
  let a' := fst (resolveBallCollision a b) in
  let b' := snd (resolveBallCollision a b) in
  exists j : R,
    vx a' = vx a - j * fst (collisionNormal a b)
    /\ vy a' = vy a - j * snd (collisionNormal a b)
    /\ vx b' = vx b + j * fst (collisionNormal a b)
    /\ vy b' = vy b + j * snd (collisionNormal a b).
Proof.
  intros a' b'. subst a' b'.
  unfold resolveBallCollision, collisionNormal. cbv zeta.
  destruct (JS.eq _ 0); destruct (JS.lt _ (ballRadius * 2));
    try (exists 0; cbn; repeat split; ring);
    (destruct (JS.gt _ 0);
     [ exists 0; cbn; repeat split; ring
     | eexists; cbn [fst snd setPos setVel vx vy]; repeat split; reflexivity ]).
Qed.

End PortfolioPairs.

Module SpatialPairs.
Import Spatial.

Lemma resolve_separates_v2 ra rb a b :
  0 < centreDistance a b -> centreDistance a b < ballRadius * 2 ->
  let d := centreDistance a b in
  let a' := fst (resolveBallCollision ra rb a b) in
  let b' := snd (resolveBallCollision ra rb a b) in
  x a' = x a - (x b - x a) / d * ((ballRadius * 2 - d) / 2)
  /\ y a' = y a - (y b - y a) / d * ((ballRadius * 2 - d) / 2)
  /\ x b' = x b + (x b - x a) / d * ((ballRadius * 2 - d) / 2)
  /\ y b' = y b + (y b - y a) / d * ((ballRadius * 2 - d) / 2)
  /\ centreDistance a' b' = ballRadius * 2.
Proof.
  intros Hpos Hlt d a' b'. subst d a' b'.
  assert (Hm : 0 <= ballRadius * 2) by (unfold ballRadius; lra).
  assert (Hsep := separation_distance (x a) (y a) (x b) (y b) (ballRadius * 2)).
  cbv zeta in Hsep. fold (centreDistance a b) in Hsep.
  specialize (Hsep Hpos Hm).
  unfold resolveBallCollision. fold (centreDistance a b).
  assert (E0 : JS.eq (centreDistance a b) 0 = false) by (apply eq_false; lra).
  assert (E1 : JS.lt (centreDistance a b) (ballRadius * 2) = true)
    by (apply lt_true; exact Hlt).
  rewrite E0, E1. cbv zeta.
  destruct (JS.gt _ 0); cbn [fst snd setPos setVel setRotation x y];
    (repeat split; try reflexivity); unfold centreDistance at 1; cbn [x y];
    exact Hsep.
Qed.

Lemma resolve_coincident_v2 ra rb a b :
  centreDistance a b = 0 ->
  let a' := fst (resolveBallCollision ra rb a b) in
  let b' := snd (resolveBallCollision ra rb a b) in
  x a' = x a /\ y a' = y a /\ x b' = x b /\ y b' = y b
  /\ vx a' = vx a /\ vy a' = vy a /\ vx b' = vx b /\ vy b' = vy b.
Proof.
  intros Hz a' b'. subst a' b'.
  unfold centreDistance in Hz.
  destruct (proj1 (hypot_zero_iff _ _) Hz) as [Hdx Hdy].
  unfold resolveBallCollision. rewrite Hz, Hdx, Hdy.
  assert (E0 : JS.eq 0 0 = true) by (apply eq_true; reflexivity).
  assert (E1 : JS.lt 0.01 (ballRadius * 2) = true)
    by (apply lt_true; unfold ballRadius; lra).
  rewrite E0, E1. cbv zeta.
  destruct (JS.gt _ 0); cbn [fst snd setPos setVel setRotation x y vx vy];
    repeat split; unfold Rdiv; ring.
Qed.

Lemma resolve_impulse_v2 ra rb a b :
  let a' := fst (resolveBallCollision ra rb a b) in
  let b' := snd (resolveBallCollision ra rb a b) in
  exists j : R,
    vx a' = vx a - j * fst (collisionNormal a b)
    /\ vy a' = vy a - j * snd (collisionNormal a b)
    /\ vx b' = vx b + j * fst (collisionNormal a b)
    /\ vy b' = vy b + j * snd (collisionNormal a b).
Proof.
  intros a' b'. subst a' b'.
  unfold resolveBallCollision, collisionNormal. cbv zeta.
  destruct (JS.eq _ 0); destruct (JS.lt _ (ballRadius * 2));
    try (exists 0; cbn; repeat split; ring);
    (destruct (JS.gt _ 0);
     [ exists 0; cbn; repeat split; ring
     | eexists; cbn [fst snd setPos setVel setRotation vx vy];
       repeat split; reflexivity ]).
Qed.

End SpatialPairs.

Lemma sqrt_axis (a : R) : 0 <= a -> sqrt (a * a + 0 * 0) = a.
Proof. intros Ha. replace (a * a + 0 * 0) with (a * a) by ring. apply sqrt_square, Ha. Qed.

Lemma stacked_distance_v1 : Portfolio.centreDistance stackedA stackedB = 0.
Proof.
  unfold Portfolio.centreDistance, stackedA, stackedB. cbn.
  replace ((50 - 50) * (50 - 50) + (50 - 50) * (50 - 50)) with 0 by ring.
  apply sqrt_0.
Qed.

Lemma stacked_distance_v2 : Spatial.centreDistance stackedA2 stackedB2 = 0.
Proof.
  unfold Spatial.centreDistance, stackedA2, stackedB2. cbn.
  replace ((50 - 50) * (50 - 50) + (50 - 50) * (50 - 50)) with 0 by ring.
  apply sqrt_0.
Qed.

Lemma near_distance_v1 : Portfolio.centreDistance nearA nearB = 12.
Proof.
  unfold Portfolio.centreDistance, nearA, nearB. cbn.
  replace ((12 - 0) * (12 - 0) + (0 - 0) * (0 - 0)) with (12 * 12 + 0 * 0) by ring.
  apply sqrt_axis. lra.
Qed.

Lemma near_distance_v2 : Spatial.centreDistance nearA2 nearB2 = 12.
Proof.
  unfold Spatial.centreDistance, nearA2, nearB2. cbn.
  replace ((12 - 0) * (12 - 0) + (0 - 0) * (0 - 0)) with (12 * 12 + 0 * 0) by ring.
  apply sqrt_axis. lra.
Qed.

(** C3, as stated, fails where the centres coincide: the guard only
    replaces the distance by 0.01, the normal is the zero vector, and the
    two balls stay on the same spot instead of ending one diameter apart. *)
Lemma C3_coincident_centres_not_separated :
  Portfolio.centreDistance stackedA stackedB = 0
  /\ Portfolio.centreDistance
       (fst (Portfolio.resolveBallCollision stackedA stackedB))
       (snd (Portfolio.resolveBallCollision stackedA stackedB))
     <> Portfolio.ballRadius * 2.
Proof.
  split; [exact stacked_distance_v1 |].
  destruct (PortfolioPairs.resolve_coincident_v1 stackedA stackedB stacked_distance_v1)
    as (Hxa & Hya & Hxb & Hyb & _).
  unfold Portfolio.centreDistance at 1. rewrite Hxa, Hya, Hxb, Hyb.
  fold (Portfolio.centreDistance stackedA stackedB).
  rewrite stacked_distance_v1. unfold Portfolio.ballRadius. lra.
Qed.

(** C3 (amended).  In both variants, two balls whose centres are a
    positive distance [d] below one diameter apart are each moved by half
    the overlap along the line of centres, in opposite directions, and end
    exactly one diameter apart.  When the centres coincide the distance is
    replaced by 0.01, no division by zero occurs, and neither position nor
    velocity changes. *)
Theorem C3_overlap_pushed_to_contact :
  (forall a b,
      0 < Portfolio.centreDistance a b ->
      Portfolio.centreDistance a b < Portfolio.ballRadius * 2 ->
      let d := Portfolio.centreDistance a b in
      let half := (Portfolio.ballRadius * 2 - d) / 2 in
      let a' := fst (Portfolio.resolveBallCollision a b) in
      let b' := snd (Portfolio.resolveBallCollision a b) in
      Portfolio.x a' = Portfolio.x a - (Portfolio.x b - Portfolio.x a) / d * half
      /\ Portfolio.y a' = Portfolio.y a - (Portfolio.y b - Portfolio.y a) / d * half
      /\ Portfolio.x b' = Portfolio.x b + (Portfolio.x b - Portfolio.x a) / d * half
      /\ Portfolio.y b' = Portfolio.y b + (Portfolio.y b - Portfolio.y a) / d * half
      /\ Portfolio.centreDistance a' b' = Portfolio.ballRadius * 2)
  /\
  (forall a b,
      Portfolio.centreDistance a b = 0 ->
      let a' := fst (Portfolio.resolveBallCollision a b) in
      let b' := snd (Portfolio.resolveBallCollision a b) in
      Portfolio.x a' = Portfolio.x a /\ Portfolio.y a' = Portfolio.y a
      /\ Portfolio.x b' = Portfolio.x b /\ Portfolio.y b' = Portfolio.y b
      /\ Portfolio.vx a' = Portfolio.vx a /\ Portfolio.vy a' = Portfolio.vy a
      /\ Portfolio.vx b' = Portfolio.vx b /\ Portfolio.vy b' = Portfolio.vy b)
  /\
  (forall ra rb a b,
      0 < Spatial.centreDistance a b ->
      Spatial.centreDistance a b < Spatial.ballRadius * 2 ->
      let d := Spatial.centreDistance a b in
      let half := (Spatial.ballRadius * 2 - d) / 2 in
      let a' := fst (Spatial.resolveBallCollision ra rb a b) in
      let b' := snd (Spatial.resolveBallCollision ra rb a b) in
      Spatial.x a' = Spatial.x a - (Spatial.x b - Spatial.x a) / d * half
      /\ Spatial.y a' = Spatial.y a - (Spatial.y b - Spatial.y a) / d * half
      /\ Spatial.x b' = Spatial.x b + (Spatial.x b - Spatial.x a) / d * half
      /\ Spatial.y b' = Spatial.y b + (Spatial.y b - Spatial.y a) / d * half
      /\ Spatial.centreDistance a' b' = Spatial.ballRadius * 2)
  /\
  (forall ra rb a b,
      Spatial.centreDistance a b = 0 ->
      let a' := fst (Spatial.resolveBallCollision ra rb a b) in
      let b' := snd (Spatial.resolveBallCollision ra rb a b) in
      Spatial.x a' = Spatial.x a /\ Spatial.y a' = Spatial.y a
      /\ Spatial.x b' = Spatial.x b /\ Spatial.y b' = Spatial.y b
      /\ Spatial.vx a' = Spatial.vx a /\ Spatial.vy a' = Spatial.vy a
      /\ Spatial.vx b' = Spatial.vx b /\ Spatial.vy b' = Spatial.vy b).
Proof.
  split; [| split; [| split]].
  - intros a b H1 H2. apply (PortfolioPairs.resolve_separates_v1 a b H1 H2).
  - intros a b H. apply (PortfolioPairs.resolve_coincident_v1 a b H).
  - intros ra rb a b H1 H2. apply (SpatialPairs.resolve_separates_v2 ra rb a b H1 H2).
  - intros ra rb a b H. apply (SpatialPairs.resolve_coincident_v2 ra rb a b H).
Qed.

(** Two balls 12 apart end 20 (24) apart; two stacked balls stay put. *)
Lemma C3_overlap_witness :
  (Portfolio.centreDistance nearA nearB = 12
   /\ Portfolio.centreDistance
        (fst (Portfolio.resolveBallCollision nearA nearB))
        (snd (Portfolio.resolveBallCollision nearA nearB)) = Portfolio.ballRadius * 2)
  /\ (Portfolio.centreDistance stackedA stackedB = 0
      /\ Portfolio.x (fst (Portfolio.resolveBallCollision stackedA stackedB))
         = Portfolio.x stackedA)
  /\ (Spatial.centreDistance nearA2 nearB2 = 12
      /\ Spatial.centreDistance
           (fst (Spatial.resolveBallCollision 0.5 0.5 nearA2 nearB2))
           (snd (Spatial.resolveBallCollision 0.5 0.5 nearA2 nearB2))
         = Spatial.ballRadius * 2)
  /\ (Spatial.centreDistance stackedA2 stackedB2 = 0
      /\ Spatial.x (fst (Spatial.resolveBallCollision 0.5 0.5 stackedA2 stackedB2))
         = Spatial.x stackedA2).
Proof.
  destruct C3_overlap_pushed_to_contact as (H1 & H2 & H3 & H4).
  split; [| split; [| split]].
  - split; [exact near_distance_v1 |].
    apply (H1 nearA nearB); rewrite near_distance_v1;
      unfold Portfolio.ballRadius; lra.
  - split; [exact stacked_distance_v1 |].
    apply (H2 stackedA stackedB stacked_distance_v1).
  - split; [exact near_distance_v2 |].
    apply (H3 0.5 0.5 nearA2 nearB2); rewrite near_distance_v2;
      unfold Spatial.ballRadius; lra.
  - split; [exact stacked_distance_v2 |].
    apply (H4 0.5 0.5 stackedA2 stackedB2 stacked_distance_v2).
Defined.

(** C10 (amended).  In exact arithmetic, in both variants,
    [resolveBallCollision] changes the two velocities by opposite
    multiples of the collision normal, so the sums [vx_a + vx_b] and
    [vy_a + vy_b] are the same before and after, for every pair
    (overlapping or not, approaching or separating). *)
Theorem C10_impulse_preserves_momentum :
  (forall a b,
      let a' := fst (Portfolio.resolveBallCollision a b) in
      let b' := snd (Portfolio.resolveBallCollision a b) in
      Portfolio.vx a' + Portfolio.vx b' = Portfolio.vx a + Portfolio.vx b
      /\ Portfolio.vy a' + Portfolio.vy b' = Portfolio.vy a + Portfolio.vy b
      /\ exists j : R,
          Portfolio.vx a' = Portfolio.vx a - j * fst (Portfolio.collisionNormal a b)
          /\ Portfolio.vy a' = Portfolio.vy a - j * snd (Portfolio.collisionNormal a b)
          /\ Portfolio.vx b' = Portfolio.vx b + j * fst (Portfolio.collisionNormal a b)
          /\ Portfolio.vy b' = Portfolio.vy b + j * snd (Portfolio.collisionNormal a b))
  /\
  (forall ra rb a b,
      let a' := fst (Spatial.resolveBallCollision ra rb a b) in
      let b' := snd (Spatial.resolveBallCollision ra rb a b) in
      Spatial.vx a' + Spatial.vx b' = Spatial.vx a + Spatial.vx b
      /\ Spatial.vy a' + Spatial.vy b' = Spatial.vy a + Spatial.vy b
      /\ exists j : R,
          Spatial.vx a' = Spatial.vx a - j * fst (Spatial.collisionNormal a b)
          /\ Spatial.vy a' = Spatial.vy a - j * snd (Spatial.collisionNormal a b)
          /\ Spatial.vx b' = Spatial.vx b + j * fst (Spatial.collisionNormal a b)
          /\ Spatial.vy b' = Spatial.vy b + j * snd (Spatial.collisionNormal a b)).
Proof.
  split.
  - intros a b a' b'.
    destruct (PortfolioPairs.resolve_impulse_v1 a b) as (j & H1 & H2 & H3 & H4).
    fold a' in H1, H2. fold b' in H3, H4.
    split; [rewrite H1, H3; ring |].
    split; [rewrite H2, H4; ring |].
    exists j. auto.
  - intros ra rb a b a' b'.
    destruct (SpatialPairs.resolve_impulse_v2 ra rb a b) as (j & H1 & H2 & H3 & H4).
    fold a' in H1, H2. fold b' in H3, H4.
    split; [rewrite H1, H3; ring |].
    split; [rewrite H2, H4; ring |].
    exists j. auto.
Qed.

(** C10, as stated, fails in the script's doubles.  The two updates
    [a.vx -= ix] and [b.vx += ix] use the same [ix] but are rounded one
    by one: for the balls at (0, 0) and (3, 8) of variant 1 with
    velocities (1, 0) and (-2, -1), and for the balls at (0, 0) and
    (3, 4) of variant 2 with velocities (1, 0) and (-2, 0), the impulse
    is applied and [vx_a + vx_b] goes from -1 to -0.9999999999999999. *)
Lemma C10_sums_change_in_doubles :
  (Doubles.sameVelocity
     (fst (Doubles.resolveBallCollision Doubles.portfolio
                                        Doubles.leftBall Doubles.rightBall1))
     Doubles.leftBall = false
   /\ Doubles.same
        (Doubles.sumVx (Doubles.resolveBallCollision Doubles.portfolio
                                                     Doubles.leftBall Doubles.rightBall1))
        (Doubles.sumVx (Doubles.leftBall, Doubles.rightBall1)) = false)
  /\ (Doubles.sameVelocity
        (fst (Doubles.resolveBallCollision Doubles.spatial
                                           Doubles.leftBall Doubles.rightBall2))
        Doubles.leftBall = false
      /\ Doubles.same
           (Doubles.sumVx (Doubles.resolveBallCollision Doubles.spatial
                                                        Doubles.leftBall Doubles.rightBall2))
           (Doubles.sumVx (Doubles.leftBall, Doubles.rightBall2)) = false).
Proof. repeat split; vm_compute; reflexivity. Qed.

(** ** Ball against rectangle *)

(** Decides every comparison of the goal on concrete numbers; [unf]
    unfolds the constants involved. *)
Ltac decide_cmp unf :=
  repeat match goal with
         | |- context [JS.lt ?a ?b] =>
             first [ rewrite (proj2 (lt_true a b)) by (unf; lra)
                   | rewrite (proj2 (lt_false a b)) by (unf; lra) ]
         | |- context [JS.gt ?a ?b] =>
             first [ rewrite (proj2 (gt_true a b)) by (unf; lra)
                   | rewrite (proj2 (gt_false a b)) by (unf; lra) ]
         | |- context [JS.eq ?a ?b] =>
             first [ rewrite (proj2 (eq_true a b)) by (unf; lra)
                   | rewrite (proj2 (eq_false a b)) by (unf; lra) ]
         end.

Ltac decide_min :=
  unfold Rmin; repeat (destruct (Rle_dec _ _)); try lra.

Module PortfolioRect.
Import Portfolio.

Lemma rect_axis_choice_v1 b obs :
  otype obs = rect -> overlaps b obs = true ->
  let b' := snd (checkRectCollision b obs) in
  (minOverlapX b obs < minOverlapY b obs ->
   y b' = y b /\ vy b' = vy b
   /\ x b' = if JS.lt (overlapLeft b obs) (overlapRight b obs)
             then left obs - ballRadius else right obs + ballRadius)
  /\ (minOverlapY b obs <= minOverlapX b obs ->
      x b' = x b /\ vx b' = vx b
      /\ y b' = if JS.lt (overlapTop b obs) (overlapBottom b obs)
                then top obs - ballRadius else bottom obs + ballRadius).
Proof.
  intros Ht Hov b'. subst b'. unfold checkRectCollision. rewrite Ht, Hov.
  cbn [isRect negb].
  destruct (JS.lt (minOverlapX b obs) (minOverlapY b obs)) eqn:Eaxis;
    reflect_guards; split; intros Hcmp; try lra.
  - destruct (JS.lt (overlapLeft b obs) (overlapRight b obs)); cbn; auto.
  - destruct (JS.lt (overlapTop b obs) (overlapBottom b obs)); cbn; auto.
Qed.

End PortfolioRect.

Module SpatialRect.
Import Spatial.

Lemma rect_axis_choice_v2 b o :
  overlaps b o = true ->
  let b' := snd (checkRectCollision b (RectObstacle o)) in
  (minOverlapX b o < minOverlapY b o ->
   y b' = y b /\ vy b' = vy b
   /\ x b' = if JS.lt (overlapLeft b o) (overlapRight b o)
             then left o - ballRadius else right o + ballRadius)
  /\ (minOverlapY b o <= minOverlapX b o ->
      x b' = x b /\ vx b' = vx b
      /\ y b' = if JS.lt (overlapTop b o) (overlapBottom b o)
                then top o - ballRadius else bottom o + ballRadius).
Proof.
  intros Hov b'. subst b'. unfold checkRectCollision. rewrite Hov.
  destruct (JS.lt (minOverlapX b o) (minOverlapY b o)) eqn:Eaxis;
    reflect_guards; split; intros Hcmp; try lra.
  - destruct (JS.lt (overlapLeft b o) (overlapRight b o)); cbn; auto.
  - destruct (JS.lt (overlapTop b o) (overlapBottom b o)); cbn; auto.
Qed.

End SpatialRect.

Ltac unfold_v1 :=
  unfold Portfolio.ballRadius, Portfolio.bounceFactor, Portfolio.stopVelocity,
    Portfolio.maxVelocity, Portfolio.gravity, Portfolio.airResistance,
    Portfolio.ballBounceFactor in *.

Ltac unfold_v2 :=
  unfold Spatial.ballRadius, Spatial.bounceFactor, Spatial.stopVelocity,
    Spatial.maxVelocity, Spatial.gravity, Spatial.airResistance,
    Spatial.ballBounceFactor, Spatial.magneticRadius, Spatial.magneticStrength,
    Spatial.obstacleCacheDuration in *.

Lemma cornerBall_overlaps : Portfolio.overlaps cornerBall box = true.
Proof.
  unfold Portfolio.overlaps, cornerBall, box. cbn.
  decide_cmp unfold_v1. reflexivity.
Qed.

Lemma cornerBall_tie :
  Portfolio.minOverlapX cornerBall box = Portfolio.minOverlapY cornerBall box.
Proof. reflexivity. Qed.

Lemma cornerBall_top_first :
  JS.lt (Portfolio.overlapTop cornerBall box) (Portfolio.overlapBottom cornerBall box) = true.
Proof.
  unfold Portfolio.overlapTop, Portfolio.overlapBottom, cornerBall, box. cbn.
  decide_cmp unfold_v1. reflexivity.
Qed.

Lemma cornerBall2_overlaps : Spatial.overlaps cornerBall2 box2 = true.
Proof.
  unfold Spatial.overlaps, cornerBall2, box2. cbn.
  decide_cmp unfold_v2. reflexivity.
Qed.

Lemma sideBall_overlaps : Portfolio.overlaps sideBall box = true.
Proof.
  unfold Portfolio.overlaps, sideBall, box. cbn.
  decide_cmp unfold_v1. reflexivity.
Qed.

Lemma sideBall_x_first :
  Portfolio.minOverlapX sideBall box < Portfolio.minOverlapY sideBall box.
Proof.
  unfold Portfolio.minOverlapX, Portfolio.minOverlapY, Portfolio.overlapLeft,
    Portfolio.overlapRight, Portfolio.overlapTop, Portfolio.overlapBottom,
    sideBall, box. cbn. unfold_v1. decide_min.
Qed.

Lemma sideBall2_overlaps : Spatial.overlaps sideBall2 box2 = true.
Proof.
  unfold Spatial.overlaps, sideBall2, box2. cbn.
  decide_cmp unfold_v2. reflexivity.
Qed.

Lemma sideBall2_x_first :
  Spatial.minOverlapX sideBall2 box2 < Spatial.minOverlapY sideBall2 box2.
Proof.
  unfold Spatial.minOverlapX, Spatial.minOverlapY, Spatial.overlapLeft,
    Spatial.overlapRight, Spatial.overlapTop, Spatial.overlapBottom,
    sideBall2, box2. cbn. unfold_v2. decide_min.
Qed.

(** C4, as stated, fails on a tie: with both minimum penetrations equal
    to 5 the ball keeps its [x] and is moved along Y, flush to the top
    edge. *)
Lemma C4_tie_resolves_along_y :
  Portfolio.overlaps cornerBall box = true
  /\ Portfolio.minOverlapX cornerBall box = Portfolio.minOverlapY cornerBall box
  /\ Portfolio.x (snd (Portfolio.checkRectCollision cornerBall box))
     = Portfolio.x cornerBall
  /\ Portfolio.y (snd (Portfolio.checkRectCollision cornerBall box)) = -10
  /\ Portfolio.y cornerBall = -5.
Proof.
  split; [exact cornerBall_overlaps |]. split; [exact cornerBall_tie |].
  destruct (PortfolioRect.rect_axis_choice_v1 cornerBall box eq_refl cornerBall_overlaps)
    as [_ Hy].
  destruct Hy as (Hx & _ & Hy); [rewrite cornerBall_tie; lra |].
  split; [exact Hx |]. split; [| reflexivity].
  rewrite Hy, cornerBall_top_first. cbn. unfold_v1. lra.
Qed.

(** C4 (amended).  For every overlapping ball and rectangle, in both
    variants: when the minimum horizontal penetration is strictly smaller
    than the minimum vertical one the ball is put flush to the left or
    right edge and keeps its [y]; otherwise, ties included, it is put
    flush to the top or bottom edge and keeps its [x] (Y wins ties). *)
Theorem C4_axis_of_least_penetration :
  (forall b obs,
      Portfolio.otype obs = rect -> Portfolio.overlaps b obs = true ->
      let b' := snd (Portfolio.checkRectCollision b obs) in
      (Portfolio.minOverlapX b obs < Portfolio.minOverlapY b obs ->
       Portfolio.y b' = Portfolio.y b /\ Portfolio.vy b' = Portfolio.vy b
       /\ Portfolio.x b'
          = if JS.lt (Portfolio.overlapLeft b obs) (Portfolio.overlapRight b obs)
            then Portfolio.left obs - Portfolio.ballRadius
            else Portfolio.right obs + Portfolio.ballRadius)
      /\ (Portfolio.minOverlapY b obs <= Portfolio.minOverlapX b obs ->
          Portfolio.x b' = Portfolio.x b /\ Portfolio.vx b' = Portfolio.vx b
          /\ Portfolio.y b'
             = if JS.lt (Portfolio.overlapTop b obs) (Portfolio.overlapBottom b obs)
               then Portfolio.top obs - Portfolio.ballRadius
               else Portfolio.bottom obs + Portfolio.ballRadius))
  /\
  (forall b o,
      Spatial.overlaps b o = true ->
      let b' := snd (Spatial.checkRectCollision b (Spatial.RectObstacle o)) in
      (Spatial.minOverlapX b o < Spatial.minOverlapY b o ->
       Spatial.y b' = Spatial.y b /\ Spatial.vy b' = Spatial.vy b
       /\ Spatial.x b'
          = if JS.lt (Spatial.overlapLeft b o) (Spatial.overlapRight b o)
            then Spatial.left o - Spatial.ballRadius
            else Spatial.right o + Spatial.ballRadius)
      /\ (Spatial.minOverlapY b o <= Spatial.minOverlapX b o ->
          Spatial.x b' = Spatial.x b /\ Spatial.vx b' = Spatial.vx b
          /\ Spatial.y b'
             = if JS.lt (Spatial.overlapTop b o) (Spatial.overlapBottom b o)
               then Spatial.top o - Spatial.ballRadius
               else Spatial.bottom o + Spatial.ballRadius)).
Proof.
  split.
  - intros b obs Ht Hov. apply (PortfolioRect.rect_axis_choice_v1 b obs Ht Hov).
  - intros b o Hov. apply (SpatialRect.rect_axis_choice_v2 b o Hov).
Qed.

(** The side ball is moved along X, the corner ball (a tie) along Y. *)
Lemma C4_axis_witness :
  (Portfolio.y (snd (Portfolio.checkRectCollision sideBall box)) = Portfolio.y sideBall
   /\ Portfolio.x (snd (Portfolio.checkRectCollision cornerBall box))
      = Portfolio.x cornerBall)
  /\
  (Spatial.y (snd (Spatial.checkRectCollision sideBall2 (Spatial.RectObstacle box2)))
   = Spatial.y sideBall2
   /\ Spatial.x (snd (Spatial.checkRectCollision cornerBall2 (Spatial.RectObstacle box2)))
      = Spatial.x cornerBall2).
Proof.
  destruct C4_axis_of_least_penetration as [H1 H2].
  split; split.
  - apply (H1 sideBall box eq_refl sideBall_overlaps). exact sideBall_x_first.
  - apply (H1 cornerBall box eq_refl cornerBall_overlaps).
    rewrite cornerBall_tie. apply Rle_refl.
  - apply (H2 sideBall2 box2 sideBall2_overlaps). exact sideBall2_x_first.
  - apply (H2 cornerBall2 box2 cornerBall2_overlaps).
    apply Req_le. reflexivity.
Defined.

(** ** The obstacle provider *)

Lemma inset_width_floor (w : R) : 6 <= w -> 5.04 <= w - 2 * Rmin 10 (w * 0.08).
Proof. intros Hw. pose proof (Rmin_r 10 (w * 0.08)). lra. Qed.

Lemma inset_height_floor (h : R) : 6 <= h -> 4.56 <= h - 2 * Rmin 10 (h * 0.12).
Proof. intros Hh. pose proof (Rmin_r 10 (h * 0.12)). lra. Qed.

Module PortfolioObstacles.
Import Portfolio.

(** The inset bounds of a flagged element, in document coordinates. *)
Lemma obstacleOf_kept_v1 sy r :
  6 <= rect_width r -> 6 <= rect_height r ->
  obstacleOf sy r
  = Some (mkObstacle rect
            (rect_left r + Rmin 10 (rect_width r * 0.08))
            (rect_right r - Rmin 10 (rect_width r * 0.08))
            (rect_top r + sy + Rmin 10 (rect_height r * 0.12))
            (rect_bottom r + sy - Rmin 10 (rect_height r * 0.12))).
Proof.
  intros Hw Hh. unfold obstacleOf.
  rewrite (proj2 (lt_false (rect_width r) 6)) by exact Hw.
  rewrite (proj2 (lt_false (rect_height r) 6)) by exact Hh.
  cbn [orb]. cbv zeta.
  pose proof (inset_width_floor _ Hw). pose proof (inset_height_floor _ Hh).
  unfold rect_right, rect_bottom in *.
  rewrite (proj2 (lt_false _ 4)) by lra.
  rewrite (proj2 (lt_false _ 4)) by lra.
  reflexivity.
Qed.

Lemma obstacleOf_dropped_v1 sy r :
  rect_width r < 6 \/ rect_height r < 6 -> obstacleOf sy r = None.
Proof.
  intros H. unfold obstacleOf.
  destruct (JS.lt (rect_width r) 6) eqn:Ew; [reflexivity |].
  destruct (JS.lt (rect_height r) 6) eqn:Eh; [reflexivity |].
  reflect_guards. lra.
Qed.

Lemma getObstacles_spec_v1 sy els o :
  In o (getObstacles sy els) <->
  exists r, In r els /\ 6 <= rect_width r /\ 6 <= rect_height r
            /\ o = mkObstacle rect
                     (rect_left r + Rmin 10 (rect_width r * 0.08))
                     (rect_right r - Rmin 10 (rect_width r * 0.08))
                     (rect_top r + sy + Rmin 10 (rect_height r * 0.12))
                     (rect_bottom r + sy - Rmin 10 (rect_height r * 0.12)).
Proof.
  unfold getObstacles. rewrite in_flat_map. split.
  - intros (r & Hin & Ho). exists r. split; [exact Hin |].
    destruct (Rlt_le_dec (rect_width r) 6) as [Hw | Hw];
      [rewrite obstacleOf_dropped_v1 in Ho by auto; destruct Ho |].
    destruct (Rlt_le_dec (rect_height r) 6) as [Hh | Hh];
      [rewrite obstacleOf_dropped_v1 in Ho by auto; destruct Ho |].
    rewrite (obstacleOf_kept_v1 sy r Hw Hh) in Ho.
    destruct Ho as [Ho | []]. auto.
  - intros (r & Hin & Hw & Hh & ->). exists r. split; [exact Hin |].
    rewrite (obstacleOf_kept_v1 sy r Hw Hh). left. reflexivity.
Qed.

End PortfolioObstacles.

Module SpatialObstacles.
Import Spatial.

Lemma obstacleOf_kept_v2 r :
  6 <= rect_width r -> 6 <= rect_height r ->
  obstacleOf r
  = Some (RectObstacle
            (mkBounds (rect_left r + Rmin 10 (rect_width r * 0.08))
                      (rect_right r - Rmin 10 (rect_width r * 0.08))
                      (rect_top r + Rmin 10 (rect_height r * 0.12))
                      (rect_bottom r - Rmin 10 (rect_height r * 0.12)))).
Proof.
  intros Hw Hh. unfold obstacleOf.
  rewrite (proj2 (lt_false (rect_width r) 6)) by exact Hw.
  rewrite (proj2 (lt_false (rect_height r) 6)) by exact Hh.
  cbn [orb]. cbv zeta.
  pose proof (inset_width_floor _ Hw). pose proof (inset_height_floor _ Hh).
  unfold rect_right, rect_bottom in *.
  rewrite (proj2 (lt_false _ 4)) by lra.
  rewrite (proj2 (lt_false _ 4)) by lra.
  reflexivity.
Qed.

Lemma obstacleOf_dropped_v2 r :
  rect_width r < 6 \/ rect_height r < 6 -> obstacleOf r = None.
Proof.
  intros H. unfold obstacleOf.
  destruct (JS.lt (rect_width r) 6) eqn:Ew; [reflexivity |].
  destruct (JS.lt (rect_height r) 6) eqn:Eh; [reflexivity |].
  reflect_guards. lra.
Qed.

Lemma rectObstacles_spec_v2 els o :
  In o (rectObstacles els) <->
  exists r, In r els /\ 6 <= rect_width r /\ 6 <= rect_height r
            /\ o = RectObstacle
                     (mkBounds (rect_left r + Rmin 10 (rect_width r * 0.08))
                               (rect_right r - Rmin 10 (rect_width r * 0.08))
                               (rect_top r + Rmin 10 (rect_height r * 0.12))
                               (rect_bottom r - Rmin 10 (rect_height r * 0.12))).
Proof.
  unfold rectObstacles. rewrite in_flat_map. split.
  - intros (r & Hin & Ho). exists r. split; [exact Hin |].
    destruct (Rlt_le_dec (rect_width r) 6) as [Hw | Hw];
      [rewrite obstacleOf_dropped_v2 in Ho by auto; destruct Ho |].
    destruct (Rlt_le_dec (rect_height r) 6) as [Hh | Hh];
      [rewrite obstacleOf_dropped_v2 in Ho by auto; destruct Ho |].
    rewrite (obstacleOf_kept_v2 r Hw Hh) in Ho.
    destruct Ho as [Ho | []]. auto.
  - intros (r & Hin & Hw & Hh & ->). exists r. split; [exact Hin |].
    rewrite (obstacleOf_kept_v2 r Hw Hh). left. reflexivity.
Qed.

End SpatialObstacles.

Lemma narrowBox_kept :
  Portfolio.obstacleOf 0 narrowBox
  = Some (Portfolio.mkObstacle rect (0 + Rmin 10 (6 * 0.08)) (0 + 6 - Rmin 10 (6 * 0.08))
                               (0 + 0 + Rmin 10 (100 * 0.12))
                               (0 + 100 + 0 - Rmin 10 (100 * 0.12))).
Proof.
  apply (PortfolioObstacles.obstacleOf_kept_v1 0 narrowBox); cbn; lra.
Qed.

Lemma lowBox_kept :
  Portfolio.obstacleOf 0 lowBox
  = Some (Portfolio.mkObstacle rect (0 + Rmin 10 (100 * 0.08)) (0 + 100 - Rmin 10 (100 * 0.08))
                               (0 + 0 + Rmin 10 (6 * 0.12))
                               (0 + 6 + 0 - Rmin 10 (6 * 0.12))).
Proof.
  apply (PortfolioObstacles.obstacleOf_kept_v1 0 lowBox); cbn; lra.
Qed.

(** C9, as stated, fails on the width floor: a flagged element 6px wide
    and 100px high is not discarded, and the obstacle returned for it is
    narrower than 6px after the inset (5.04px, less than 5.1px). *)
Lemma C9_returned_below_six :
  exists o, In o (Portfolio.getObstacles 0 [narrowBox])
            /\ Portfolio.right o - Portfolio.left o < 5.1.
Proof.
  eexists. split.
  - unfold Portfolio.getObstacles. cbn [flat_map]. rewrite narrowBox_kept.
    left. reflexivity.
  - cbn. decide_min.
Qed.

(** C9 (amended).  In both variants the rectangular obstacles returned
    are exactly the boxes of the flagged elements that are at least 6px
    wide and 6px high before the inset, each inset by [min(10, 8% width)]
    on the left and right and by [min(10, 12% height)] on the top and
    bottom; every element below 6px in width or height is discarded.  A
    returned obstacle is more than 5px wide and 4.5px high after the
    inset (the smallest are 5.04px and 4.56px in exact arithmetic, a last
    digit off in doubles), so the 4px test after the inset discards
    nothing. *)
Theorem C9_obstacles_inset_and_floor :
  (forall sy els o,
      In o (Portfolio.getObstacles sy els) <->
      exists r, In r els /\ 6 <= rect_width r /\ 6 <= rect_height r
                /\ o = Portfolio.mkObstacle rect
                         (rect_left r + Rmin 10 (rect_width r * 0.08))
                         (rect_right r - Rmin 10 (rect_width r * 0.08))
                         (rect_top r + sy + Rmin 10 (rect_height r * 0.12))
                         (rect_bottom r + sy - Rmin 10 (rect_height r * 0.12)))
  /\ (forall sy els o,
         In o (Portfolio.getObstacles sy els) ->
         5 < Portfolio.right o - Portfolio.left o
         /\ 4.5 < Portfolio.bottom o - Portfolio.top o)
  /\ (forall els o,
         In o (Spatial.rectObstacles els) <->
         exists r, In r els /\ 6 <= rect_width r /\ 6 <= rect_height r
                   /\ o = Spatial.RectObstacle
                            (Spatial.mkBounds
                               (rect_left r + Rmin 10 (rect_width r * 0.08))
                               (rect_right r - Rmin 10 (rect_width r * 0.08))
                               (rect_top r + Rmin 10 (rect_height r * 0.12))
                               (rect_bottom r - Rmin 10 (rect_height r * 0.12))))
  /\ (forall els o,
         In o (Spatial.rectObstacles els) ->
         exists bounds, o = Spatial.RectObstacle bounds
                        /\ 5 < Spatial.right bounds - Spatial.left bounds
                        /\ 4.5 < Spatial.bottom bounds - Spatial.top bounds).
Proof.
  split; [| split; [| split]].
  - apply PortfolioObstacles.getObstacles_spec_v1.
  - intros sy els o Hin.
    apply PortfolioObstacles.getObstacles_spec_v1 in Hin.
    destruct Hin as (r & _ & Hw & Hh & ->). cbn.
    pose proof (inset_width_floor _ Hw). pose proof (inset_height_floor _ Hh).
    unfold rect_right, rect_bottom. lra.
  - apply SpatialObstacles.rectObstacles_spec_v2.
  - intros els o Hin.
    apply SpatialObstacles.rectObstacles_spec_v2 in Hin.
    destruct Hin as (r & _ & Hw & Hh & ->). eexists. split; [reflexivity |]. cbn.
    pose proof (inset_width_floor _ Hw). pose proof (inset_height_floor _ Hh).
    unfold rect_right, rect_bottom. lra.
Qed.

(** A 200 by 50 element yields one obstacle, inset by 10 and by 6. *)
Lemma C9_obstacles_witness :
  (In (Portfolio.mkObstacle rect (0 + Rmin 10 (200 * 0.08)) (0 + 200 - Rmin 10 (200 * 0.08))
                            (0 + 0 + Rmin 10 (50 * 0.12)) (0 + 50 + 0 - Rmin 10 (50 * 0.12)))
      (Portfolio.getObstacles 0 [roomyBox])
   /\ 5 < (0 + 200 - Rmin 10 (200 * 0.08)) - (0 + Rmin 10 (200 * 0.08)))
  /\ In (Spatial.RectObstacle
           (Spatial.mkBounds (0 + Rmin 10 (200 * 0.08)) (0 + 200 - Rmin 10 (200 * 0.08))
                             (0 + Rmin 10 (50 * 0.12)) (0 + 50 - Rmin 10 (50 * 0.12))))
        (Spatial.rectObstacles [roomyBox]).
Proof.
  destruct C9_obstacles_inset_and_floor as (H1 & H2 & H3 & H4).
  assert (Hin : In (Portfolio.mkObstacle rect (0 + Rmin 10 (200 * 0.08))
                      (0 + 200 - Rmin 10 (200 * 0.08))
                      (0 + 0 + Rmin 10 (50 * 0.12)) (0 + 50 + 0 - Rmin 10 (50 * 0.12)))
                   (Portfolio.getObstacles 0 [roomyBox])).
  { apply (H1 0 [roomyBox]). exists roomyBox.
    split; [left; reflexivity |]. cbn. split; [lra |]. split; [lra | reflexivity]. }
  split; [split; [exact Hin | apply (H2 0 [roomyBox] _ Hin)] |].
  apply (H3 [roomyBox]). exists roomyBox.
  split; [left; reflexivity |]. cbn. split; [lra |]. split; [lra | reflexivity].
Defined.

(** ** Ball against mask *)


Module SpatialMask.
Import Spatial.





End SpatialMask.

Lemma onePixel_sample (local extent : R) : Spatial.samplePixel local extent 1 = 0%Z.
Proof. unfold Spatial.samplePixel, Spatial.clampIndex. lia. Qed.



Lemma maskBall_hits : fst (Spatial.checkMaskCollision maskBall maskBox) = true.
Proof.
  unfold Spatial.checkMaskCollision, maskBox, maskBall.
  cbn [Spatial.x Spatial.y Spatial.left Spatial.right Spatial.top Spatial.bottom
       Spatial.mwidth Spatial.mheight onePixel].
  decide_cmp unfold_v2. cbn [orb]. cbv zeta.
  rewrite !onePixel_sample. reflexivity.
Qed.




(** ** Cursor magnetism *)



Module SpatialMagnet.
Import Spatial.





End SpatialMagnet.





(** ** Reveal on scroll *)

Module RevealFacts.
Import Reveal.

Lemma addClass_keeps el l a : In a l -> In a (addClass el l).
Proof.
  intros Hin. unfold addClass. destruct (existsb (Nat.eqb el) l); [exact Hin |].
  right. exact Hin.
Qed.

Lemma addClass_adds el l : In el (addClass el l).
Proof.
  unfold addClass. destruct (existsb (Nat.eqb el) l) eqn:E.
  - apply existsb_exists in E. destruct E as (a & Hin & Heq).
    apply Nat.eqb_eq in Heq. subst a. exact Hin.
  - left. reflexivity.
Qed.

Lemma addClass_present el l : In el l -> addClass el l = l.
Proof.
  intros Hin. unfold addClass.
  replace (existsb (Nat.eqb el) l) with true; [reflexivity |].
  symmetry. apply existsb_exists. exists el. split; [exact Hin | apply Nat.eqb_refl].
Qed.

Lemma markAll_keeps els acc a :
  In a acc -> In a (fold_left (fun acc el => addClass el acc) els acc).
Proof.
  revert acc; induction els as [| el tl IH]; intros acc Hin; [exact Hin |].
  cbn. apply IH, addClass_keeps, Hin.
Qed.

Lemma markAll_marks els acc a :
  In a els -> In a (fold_left (fun acc el => addClass el acc) els acc).
Proof.
  revert acc; induction els as [| el tl IH]; intros acc Hin; [destruct Hin |].
  cbn. destruct Hin as [-> | Hin].
  - apply markAll_keeps, addClass_adds.
  - apply IH, Hin.
Qed.

Lemma detach_subset el l a : In a (detach el l) -> In a l.
Proof. unfold detach. intros H. apply filter_In in H. tauto. Qed.

(** A batch whose targets all carry the class already changes no class
    list; it can only shrink the set of observed targets. *)
Lemma callback_on_revealed entries st :
  (forall e, In e entries -> In (target e) (revealed st)) ->
  revealed (callback entries st) = revealed st
  /\ (forall a, In a (observed (callback entries st)) -> In a (observed st)).
Proof.
  unfold callback. revert st.
  induction entries as [| e tl IH]; intros st Hall; [cbn; auto |].
  cbn [fold_left].
  assert (Hstep : revealed (onEntry st e) = revealed st
                  /\ forall a, In a (observed (onEntry st e)) -> In a (observed st)).
  { unfold onEntry. destruct (isIntersecting e); cbn; [| auto].
    split; [apply addClass_present, Hall; left; reflexivity |].
    intros a. apply detach_subset. }
  destruct Hstep as [Hr Ho].
  destruct (IH (onEntry st e)) as [Hr' Ho'].
  - intros e' Hin. rewrite Hr. apply Hall. right. exact Hin.
  - split; [rewrite Hr'; exact Hr | intros a Ha; apply Ho, Ho', Ha].
Qed.

Lemma reduced_motion_stable reveals st :
  reachable (init reveals true) st ->
  revealed st = revealed (init reveals true)
  /\ (forall a, In a (observed st) -> In a reveals).
Proof.
  induction 1 as [| st entries Hreach [IHr IHo] Hdel].
  - split; [reflexivity |]. cbn. auto.
  - destruct (callback_on_revealed entries st) as [Hr Ho].
    + intros e Hin. rewrite IHr. cbn. apply markAll_marks, IHo, Hdel, Hin.
    + split; [rewrite Hr; exact IHr | intros a Ha; apply IHo, Ho, Ha].
Qed.

End RevealFacts.

(** C8, as stated, fails on the observer: under reduced motion every
    flagged element is still handed to the observer and none is
    unobserved, so an entry for it can be delivered later. *)
Lemma C8_observer_still_watching :
  In 7%nat (Reveal.revealed (Reveal.init [7%nat] true))
  /\ Reveal.canFireFor (Reveal.init [7%nat] true) 7
  /\ Reveal.reachable (Reveal.init [7%nat] true)
       (Reveal.callback [Reveal.mkEntry 7 true] (Reveal.init [7%nat] true)).
Proof.
  split; [left; reflexivity |]. split; [left; reflexivity |].
  apply Reveal.reach_fire; [apply Reveal.reach_init |].
  intros e [<- | []]. left. reflexivity.
Qed.

(** C8 (amended).  When the reduced-motion preference is active at
    initialization, every element flagged for scroll reveal is marked
    revealed at once, and every one of them is still observed; whatever
    the observer delivers afterwards, the set of revealed elements stays
    as it was set at initialization. *)
Theorem C8_reduced_motion_reveals_at_once :
  forall reveals,
    (forall el, In el reveals -> In el (Reveal.revealed (Reveal.init reveals true)))
    /\ Reveal.observed (Reveal.init reveals true) = reveals
    /\ (forall st, Reveal.reachable (Reveal.init reveals true) st ->
                   Reveal.revealed st = Reveal.revealed (Reveal.init reveals true)).
Proof.
  intros reveals. split; [| split].
  - intros el Hin. cbn. apply RevealFacts.markAll_marks, Hin.
  - reflexivity.
  - intros st Hreach. apply (RevealFacts.reduced_motion_stable reveals st Hreach).
Qed.

(** Two flagged elements; the observer later reports the first one. *)
Lemma C8_reduced_motion_witness :
  In 7%nat (Reveal.revealed (Reveal.init [7; 8]%nat true))
  /\ Reveal.revealed (Reveal.callback [Reveal.mkEntry 7 true] (Reveal.init [7; 8]%nat true))
     = Reveal.revealed (Reveal.init [7; 8]%nat true).
Proof.
  destruct (C8_reduced_motion_reveals_at_once [7; 8]%nat) as (Hall & _ & Hstable).
  split.
  - apply Hall. left. reflexivity.
  - apply Hstable. apply Reveal.reach_fire; [apply Reveal.reach_init |].
    intros e [<- | []]. left. reflexivity.
Defined.

(** ** The frame loop *)

Lemma pow_two (a : R) : 0 < a -> JS.pow a 2 = a * a.
Proof.
  intros Ha. unfold JS.pow. replace 2 with (1 + 1) by ring.
  rewrite Rpower_plus, Rpower_1 by exact Ha. reflexivity.
Qed.

Lemma pow_zero (a : R) : 0 < a -> JS.pow a 0 = 1.
Proof. intros Ha. unfold JS.pow. apply Rpower_O, Ha. Qed.

Lemma detach_last (el : nat) : detach el [el] = [].
Proof. unfold detach. cbn. rewrite Nat.eqb_refl. reflexivity. Qed.

Module PortfolioLoop.
Import Portfolio.

Lemma frameDelta_capped_v1 f st :
  lastTime st <> 0 -> 33.34 <= currentTime f - lastTime st -> frameDelta f st = 2.
Proof.
  intros Hl Hgap. unfold frameDelta.
  rewrite (proj2 (eq_false _ _)) by exact Hl.
  apply Rmin_right. lra.
Qed.

Lemma frameDelta_first_v1 f st : lastTime st = 0 -> frameDelta f st = 0.
Proof.
  intros Hl. unfold frameDelta.
  rewrite (proj2 (eq_true _ _)) by exact Hl.
  replace ((currentTime f - currentTime f) / 16.67) with 0 by (field; lra).
  apply Rmin_left. lra.
Qed.

Lemma heroClick_lastTime e sy rnd st : lastTime (heroClick e sy rnd st) = lastTime st.
Proof.
  unfold heroClick, cleanupBalls, createBall.
  destruct (onLinkOrButton e); [reflexivity |].
  destruct (cleanupLoop (balls st) (dom st)) as [bs d]. cbn.
  destruct (animating st); reflexivity.
Qed.

(** The frame after which no ball is left clears the running flag and
    requests no further frame, but keeps the timestamp of that frame. *)
Lemma animateAll_stops_v1 f st :
  balls st <> [] -> balls (animateAll f st) = [] ->
  animating (animateAll f st) = false
  /\ frameRequested (animateAll f st) = false
  /\ lastTime (animateAll f st) = currentTime f.
Proof.
  intros Hne. unfold animateAll.
  destruct (balls st) as [| b0 tl] eqn:Hbs; [contradiction |].
  cbv zeta. destruct (wallsAll f _ (dom st)) as [bs4 d].
  destruct (existsb active (filter active bs4)) eqn:Eany; cbn.
  - intros Hnil. rewrite Hnil in Eany. discriminate Eany.
  - auto.
Qed.

(** The first forEach on a ball that the clamp leaves alone. *)
Lemma integrate_unclamped_v1 dt b :
  active b = true ->
  (vx b * JS.pow airResistance dt) * (vx b * JS.pow airResistance dt)
  + ((vy b + gravity * dt) * JS.pow airResistance dt)
    * ((vy b + gravity * dt) * JS.pow airResistance dt)
  <= maxVelocity * maxVelocity ->
  integrate dt b
  = mkBall (element b)
           (x b + vx b * JS.pow airResistance dt * dt)
           (y b + (vy b + gravity * dt) * JS.pow airResistance dt * dt)
           (vx b * JS.pow airResistance dt)
           ((vy b + gravity * dt) * JS.pow airResistance dt)
           true (stopping b).
Proof.
  intros Hact Hslow.
  unfold integrate, move, clampVelocity, applyAirResistance, applyGravity.
  rewrite Hact.
  cbn [negb setVel setPos vx vy x y element active stopping].
  rewrite (proj2 (gt_false _ _))
    by (apply sqrt_le_bound; [unfold maxVelocity; lra | exact Hslow]).
  unfold setPos, setVel. cbn [vx vy x y element active stopping].
  rewrite Hact. reflexivity.
Qed.

Lemma ballCollisions_single b : ballCollisions [b] = [b].
Proof. reflexivity. Qed.

(** The third forEach on a ball that touches no wall and stays above the
    removal line. *)
Lemma walls_untouched_v1 f b d :
  active b = true ->
  0 <= x b - ballRadius -> x b + ballRadius <= clientWidth f ->
  scrollY f <= y b - ballRadius -> y b - ballRadius <= scrollHeight f + 50 ->
  walls f b d = (b, d).
Proof.
  intros Hact Hl Hr Hc Hfl. unfold walls. rewrite Hact. cbn [negb].
  unfold leftWall. rewrite (proj2 (lt_false (x b - ballRadius) 0)) by exact Hl.
  unfold rightWall.
  rewrite (proj2 (gt_false (x b + ballRadius) (clientWidth f))) by exact Hr.
  unfold ceiling.
  rewrite (proj2 (lt_false (y b - ballRadius) (scrollY f))) by exact Hc.
  cbv zeta.
  rewrite (proj2 (gt_false (y b - ballRadius) (scrollHeight f + 50))) by exact Hfl.
  reflexivity.
Qed.

(** The third forEach on a ball that has dropped below the removal line. *)
Lemma walls_below_v1 f b d :
  active b = true ->
  0 <= x b - ballRadius -> x b + ballRadius <= clientWidth f ->
  scrollY f <= y b - ballRadius -> scrollHeight f + 50 < y b - ballRadius ->
  walls f b d = (setActive b false, detach (element b) d).
Proof.
  intros Hact Hl Hr Hc Hfl. unfold walls. rewrite Hact. cbn [negb].
  unfold leftWall. rewrite (proj2 (lt_false (x b - ballRadius) 0)) by exact Hl.
  unfold rightWall.
  rewrite (proj2 (gt_false (x b + ballRadius) (clientWidth f))) by exact Hr.
  unfold ceiling.
  rewrite (proj2 (lt_false (y b - ballRadius) (scrollY f))) by exact Hc.
  cbv zeta.
  rewrite (proj2 (gt_true (y b - ballRadius) (scrollHeight f + 50))) by exact Hfl.
  reflexivity.
Qed.

End PortfolioLoop.

Lemma fallingState_integrated :
  map (Portfolio.integrate 2) [fallingBall]
  = [Portfolio.mkBall 0 100 3071.7243136 0 20.8621568 true false].
Proof.
  cbn [map]. rewrite PortfolioLoop.integrate_unclamped_v1; [| reflexivity |].
  - unfold fallingBall. cbn [Portfolio.element Portfolio.x Portfolio.y Portfolio.vx
                             Portfolio.vy Portfolio.stopping].
    rewrite pow_two by (unfold Portfolio.airResistance; lra).
    unfold Portfolio.airResistance, Portfolio.gravity.
    f_equal. f_equal; lra.
  - unfold fallingBall. cbn [Portfolio.vx Portfolio.vy].
    rewrite pow_two by (unfold Portfolio.airResistance; lra).
    unfold Portfolio.airResistance, Portfolio.gravity, Portfolio.maxVelocity. lra.
Qed.

Lemma fallingState_delta : Portfolio.frameDelta lastFrame fallingState = 2.
Proof. apply PortfolioLoop.frameDelta_capped_v1; cbn; lra. Qed.

Lemma fallingState_emptied :
  Portfolio.animateAll lastFrame fallingState
  = Portfolio.mkState [] [] 1 1100 false false.
Proof.
  unfold Portfolio.animateAll. cbn [Portfolio.balls fallingState].
  unfold Portfolio.beforePairs. rewrite fallingState_delta.
  cbn [Portfolio.balls fallingState Portfolio.obstacleRects lastFrame
       Portfolio.scrollY Portfolio.getObstacles flat_map].
  rewrite fallingState_integrated.
  cbn [map Portfolio.collideObstacles Portfolio.active negb fold_left].
  rewrite PortfolioLoop.ballCollisions_single.
  cbn [Portfolio.wallsAll]. rewrite PortfolioLoop.walls_below_v1;
    [| reflexivity | unfold lastFrame; cbn; unfold_v1; lra ..].
  cbn. reflexivity.
Qed.

Module SpatialLoop.
Import Spatial.

Lemma frameDelta_capped_v2 f st :
  lastTime st <> 0 -> 33.34 <= currentTime f - lastTime st -> frameDelta f st = 2.
Proof.
  intros Hl Hgap. unfold frameDelta.
  rewrite (proj2 (eq_false _ _)) by exact Hl.
  apply Rmin_right. lra.
Qed.

Lemma frameDelta_first_v2 f st : lastTime st = 0 -> frameDelta f st = 0.
Proof.
  intros Hl. unfold frameDelta.
  rewrite (proj2 (eq_true _ _)) by exact Hl.
  replace ((currentTime f - currentTime f) / 16.67) with 0 by (field; lra).
  apply Rmin_left. lra.
Qed.

Lemma spawnBall_lastTime px py pvx pvy r st :
  lastTime (snd (spawnBall px py pvx pvy r st)) = lastTime st.
Proof.
  unfold spawnBall, cleanupBalls, createBall, setBalls, setLoop.
  destruct (cleanupLoop (balls st) (dom st)) as [bs d]. cbn.
  destruct (animating st); reflexivity.
Qed.

Lemma animateAll_stops_v2 f st :
  balls st <> [] -> balls (animateAll f st) = [] ->
  animating (animateAll f st) = false
  /\ frameRequested (animateAll f st) = false
  /\ lastTime (animateAll f st) = currentTime f.
Proof.
  intros Hne. unfold animateAll.
  destruct (balls st) as [| b0 tl] eqn:Hbs; [contradiction |].
  cbv zeta.
  destruct (existsb active (filter active _)) eqn:Eany; cbn.
  - intros Hnil. rewrite Hnil in Eany. discriminate Eany.
  - auto.
Qed.

Lemma magnetism_far mx my b :
  magneticRadius * magneticRadius
  <= (mx - x b) * (mx - x b) + (my - y b) * (my - y b) ->
  applyCursorMagnetism mx my b = b.
Proof.
  intros Hfar. unfold applyCursorMagnetism. cbv zeta.
  rewrite (proj2 (lt_false _ _)) by exact Hfar. reflexivity.
Qed.

(** The first forEach on a ball out of reach of the cursor that the clamp
    leaves alone. *)
Lemma integrate_unclamped_v2 mx my dt b :
  active b = true ->
  magneticRadius * magneticRadius
  <= (mx - x b) * (mx - x b) + (my - y b) * (my - y b) ->
  (vx b * JS.pow airResistance dt) * (vx b * JS.pow airResistance dt)
  + ((vy b + gravity * dt) * JS.pow airResistance dt)
    * ((vy b + gravity * dt) * JS.pow airResistance dt)
  <= maxVelocity * maxVelocity ->
  integrate mx my dt b
  = mkBall (element b)
           (x b + vx b * JS.pow airResistance dt * dt)
           (y b + (vy b + gravity * dt) * JS.pow airResistance dt * dt)
           (vx b * JS.pow airResistance dt)
           ((vy b + gravity * dt) * JS.pow airResistance dt)
           true (stopping b)
           (rotation b + (vx b * JS.pow airResistance dt * 0.5 + spinSpeed b) * dt)
           (spinSpeed b) (Some (x b)) (Some (y b)) (restingStartTime b).
Proof.
  intros Hact Hfar Hslow. unfold integrate. rewrite Hact. cbn [negb].
  rewrite magnetism_far by exact Hfar.
  unfold clampVelocity, applyAirResistance, applyGravity, recordPrev.
  cbn [setPrev setVel setPos vx vy x y].
  rewrite (proj2 (gt_false _ _))
    by (apply sqrt_le_bound; [unfold maxVelocity; lra | exact Hslow]).
  unfold spin, move. rewrite orElse_zero.
  unfold setPos, setVel, setPrev.
  cbn [element x y vx vy active stopping rotation spinSpeed prevX prevY
       restingStartTime].
  rewrite Hact.
  destruct (JS.eq (rotation b) 0) eqn:Erot; unfold setRotation;
    cbn [element x y vx vy active stopping rotation spinSpeed
         prevX prevY restingStartTime]; [| reflexivity].
  apply eq_true in Erot. rewrite Erot. reflexivity.
Qed.

Lemma ballCollisions_single_v2 f b : ballCollisions f [b] = [b].
Proof. reflexivity. Qed.

(** The third forEach on a ball more than 200px below the viewport. *)
Lemma walls_far_below_v2 f b :
  active b = true ->
  0 <= x b - ballRadius -> x b + ballRadius <= innerWidth f ->
  0 <= y b - ballRadius -> innerHeight f + 200 < y b ->
  walls f b = setActive b false.
Proof.
  intros Hact Hl Hr Hc Hfar. unfold walls. rewrite Hact. cbn [negb].
  unfold leftWall. rewrite (proj2 (lt_false (x b - ballRadius) 0)) by exact Hl.
  unfold rightWall.
  rewrite (proj2 (gt_false (x b + ballRadius) (innerWidth f))) by exact Hr.
  unfold ceiling. rewrite (proj2 (lt_false (y b - ballRadius) 0)) by exact Hc.
  cbv zeta.
  rewrite (proj2 (gt_true (y b) (innerHeight f + 200))) by exact Hfar.
  reflexivity.
Qed.

(** The third forEach on a ball that touches no wall and no floor. *)
Lemma walls_untouched_v2 f b :
  active b = true ->
  0 <= x b - ballRadius -> x b + ballRadius <= innerWidth f ->
  0 <= y b - ballRadius -> y b + ballRadius <= innerHeight f ->
  walls f b = setResting b None.
Proof.
  intros Hact Hl Hr Hc Hfl. unfold walls. rewrite Hact. cbn [negb].
  unfold leftWall. rewrite (proj2 (lt_false (x b - ballRadius) 0)) by exact Hl.
  unfold rightWall.
  rewrite (proj2 (gt_false (x b + ballRadius) (innerWidth f))) by exact Hr.
  unfold ceiling. rewrite (proj2 (lt_false (y b - ballRadius) 0)) by exact Hc.
  cbv zeta.
  rewrite (proj2 (gt_false (y b) (innerHeight f + 200)))
    by (unfold ballRadius in *; lra).
  rewrite (proj2 (gt_false (y b + ballRadius) (innerHeight f))) by exact Hfl.
  reflexivity.
Qed.

End SpatialLoop.

Ltac eval_v2 :=
  repeat (progress
            (cbn [Spatial.element Spatial.x Spatial.y Spatial.vx Spatial.vy
                  Spatial.active Spatial.stopping Spatial.rotation Spatial.spinSpeed
                  Spatial.prevX Spatial.prevY Spatial.restingStartTime
                  Spatial.setPos Spatial.setVel Spatial.setActive Spatial.setRotation
                  Spatial.setPrev Spatial.setResting
                  Spatial.left Spatial.right Spatial.top Spatial.bottom
                  Spatial.currentTime Spatial.innerWidth Spatial.innerHeight
                  Spatial.obstacleCacheTime Spatial.mouseX Spatial.mouseY
                  fst snd negb andb orb];
             decide_cmp unfold_v2)).

Lemma fallingState2_delta : Spatial.frameDelta lastFrame2 fallingState2 = 2.
Proof. apply SpatialLoop.frameDelta_capped_v2; cbn; lra. Qed.

Lemma fallingState2_refreshed :
  Spatial.refreshObstacles lastFrame2 fallingState2
  = Spatial.mkState [fallingBall2] [0%nat] 1 1000 true true 0 0 0 0 [] 1100 [].
Proof.
  unfold Spatial.refreshObstacles, lastFrame2, fallingState2. eval_v2.
  reflexivity.
Qed.

Lemma fallingState2_integrated :
  map (Spatial.integrate 0 0 2) [fallingBall2]
  = [Spatial.mkBall 0 400 1032.37307 0 21.186535 true false 0 0
                    (Some 400) (Some 990) None].
Proof.
  cbn [map]. rewrite SpatialLoop.integrate_unclamped_v2; [| reflexivity | |].
  - unfold fallingBall2.
    cbn [Spatial.element Spatial.x Spatial.y Spatial.vx Spatial.vy Spatial.stopping
         Spatial.rotation Spatial.spinSpeed Spatial.restingStartTime].
    rewrite pow_two by (unfold Spatial.airResistance; lra).
    unfold Spatial.airResistance, Spatial.gravity.
    f_equal. f_equal; lra.
  - unfold fallingBall2. cbn [Spatial.x Spatial.y]. unfold Spatial.magneticRadius. lra.
  - unfold fallingBall2. cbn [Spatial.vx Spatial.vy].
    rewrite pow_two by (unfold Spatial.airResistance; lra).
    unfold Spatial.airResistance, Spatial.gravity, Spatial.maxVelocity. lra.
Qed.

Lemma fallingState2_emptied :
  Spatial.animateAll lastFrame2 fallingState2
  = Spatial.mkState [] [0%nat] 1 1100 false false 0 0 0 0 [] 1100 [].
Proof.
  unfold Spatial.animateAll. cbn [Spatial.balls fallingState2].
  unfold Spatial.beforePairs.
  rewrite fallingState2_delta, fallingState2_refreshed.
  cbn [Spatial.balls Spatial.mouseX Spatial.mouseY Spatial.obstacleCache Spatial.dom].
  rewrite fallingState2_integrated.
  cbn [map Spatial.collideObstacles Spatial.active negb fold_left].
  rewrite SpatialLoop.ballCollisions_single_v2.
  cbn [map]. rewrite SpatialLoop.walls_far_below_v2;
    [| reflexivity | unfold lastFrame2; cbn; unfold_v2; lra ..].
  reflexivity.
Qed.

(** C7 (the code departs from the claim).  In both variants, the frame
    after which no ball is left clears the running flag and requests no
    further frame, but [lastTime] keeps the timestamp of that frame: the
    reset to [0] sits only on the early return for an empty array.  The
    first frame after the next spawn therefore measures its time delta
    from the old timestamp (the cap of 2 once 33.34ms have passed)
    instead of the 0 of a clean start. *)
Theorem C7_loop_stops_without_timing_reset :
  (forall f st,
      Portfolio.balls st <> [] ->
      Portfolio.balls (Portfolio.animateAll f st) = [] ->
      Portfolio.animating (Portfolio.animateAll f st) = false
      /\ Portfolio.frameRequested (Portfolio.animateAll f st) = false
      /\ Portfolio.lastTime (Portfolio.animateAll f st) = Portfolio.currentTime f
      /\ forall e sy rnd f2,
          Portfolio.currentTime f <> 0 ->
          33.34 <= Portfolio.currentTime f2 - Portfolio.currentTime f ->
          Portfolio.frameDelta f2 (Portfolio.heroClick e sy rnd (Portfolio.animateAll f st))
          = 2)
  /\ (forall e sy rnd f2,
         Portfolio.frameDelta f2 (Portfolio.heroClick e sy rnd Portfolio.initial) = 0)
  /\
  (forall f st,
      Spatial.balls st <> [] ->
      Spatial.balls (Spatial.animateAll f st) = [] ->
      Spatial.animating (Spatial.animateAll f st) = false
      /\ Spatial.frameRequested (Spatial.animateAll f st) = false
      /\ Spatial.lastTime (Spatial.animateAll f st) = Spatial.currentTime f
      /\ forall px py pvx pvy r f2,
          Spatial.currentTime f <> 0 ->
          33.34 <= Spatial.currentTime f2 - Spatial.currentTime f ->
          Spatial.frameDelta f2
            (snd (Spatial.spawnBall px py pvx pvy r (Spatial.animateAll f st)))
          = 2)
  /\ (forall px py pvx pvy r f2,
         Spatial.frameDelta f2 (snd (Spatial.spawnBall px py pvx pvy r Spatial.initial))
         = 0).
Proof.
  split; [| split; [| split]].
  - intros f st Hne Hnil.
    destruct (PortfolioLoop.animateAll_stops_v1 f st Hne Hnil) as (Ha & Hr & Hl).
    repeat (split; [assumption |]).
    intros e sy rnd f2 Ht Hgap.
    apply PortfolioLoop.frameDelta_capped_v1;
      rewrite PortfolioLoop.heroClick_lastTime, Hl; assumption.
  - intros e sy rnd f2. apply PortfolioLoop.frameDelta_first_v1.
    rewrite PortfolioLoop.heroClick_lastTime. reflexivity.
  - intros f st Hne Hnil.
    destruct (SpatialLoop.animateAll_stops_v2 f st Hne Hnil) as (Ha & Hr & Hl).
    repeat (split; [assumption |]).
    intros px py pvx pvy r f2 Ht Hgap.
    apply SpatialLoop.frameDelta_capped_v2;
      rewrite SpatialLoop.spawnBall_lastTime, Hl; assumption.
  - intros px py pvx pvy r f2. apply SpatialLoop.frameDelta_first_v2.
    rewrite SpatialLoop.spawnBall_lastTime. reflexivity.
Qed.

(** The last ball leaves at timestamp 1100; the loop stops with
    [lastTime = 1100], and a spawn followed by a frame at 5000 steps with
    a time delta of 2. *)
Lemma C7_loop_stops_witness :
  (Portfolio.balls (Portfolio.animateAll lastFrame fallingState) = []
   /\ Portfolio.animating (Portfolio.animateAll lastFrame fallingState) = false
   /\ Portfolio.lastTime (Portfolio.animateAll lastFrame fallingState) = 1100
   /\ Portfolio.frameDelta (Portfolio.mkFrame 5000 [] 0 1200 3000)
        (Portfolio.heroClick click0 0 0.5 (Portfolio.animateAll lastFrame fallingState))
      = 2)
  /\
  (Spatial.balls (Spatial.animateAll lastFrame2 fallingState2) = []
   /\ Spatial.animating (Spatial.animateAll lastFrame2 fallingState2) = false
   /\ Spatial.lastTime (Spatial.animateAll lastFrame2 fallingState2) = 1100
   /\ Spatial.frameDelta (Spatial.mkFrame 5000 [] [] 1200 800 (fun _ _ => (0.5, 0.5)))
        (spawn0 (Spatial.animateAll lastFrame2 fallingState2))
      = 2).
Proof.
  destruct C7_loop_stops_without_timing_reset as (H1 & _ & H2 & _).
  split.
  - assert (Hnil : Portfolio.balls (Portfolio.animateAll lastFrame fallingState) = [])
      by (rewrite fallingState_emptied; reflexivity).
    destruct (H1 lastFrame fallingState) as (Ha & _ & Hl & Hd);
      [discriminate | exact Hnil |].
    split; [exact Hnil |]. split; [exact Ha |]. split; [exact Hl |].
    apply Hd; cbn; lra.
  - assert (Hnil : Spatial.balls (Spatial.animateAll lastFrame2 fallingState2) = [])
      by (rewrite fallingState2_emptied; reflexivity).
    destruct (H2 lastFrame2 fallingState2) as (Ha & _ & Hl & Hd);
      [discriminate | exact Hnil |].
    split; [exact Hnil |]. split; [exact Ha |]. split; [exact Hl |].
    apply Hd; cbn; lra.
Defined.

(** ** The speed limit *)

Lemma scaled_to_limit (vx vy m : R) :
  0 < sqrt (vx * vx + vy * vy) ->
  (vx * (m / sqrt (vx * vx + vy * vy))) * (vx * (m / sqrt (vx * vx + vy * vy)))
  + (vy * (m / sqrt (vx * vx + vy * vy))) * (vy * (m / sqrt (vx * vx + vy * vy)))
  = m * m.
Proof.
  intros Hs.
  assert (Hsq := hypot_sq vx vy).
  set (s := sqrt (vx * vx + vy * vy)) in *. clearbody s.
  replace (vx * (m / s) * (vx * (m / s)) + vy * (m / s) * (vy * (m / s)))
    with (m * m * ((vx * vx + vy * vy) / (s * s))) by (field; lra).
  rewrite <- Hsq. field. lra.
Qed.

(** A reflected component, scaled by a restitution factor in [0, 1], is
    no larger in magnitude than the incoming one. *)
Lemma reflected_sq_le (v c : R) :
  0 <= c <= 1 ->
  (Rabs v * c) * (Rabs v * c) <= v * v
  /\ (- Rabs v * c) * (- Rabs v * c) <= v * v.
Proof.
  intros Hc. pose proof (Rabs_pos v) as Hp.
  assert (Hsq : Rabs v * Rabs v = v * v).
  { unfold Rabs. destruct (Rcase_abs v); ring. }
  assert (Hv : 0 <= v * v) by nra.
  assert (Hcc : c * c <= 1) by nra.
  assert (Hcp : 0 <= c * c) by nra.
  split.
  - replace (Rabs v * c * (Rabs v * c)) with (v * v * (c * c))
      by (rewrite <- Hsq; ring).
    nra.
  - replace (- Rabs v * c * (- Rabs v * c)) with (v * v * (c * c))
      by (rewrite <- Hsq; ring).
    nra.
Qed.

Lemma setNth_same {A : Type} (i : nat) (a : A) (l : list A) :
  nth_error l i = Some a -> setNth i a l = l.
Proof.
  revert i; induction l as [| h tl IH]; intros [| i] H; cbn in *;
    try discriminate; try reflexivity.
  - injection H as ->. reflexivity.
  - rewrite IH by exact H. reflexivity.
Qed.

Lemma fold_left_fixed {A B : Type} (g : A -> B -> A) (l : list B) (a : A) :
  (forall x, In x l -> g a x = a) -> fold_left g l a = a.
Proof.
  induction l as [| x tl IH]; intros H; [reflexivity |].
  cbn. rewrite (H x) by (left; reflexivity).
  apply IH. intros y Hy. apply H. right. exact Hy.
Qed.

Module PortfolioSpeed.
Import Portfolio.

Lemma bounded_speed b : bounded b -> speed b <= maxVelocity.
Proof.
  intros H. apply sqrt_le_bound; [unfold maxVelocity; lra | exact H].
Qed.

Lemma clampVelocity_bounded b : bounded (clampVelocity b).
Proof.
  unfold clampVelocity, bounded.
  destruct (JS.gt _ maxVelocity) eqn:E; reflect_guards.
  - cbn [setVel vx vy].
    rewrite scaled_to_limit by (unfold maxVelocity in E; lra). lra.
  - assert (Hsq := hypot_sq (vx b) (vy b)).
    pose proof (sqrt_pos (vx b * vx b + vy b * vy b)).
    unfold maxVelocity in *. nra.
Qed.

Lemma integrate_bounded dt b : active b = true -> bounded (integrate dt b).
Proof.
  intros Hact. unfold integrate. rewrite Hact. cbn [negb].
  unfold move, bounded. cbn [setPos vx vy]. apply clampVelocity_bounded.
Qed.

Lemma clampVelocity_active b : active (clampVelocity b) = active b.
Proof. unfold clampVelocity. destruct (JS.gt _ _); reflexivity. Qed.

Lemma integrate_active dt b : active (integrate dt b) = active b.
Proof.
  unfold integrate. destruct (active b) eqn:E; cbn [negb]; [| exact E].
  unfold move. cbn [setPos active]. rewrite clampVelocity_active. exact E.
Qed.

Lemma snap_sq_le v w : v * v <= w -> snap v * snap v <= w.
Proof.
  intros H. unfold snap. destruct (JS.lt _ _); [nra | exact H].
Qed.

Lemma bounce_x_bounded b px py v :
  bounded b -> v * v <= vx b * vx b ->
  bounded (mkBall (element b) px py (snap v) (vy b) (active b) (stopping b)).
Proof.
  unfold bounded. cbn. intros Hb Hv.
  pose proof (snap_sq_le v _ Hv). lra.
Qed.

Lemma bounce_y_bounded b px py v :
  bounded b -> v * v <= vy b * vy b ->
  bounded (mkBall (element b) px py (vx b) (snap v) (active b) (stopping b)).
Proof.
  unfold bounded. cbn. intros Hb Hv.
  pose proof (snap_sq_le v _ Hv). lra.
Qed.

Lemma restitution_range : 0 <= bounceFactor <= 1.
Proof. unfold bounceFactor. lra. Qed.

Lemma checkRect_bounded b obs :
  bounded b -> bounded (snd (checkRectCollision b obs)).
Proof.
  intros Hb. unfold checkRectCollision.
  destruct (reflected_sq_le (vx b) bounceFactor restitution_range) as [Hx1 Hx2].
  destruct (reflected_sq_le (vy b) bounceFactor restitution_range) as [Hy1 Hy2].
  destruct (negb _); [exact Hb |].
  destruct (overlaps b obs); [| exact Hb].
  destruct (JS.lt (minOverlapX b obs) _); destruct (JS.lt _ _); cbn [snd];
    first [apply bounce_x_bounded | apply bounce_y_bounded]; assumption.
Qed.

Lemma checkRect_active b obs :
  active (snd (checkRectCollision b obs)) = active b.
Proof.
  unfold checkRectCollision.
  destruct (negb _); [reflexivity |].
  destruct (overlaps b obs); [| reflexivity].
  destruct (JS.lt (minOverlapX b obs) _); destruct (JS.lt _ _); reflexivity.
Qed.

Lemma collideObstacles_bounded obstacles b :
  bounded b -> bounded (collideObstacles obstacles b).
Proof.
  unfold collideObstacles. destruct (negb (active b)); [auto |].
  revert b. induction obstacles as [| obs tl IH]; intros b Hb; [exact Hb |].
  cbn [fold_left]. apply IH, checkRect_bounded, Hb.
Qed.

Lemma collideObstacles_active obstacles b :
  active (collideObstacles obstacles b) = active b.
Proof.
  unfold collideObstacles. destruct (negb (active b)); [reflexivity |].
  revert b. induction obstacles as [| obs tl IH]; intros b; [reflexivity |].
  cbn [fold_left]. rewrite IH. apply checkRect_active.
Qed.

(** A pair one diameter or more apart is left alone. *)
Lemma resolve_apart a b :
  ballRadius * 2 <= centreDistance a b -> resolveBallCollision a b = (a, b).
Proof.
  intros Hfar. unfold resolveBallCollision. fold (centreDistance a b).
  rewrite (proj2 (eq_false _ _)) by (unfold ballRadius in Hfar; lra).
  rewrite (proj2 (lt_false _ _)) by exact Hfar. reflexivity.
Qed.

Lemma pairStep_apart bs i j :
  noOverlap bs -> (i < j)%nat -> pairStep bs i j = bs.
Proof.
  intros Hno Hij. unfold pairStep.
  destruct (nth_error bs i) as [a |] eqn:Hi; [| reflexivity].
  destruct (nth_error bs j) as [b |] eqn:Hj; [| reflexivity].
  destruct (active a) eqn:Ha; [| reflexivity].
  destruct (active b) eqn:Hb; [| reflexivity].
  cbn [andb]. rewrite resolve_apart by (apply (Hno i j); assumption).
  rewrite (setNth_same i a bs Hi). apply setNth_same, Hj.
Qed.

Lemma ballCollisions_apart bs : noOverlap bs -> ballCollisions bs = bs.
Proof.
  intros Hno. unfold ballCollisions.
  apply fold_left_fixed. intros i _.
  apply fold_left_fixed. intros j Hj.
  apply in_seq in Hj. apply pairStep_apart; [exact Hno | lia].
Qed.

Lemma walls_inactive f b d : active b = false -> walls f b d = (b, d).
Proof. intros H. unfold walls. rewrite H. reflexivity. Qed.

Lemma walls_bounded f b d : bounded b -> bounded (fst (walls f b d)).
Proof.
  intros Hb. unfold walls. destruct (negb (active b)); [exact Hb |].
  assert (H1 : bounded (leftWall b)).
  { unfold leftWall. destruct (JS.lt _ _); [| exact Hb].
    apply bounce_x_bounded; [exact Hb |].
    apply (reflected_sq_le (vx b) bounceFactor restitution_range). }
  assert (H2 : bounded (rightWall (clientWidth f) (leftWall b))).
  { unfold rightWall. destruct (JS.gt _ _); [| exact H1].
    apply bounce_x_bounded; [exact H1 |].
    apply (reflected_sq_le (vx (leftWall b)) bounceFactor restitution_range). }
  assert (H3 : bounded (ceiling (scrollY f) (rightWall (clientWidth f) (leftWall b)))).
  { unfold ceiling. destruct (JS.lt _ _); [| exact H2].
    apply bounce_y_bounded; [exact H2 |].
    apply (reflected_sq_le (vy (rightWall (clientWidth f) (leftWall b)))
             bounceFactor restitution_range). }
  cbv zeta. destruct (JS.gt _ _); cbn [fst]; [| exact H3].
  unfold bounded, setActive. cbn [vx vy]. exact H3.
Qed.

Lemma wallsAll_members f bs d b' :
  In b' (fst (wallsAll f bs d)) ->
  exists b d0, In b bs /\ b' = fst (walls f b d0).
Proof.
  revert d; induction bs as [| b tl IH]; intros d; cbn [wallsAll].
  - intros [].
  - destruct (walls f b d) as [b1 d1] eqn:Ew.
    destruct (wallsAll f tl d1) as [tl' d2] eqn:Et.
    cbn [fst]. intros [<- | Hin].
    + exists b, d. split; [left; reflexivity | rewrite Ew; reflexivity].
    + destruct (IH d1) as (b0 & d0 & Hb0 & Heq); [rewrite Et; exact Hin |].
      exists b0, d0. split; [right; exact Hb0 | exact Heq].
Qed.

(** Every ball that survives a frame in which the pair loop finds no two
    active balls overlapping respects the speed limit. *)
Lemma animateAll_bounded f st b' :
  noOverlap (beforePairs f st) ->
  In b' (balls (animateAll f st)) -> speed b' <= maxVelocity.
Proof.
  intros Hno. unfold animateAll.
  destruct (balls st) as [| b0 tl] eqn:Hbs; [intros [] |].
  cbv zeta. rewrite (ballCollisions_apart _ Hno).
  destruct (wallsAll f (beforePairs f st) (dom st)) as [bs4 d] eqn:Ew.
  assert (Hin : In b' (filter active bs4) -> speed b' <= maxVelocity).
  { intros Hin. apply filter_In in Hin. destruct Hin as [Hin Hact].
    destruct (wallsAll_members f (beforePairs f st) (dom st) b') as (b2 & d0 & Hb2 & ->);
      [rewrite Ew; exact Hin |].
    unfold beforePairs in Hb2. cbv zeta in Hb2.
    apply in_map_iff in Hb2. destruct Hb2 as (b1 & <- & Hb1).
    apply in_map_iff in Hb1. destruct Hb1 as (b & <- & Hb).
    destruct (active b) eqn:Eact.
    - apply bounded_speed, walls_bounded, collideObstacles_bounded,
        integrate_bounded, Eact.
    - rewrite walls_inactive in Hact
        by (rewrite collideObstacles_active, integrate_active; exact Eact).
      cbn [fst] in Hact.
      rewrite collideObstacles_active, integrate_active, Eact in Hact.
      discriminate Hact. }
  destruct (existsb active (filter active bs4)); cbn [balls]; exact Hin.
Qed.

End PortfolioSpeed.

(** A vector divided by its length, or by 1 when the length is 0, is a
    unit vector or the zero vector. *)
Lemma normalised_unit_or_zero (a b : R) :
  let len := JS.orElse (JS.hypot a b) 1 in
  (a / len) * (a / len) + (b / len) * (b / len) = 1
  \/ (a / len = 0 /\ b / len = 0).
Proof.
  intros len. subst len. unfold JS.orElse, JS.hypot.
  destruct (Req_dec_T (sqrt (a * a + b * b)) 0) as [Hz | Hnz].
  - right. destruct (proj1 (hypot_zero_iff a b) Hz) as [-> ->]. split; field.
  - left. assert (Hsq := hypot_sq a b).
    set (s := sqrt (a * a + b * b)) in *. clearbody s.
    replace (a / s * (a / s) + b / s * (b / s)) with ((a * a + b * b) / (s * s))
      by (field; exact Hnz).
    rewrite <- Hsq. field. exact Hnz.
Qed.

(** The mirror formula about a unit or zero normal keeps the length. *)
Lemma mirror_keeps_length (vx vy nx ny : R) :
  nx * nx + ny * ny = 1 \/ (nx = 0 /\ ny = 0) ->
  (vx - 2 * (vx * nx + vy * ny) * nx) * (vx - 2 * (vx * nx + vy * ny) * nx)
  + (vy - 2 * (vx * nx + vy * ny) * ny) * (vy - 2 * (vx * nx + vy * ny) * ny)
  = vx * vx + vy * vy.
Proof.
  intros [Hunit | [-> ->]]; [| ring].
  replace ((vx - 2 * (vx * nx + vy * ny) * nx) * (vx - 2 * (vx * nx + vy * ny) * nx)
           + (vy - 2 * (vx * nx + vy * ny) * ny) * (vy - 2 * (vx * nx + vy * ny) * ny))
    with (vx * vx + vy * vy
          + 4 * (vx * nx + vy * ny) * (vx * nx + vy * ny) * (nx * nx + ny * ny - 1))
    by ring.
  rewrite Hunit. ring.
Qed.

Module SpatialSpeed.
Import Spatial.

Lemma bounded_speed_v2 b : bounded b -> speed b <= maxVelocity.
Proof.
  intros H. apply sqrt_le_bound; [unfold maxVelocity; lra | exact H].
Qed.

Lemma clampVelocity_bounded_v2 b : bounded (clampVelocity b).
Proof.
  unfold clampVelocity, bounded.
  destruct (JS.gt _ maxVelocity) eqn:E; reflect_guards.
  - cbn [setVel vx vy].
    rewrite scaled_to_limit by (unfold maxVelocity in E; lra). lra.
  - assert (Hsq := hypot_sq (vx b) (vy b)).
    pose proof (sqrt_pos (vx b * vx b + vy b * vy b)).
    unfold maxVelocity in *. nra.
Qed.

Lemma spin_velocity dt b : vx (spin dt b) = vx b /\ vy (spin dt b) = vy b.
Proof. unfold spin. cbv zeta. destruct (JS.eq _ _); cbn; auto. Qed.

Lemma spin_active dt b : active (spin dt b) = active b.
Proof. unfold spin. cbv zeta. destruct (JS.eq _ _); reflexivity. Qed.

Lemma integrate_bounded_v2 mx my dt b :
  active b = true -> bounded (integrate mx my dt b).
Proof.
  intros Hact. unfold integrate. rewrite Hact. cbn [negb].
  unfold bounded. destruct (spin_velocity dt (move dt (clampVelocity
    (applyAirResistance dt (applyGravity dt (applyCursorMagnetism mx my (recordPrev b)))))))
    as [-> ->].
  unfold move. cbn [setPos vx vy]. apply clampVelocity_bounded_v2.
Qed.

Lemma clampVelocity_active_v2 b : active (clampVelocity b) = active b.
Proof. unfold clampVelocity. destruct (JS.gt _ _); reflexivity. Qed.

Lemma magnetism_active mx my b : active (applyCursorMagnetism mx my b) = active b.
Proof. unfold applyCursorMagnetism. cbv zeta. destruct (_ && _); reflexivity. Qed.

Lemma integrate_active_v2 mx my dt b : active (integrate mx my dt b) = active b.
Proof.
  unfold integrate. destruct (active b) eqn:E; cbn [negb]; [| exact E].
  rewrite spin_active. unfold move. cbn [setPos active].
  rewrite clampVelocity_active_v2. unfold applyAirResistance, applyGravity.
  cbn [setVel active]. rewrite magnetism_active. exact E.
Qed.

Lemma snap_sq_le_v2 v w : v * v <= w -> snap v * snap v <= w.
Proof.
  intros H. unfold snap. destruct (JS.lt _ _); [nra | exact H].
Qed.

Lemma restitution_range_v2 : 0 <= bounceFactor <= 1.
Proof. unfold bounceFactor. lra. Qed.

Lemma bounce_x_bounded_v2 b px py v :
  bounded b -> v * v <= vx b * vx b ->
  bounded (setVel (setPos b px py) (snap v) (vy b)).
Proof.
  unfold bounded. cbn. intros Hb Hv.
  pose proof (snap_sq_le_v2 v _ Hv). lra.
Qed.

Lemma bounce_y_bounded_v2 b px py v :
  bounded b -> v * v <= vy b * vy b ->
  bounded (setVel (setPos b px py) (vx b) (snap v)).
Proof.
  unfold bounded. cbn. intros Hb Hv.
  pose proof (snap_sq_le_v2 v _ Hv). lra.
Qed.

Lemma checkRect_bounded_v2 b obs :
  bounded b -> bounded (snd (checkRectCollision b obs)).
Proof.
  intros Hb. unfold checkRectCollision.
  destruct (reflected_sq_le (vx b) bounceFactor restitution_range_v2) as [Hx1 Hx2].
  destruct (reflected_sq_le (vy b) bounceFactor restitution_range_v2) as [Hy1 Hy2].
  destruct obs as [o | o w h m]; [| exact Hb].
  destruct (overlaps b o); [| exact Hb].
  destruct (JS.lt (minOverlapX b o) _); destruct (JS.lt _ _); cbn [snd];
    try (apply bounce_y_bounded_v2; assumption).
  - assert (H : bounded (setVel (setPos b (left o - ballRadius) (y b))
                                (snap (- Rabs (vx b) * bounceFactor)) (vy b)))
      by (apply bounce_x_bounded_v2; assumption).
    exact H.
  - assert (H : bounded (setVel (setPos b (right o + ballRadius) (y b))
                                (snap (Rabs (vx b) * bounceFactor)) (vy b)))
      by (apply bounce_x_bounded_v2; assumption).
    exact H.
Qed.

Lemma checkRect_active_v2 b obs :
  active (snd (checkRectCollision b obs)) = active b.
Proof.
  unfold checkRectCollision.
  destruct obs as [o | o w h m]; [| reflexivity].
  destruct (overlaps b o); [| reflexivity].
  destruct (JS.lt (minOverlapX b o) _); destruct (JS.lt _ _); reflexivity.
Qed.

Lemma maskNormal_unit_or_zero b m sx sy :
  fst (maskNormal b m sx sy) * fst (maskNormal b m sx sy)
  + snd (maskNormal b m sx sy) * snd (maskNormal b m sx sy) = 1
  \/ (fst (maskNormal b m sx sy) = 0 /\ snd (maskNormal b m sx sy) = 0).
Proof.
  unfold maskNormal. destruct (opacityGradient m sx sy) as [gx gy].
  destruct (_ && _); cbn [fst snd]; apply normalised_unit_or_zero.
Qed.

Lemma maskBounce_bounded b m sx sy :
  bounded b -> bounded (maskBounce b m sx sy).
Proof.
  intros Hb. unfold maskBounce, bounded in *.
  pose proof (maskNormal_unit_or_zero b m sx sy) as Hn.
  destruct (maskNormal b m sx sy) as [nx ny]. cbn [fst snd] in Hn.
  cbn [setPos setVel vx vy].
  pose proof (mirror_keeps_length (vx b) (vy b) nx ny Hn) as Hm.
  pose proof restitution_range_v2 as Hc.
  assert (Hcc : 0 <= bounceFactor * bounceFactor <= 1) by nra.
  assert (Hv : 0 <= vx b * vx b + vy b * vy b) by nra.
  replace ((vx b - 2 * (vx b * nx + vy b * ny) * nx) * bounceFactor
           * ((vx b - 2 * (vx b * nx + vy b * ny) * nx) * bounceFactor)
           + (vy b - 2 * (vx b * nx + vy b * ny) * ny) * bounceFactor
             * ((vy b - 2 * (vx b * nx + vy b * ny) * ny) * bounceFactor))
    with ((vx b * vx b + vy b * vy b) * (bounceFactor * bounceFactor))
    by (rewrite <- Hm; ring).
  nra.
Qed.

Lemma maskBounce_active b m sx sy : active (maskBounce b m sx sy) = active b.
Proof. unfold maskBounce. destruct (maskNormal b m sx sy). reflexivity. Qed.

Lemma checkMask_bounded b obs :
  bounded b -> bounded (snd (checkMaskCollision b obs)).
Proof.
  intros Hb. unfold checkMaskCollision.
  destruct obs as [o | o w h m]; [exact Hb |].
  destruct (_ || _ || _ || _); [exact Hb |].
  destruct (_ || _ || _ || _); [exact Hb |].
  cbv zeta. destruct (transparent _); [exact Hb |].
  cbn [snd]. apply maskBounce_bounded, Hb.
Qed.

Lemma checkMask_active b obs :
  active (snd (checkMaskCollision b obs)) = active b.
Proof.
  unfold checkMaskCollision.
  destruct obs as [o | o w h m]; [reflexivity |].
  destruct (_ || _ || _ || _); [reflexivity |].
  destruct (_ || _ || _ || _); [reflexivity |].
  cbv zeta. destruct (transparent _); [reflexivity |].
  cbn [snd]. apply maskBounce_active.
Qed.

Lemma collideObstacles_bounded_v2 obstacles b :
  bounded b -> bounded (collideObstacles obstacles b).
Proof.
  unfold collideObstacles. destruct (negb (active b)); [auto |].
  revert b. induction obstacles as [| obs tl IH]; intros b Hb; [exact Hb |].
  cbn [fold_left]. apply IH.
  destruct obs; [apply checkRect_bounded_v2 | apply checkMask_bounded]; exact Hb.
Qed.

Lemma collideObstacles_active_v2 obstacles b :
  active (collideObstacles obstacles b) = active b.
Proof.
  unfold collideObstacles. destruct (negb (active b)); [reflexivity |].
  revert b. induction obstacles as [| obs tl IH]; intros b; [reflexivity |].
  cbn [fold_left]. rewrite IH.
  destruct obs; [apply checkRect_active_v2 | apply checkMask_active].
Qed.

Lemma resolve_apart_v2 ra rb a b :
  ballRadius * 2 <= centreDistance a b -> resolveBallCollision ra rb a b = (a, b).
Proof.
  intros Hfar. unfold resolveBallCollision. fold (centreDistance a b).
  rewrite (proj2 (eq_false _ _)) by (unfold ballRadius in Hfar; lra).
  rewrite (proj2 (lt_false _ _)) by exact Hfar. reflexivity.
Qed.

Lemma pairStep_apart_v2 f bs i j :
  noOverlap bs -> (i < j)%nat -> pairStep f bs i j = bs.
Proof.
  intros Hno Hij. unfold pairStep.
  destruct (nth_error bs i) as [a |] eqn:Hi; [| reflexivity].
  destruct (nth_error bs j) as [b |] eqn:Hj; [| reflexivity].
  destruct (active a) eqn:Ha; [| reflexivity].
  destruct (active b) eqn:Hb; [| reflexivity].
  cbn [andb]. rewrite resolve_apart_v2 by (apply (Hno i j); assumption).
  rewrite (setNth_same i a bs Hi). apply setNth_same, Hj.
Qed.

Lemma ballCollisions_apart_v2 f bs : noOverlap bs -> ballCollisions f bs = bs.
Proof.
  intros Hno. unfold ballCollisions.
  apply fold_left_fixed. intros i _.
  apply fold_left_fixed. intros j Hj.
  apply in_seq in Hj. apply pairStep_apart_v2; [exact Hno | lia].
Qed.

Lemma walls_inactive_v2 f b : active b = false -> walls f b = b.
Proof. intros H. unfold walls. rewrite H. reflexivity. Qed.

Lemma floorBounce_bounded f b : bounded b -> bounded (floorBounce f b).
Proof.
  intros Hb. unfold floorBounce.
  assert (H4 : bounded (setVel (setPos b (x b) (innerHeight f - ballRadius))
                               (vx b) (snap (- Rabs (vy b) * bounceFactor)))).
  { apply bounce_y_bounded_v2; [exact Hb |].
    apply (reflected_sq_le (vy b) bounceFactor restitution_range_v2). }
  cbv zeta. destruct (_ && _); [| exact H4].
  destruct (negb _); [exact H4 |].
  destruct (JS.gt _ _); exact H4.
Qed.

Lemma walls_bounded_v2 f b : bounded b -> bounded (walls f b).
Proof.
  intros Hb. unfold walls. destruct (negb (active b)); [exact Hb |].
  assert (H1 : bounded (leftWall b)).
  { unfold leftWall. destruct (JS.lt _ _); [| exact Hb].
    apply bounce_x_bounded_v2; [exact Hb |].
    apply (reflected_sq_le (vx b) bounceFactor restitution_range_v2). }
  assert (H2 : bounded (rightWall (innerWidth f) (leftWall b))).
  { unfold rightWall. destruct (JS.gt _ _); [| exact H1].
    apply bounce_x_bounded_v2; [exact H1 |].
    apply (reflected_sq_le (vx (leftWall b)) bounceFactor restitution_range_v2). }
  assert (H3 : bounded (ceiling (rightWall (innerWidth f) (leftWall b)))).
  { unfold ceiling. destruct (JS.lt _ _); [| exact H2].
    apply bounce_y_bounded_v2; [exact H2 |].
    apply (reflected_sq_le (vy (rightWall (innerWidth f) (leftWall b)))
             bounceFactor restitution_range_v2). }
  cbv zeta. destruct (JS.gt _ _); [exact H3 |].
  destruct (JS.gt _ _); [apply floorBounce_bounded, H3 | exact H3].
Qed.

Lemma refreshObstacles_balls f st : balls (refreshObstacles f st) = balls st.
Proof.
  unfold refreshObstacles. destruct (JS.gt _ _); [| reflexivity].
  destruct (getObstacles f (maskCache st)). reflexivity.
Qed.

Lemma animateAll_bounded_v2 f st b' :
  noOverlap (beforePairs f st) ->
  In b' (balls (animateAll f st)) -> speed b' <= maxVelocity.
Proof.
  intros Hno. unfold animateAll.
  destruct (balls st) as [| b0 tl] eqn:Hbs; [unfold setLoop; cbn; rewrite Hbs; intros [] |].
  cbv zeta. rewrite (ballCollisions_apart_v2 f _ Hno).
  assert (Hin : In b' (filter active (map (walls f) (beforePairs f st)))
                -> speed b' <= maxVelocity).
  { intros Hin. apply filter_In in Hin. destruct Hin as [Hin Hact].
    apply in_map_iff in Hin. destruct Hin as (b2 & <- & Hb2).
    unfold beforePairs in Hb2. cbv zeta in Hb2.
    apply in_map_iff in Hb2. destruct Hb2 as (b1 & <- & Hb1).
    apply in_map_iff in Hb1. destruct Hb1 as (b & <- & Hb).
    destruct (active b) eqn:Eact.
    - apply bounded_speed_v2, walls_bounded_v2, collideObstacles_bounded_v2,
        integrate_bounded_v2, Eact.
    - rewrite walls_inactive_v2 in Hact
        by (rewrite collideObstacles_active_v2, integrate_active_v2; exact Eact).
      rewrite collideObstacles_active_v2, integrate_active_v2, Eact in Hact.
      discriminate Hact. }
  destruct (existsb active _); cbn [balls setLoop setBalls]; exact Hin.
Qed.

End SpatialSpeed.

Module PortfolioImpact.
Import Portfolio.

(** The impulse branch of [resolveBallCollision], for an approaching
    pair at distance [d] below one diameter. *)
Lemma resolve_approaching a b d :
  centreDistance a b = d -> 0 < d -> d < ballRadius * 2 ->
  (vx b - vx a) * ((x b - x a) / d) + (vy b - vy a) * ((y b - y a) / d) <= 0 ->
  let nx := (x b - x a) / d in
  let ny := (y b - y a) / d in
  let separation := (ballRadius * 2 - d) / 2 in
  let impulse :=
    - (1 + ballBounceFactor) * ((vx b - vx a) * nx + (vy b - vy a) * ny) / 2 in
  resolveBallCollision a b
  = (mkBall (element a) (x a - nx * separation) (y a - ny * separation)
            (vx a - impulse * nx) (vy a - impulse * ny) (active a) (stopping a),
     mkBall (element b) (x b + nx * separation) (y b + ny * separation)
            (vx b + impulse * nx) (vy b + impulse * ny) (active b) (stopping b)).
Proof.
  intros Hd Hpos Hlt Happ nx ny separation impulse.
  unfold resolveBallCollision. fold (centreDistance a b). rewrite Hd.
  rewrite (proj2 (eq_false d 0)) by lra.
  rewrite (proj2 (lt_true d (ballRadius * 2))) by exact Hlt.
  cbv zeta. cbn [setPos vx vy].
  rewrite (proj2 (gt_false _ 0)) by exact Happ.
  reflexivity.
Qed.

End PortfolioImpact.

Lemma crossing_delta : Portfolio.frameDelta crossingFrame crossingState = 2.
Proof. apply PortfolioLoop.frameDelta_capped_v1; cbn; lra. Qed.

Lemma crossing_integrated :
  map (Portfolio.integrate 2) [crossA; crossB]
  = [Portfolio.mkBall 0 157.075712 1057.075712 28.537856 0 true false;
     Portfolio.mkBall 1 167.075712 1057.075712 0 28.537856 true false].
Proof.
  cbn [map].
  rewrite !PortfolioLoop.integrate_unclamped_v1; try reflexivity.
  - unfold crossA, crossB.
    cbn [Portfolio.element Portfolio.x Portfolio.y Portfolio.vx Portfolio.vy
         Portfolio.stopping].
    rewrite pow_two by (unfold Portfolio.airResistance; lra).
    unfold Portfolio.airResistance, Portfolio.gravity.
    f_equal; [f_equal; lra | f_equal; f_equal; lra].
  - unfold crossB. cbn [Portfolio.vx Portfolio.vy].
    rewrite pow_two by (unfold Portfolio.airResistance; lra).
    unfold Portfolio.airResistance, Portfolio.gravity, Portfolio.maxVelocity. lra.
  - unfold crossA. cbn [Portfolio.vx Portfolio.vy].
    rewrite pow_two by (unfold Portfolio.airResistance; lra).
    unfold Portfolio.airResistance, Portfolio.gravity, Portfolio.maxVelocity. lra.
Qed.

Lemma crossing_distance :
  Portfolio.centreDistance
    (Portfolio.mkBall 0 157.075712 1057.075712 28.537856 0 true false)
    (Portfolio.mkBall 1 167.075712 1057.075712 0 28.537856 true false) = 10.
Proof.
  unfold Portfolio.centreDistance. cbn [Portfolio.x Portfolio.y].
  replace (167.075712 - 157.075712) with 10 by lra.
  replace (1057.075712 - 1057.075712) with 0 by lra.
  apply sqrt_axis. lra.
Qed.

Lemma crossing_resolved :
  Portfolio.resolveBallCollision
    (Portfolio.mkBall 0 157.075712 1057.075712 28.537856 0 true false)
    (Portfolio.mkBall 1 167.075712 1057.075712 0 28.537856 true false)
  = (Portfolio.mkBall 0 152.075712 1057.075712 9.2748032 0 true false,
     Portfolio.mkBall 1 172.075712 1057.075712 19.2630528 28.537856 true false).
Proof.
  rewrite (PortfolioImpact.resolve_approaching _ _ 10 crossing_distance);
    cbn [Portfolio.element Portfolio.x Portfolio.y Portfolio.vx Portfolio.vy
         Portfolio.active Portfolio.stopping];
    unfold Portfolio.ballRadius, Portfolio.ballBounceFactor; try lra.
  f_equal; f_equal; lra.
Qed.

Lemma crossing_step :
  Portfolio.animateAll crossingFrame crossingState
  = Portfolio.mkState
      [Portfolio.mkBall 0 152.075712 1057.075712 9.2748032 0 true false;
       Portfolio.mkBall 1 172.075712 1057.075712 19.2630528 28.537856 true false]
      [0%nat; 1%nat] 2 1100 true true.
Proof.
  unfold Portfolio.animateAll. cbn [Portfolio.balls crossingState].
  unfold Portfolio.beforePairs. rewrite crossing_delta.
  cbn [Portfolio.balls crossingState Portfolio.obstacleRects crossingFrame
       Portfolio.scrollY Portfolio.getObstacles flat_map].
  rewrite crossing_integrated.
  cbn [map Portfolio.collideObstacles Portfolio.active negb fold_left].
  unfold Portfolio.ballCollisions.
  cbn [length seq Nat.sub fold_left].
  unfold Portfolio.pairStep at 1. cbn [nth_error Portfolio.active andb].
  rewrite crossing_resolved. cbn [setNth].
  cbn [Portfolio.wallsAll].
  rewrite !PortfolioLoop.walls_untouched_v1;
    try reflexivity; try (unfold crossingFrame; cbn; unfold_v1; lra).
Qed.

(** C2, as stated, fails once two balls collide: both balls enter the
    step within the limit of 30, the falling one leaves it with velocity
    (19.2630528, 28.537856), a speed above 34. *)
Lemma C2_impulse_exceeds_limit :
  Portfolio.speed crossA <= Portfolio.maxVelocity
  /\ Portfolio.speed crossB <= Portfolio.maxVelocity
  /\ exists b',
      In b' (Portfolio.balls (Portfolio.animateAll crossingFrame crossingState))
      /\ Portfolio.maxVelocity < Portfolio.speed b'.
Proof.
  split; [| split].
  - apply PortfolioSpeed.bounded_speed. unfold Portfolio.bounded, crossA. cbn.
    unfold Portfolio.maxVelocity. lra.
  - apply PortfolioSpeed.bounded_speed. unfold Portfolio.bounded, crossB. cbn.
    unfold Portfolio.maxVelocity. lra.
  - rewrite crossing_step. cbn [Portfolio.balls].
    eexists. split; [right; left; reflexivity |].
    unfold Portfolio.speed. cbn [Portfolio.vx Portfolio.vy].
    apply sqrt_gt_bound; unfold Portfolio.maxVelocity; lra.
Qed.

(** * Further properties of the code *)

(** ** The clamp and the time step *)

Module PortfolioLaws.
Import Portfolio.

Lemma clamp_speed_v1 b : speed (clampVelocity b) = Rmin (speed b) maxVelocity.
Proof.
  unfold clampVelocity. fold (speed b).
  destruct (JS.gt (speed b) maxVelocity) eqn:E; reflect_guards.
  - rewrite Rmin_right by lra.
    unfold speed at 1. cbn [setVel vx vy]. unfold speed.
    rewrite scaled_to_limit by (unfold speed, maxVelocity in E; lra).
    apply sqrt_square. unfold maxVelocity. lra.
  - rewrite Rmin_left by exact E. reflexivity.
Qed.

Lemma clamp_scales_v1 b :
  exists k, 0 < k <= 1
            /\ vx (clampVelocity b) = k * vx b /\ vy (clampVelocity b) = k * vy b.
Proof.
  unfold clampVelocity. fold (speed b).
  destruct (JS.gt (speed b) maxVelocity) eqn:E; reflect_guards.
  - exists (maxVelocity / speed b). cbn [setVel vx vy].
    assert (Hs : 0 < speed b) by (unfold maxVelocity in E; lra).
    split; [| split; ring].
    split.
    + apply Rdiv_lt_0_compat; [unfold maxVelocity; lra | exact Hs].
    + apply (Rmult_le_reg_r (speed b)); [exact Hs |].
      unfold Rdiv. rewrite Rmult_assoc, Rinv_l by lra. lra.
  - exists 1. split; [lra | split; ring].
Qed.

Lemma clamp_idempotent_v1 b : clampVelocity (clampVelocity b) = clampVelocity b.
Proof.
  assert (Hs : speed (clampVelocity b) <= maxVelocity)
    by (rewrite clamp_speed_v1; apply Rmin_r).
  unfold clampVelocity at 1. fold (speed (clampVelocity b)).
  rewrite (proj2 (gt_false _ _)) by exact Hs. reflexivity.
Qed.

Lemma clamp_position_v1 b :
  x (clampVelocity b) = x b /\ y (clampVelocity b) = y b.
Proof. unfold clampVelocity. destruct (JS.gt _ _); cbn; auto. Qed.

Lemma frameDelta_range_v1 f st :
  frameDelta f st <= 2
  /\ (lastTime st <= currentTime f -> 0 <= frameDelta f st)
  /\ (lastTime st <> 0 -> currentTime f - lastTime st <= 33.34 ->
      frameDelta f st = (currentTime f - lastTime st) / 16.67).
Proof.
  unfold frameDelta. split; [apply Rmin_r |]. split.
  - intros Hle. destruct (JS.eq (lastTime st) 0).
    + replace ((currentTime f - currentTime f) / 16.67) with 0 by (field; lra).
      apply Rmin_glb; lra.
    + apply Rmin_glb; [| lra].
      apply Rmult_le_pos; [lra |]. apply Rlt_le, Rinv_0_lt_compat. lra.
  - intros Hne Hgap. rewrite (proj2 (eq_false _ _)) by exact Hne.
    apply Rmin_left. lra.
Qed.

End PortfolioLaws.

Module SpatialLaws.
Import Spatial.

Lemma clamp_speed_v2 b : speed (clampVelocity b) = Rmin (speed b) maxVelocity.
Proof.
  unfold clampVelocity. fold (speed b).
  destruct (JS.gt (speed b) maxVelocity) eqn:E; reflect_guards.
  - rewrite Rmin_right by lra.
    unfold speed at 1. cbn [setVel vx vy]. unfold speed.
    rewrite scaled_to_limit by (unfold speed, maxVelocity in E; lra).
    apply sqrt_square. unfold maxVelocity. lra.
  - rewrite Rmin_left by exact E. reflexivity.
Qed.

Lemma clamp_scales_v2 b :
  exists k, 0 < k <= 1
            /\ vx (clampVelocity b) = k * vx b /\ vy (clampVelocity b) = k * vy b.
Proof.
  unfold clampVelocity. fold (speed b).
  destruct (JS.gt (speed b) maxVelocity) eqn:E; reflect_guards.
  - exists (maxVelocity / speed b). cbn [setVel vx vy].
    assert (Hs : 0 < speed b) by (unfold maxVelocity in E; lra).
    split; [| split; ring].
    split.
    + apply Rdiv_lt_0_compat; [unfold maxVelocity; lra | exact Hs].
    + apply (Rmult_le_reg_r (speed b)); [exact Hs |].
      unfold Rdiv. rewrite Rmult_assoc, Rinv_l by lra. lra.
  - exists 1. split; [lra | split; ring].
Qed.

Lemma clamp_idempotent_v2 b : clampVelocity (clampVelocity b) = clampVelocity b.
Proof.
  assert (Hs : speed (clampVelocity b) <= maxVelocity)
    by (rewrite clamp_speed_v2; apply Rmin_r).
  unfold clampVelocity at 1. fold (speed (clampVelocity b)).
  rewrite (proj2 (gt_false _ _)) by exact Hs. reflexivity.
Qed.

Lemma clamp_position_v2 b :
  x (clampVelocity b) = x b /\ y (clampVelocity b) = y b.
Proof. unfold clampVelocity. destruct (JS.gt _ _); cbn; auto. Qed.

Lemma frameDelta_range_v2 f st :
  frameDelta f st <= 2
  /\ (lastTime st <= currentTime f -> 0 <= frameDelta f st)
  /\ (lastTime st <> 0 -> currentTime f - lastTime st <= 33.34 ->
      frameDelta f st = (currentTime f - lastTime st) / 16.67).
Proof.
  unfold frameDelta. split; [apply Rmin_r |]. split.
  - intros Hle. destruct (JS.eq (lastTime st) 0).
    + replace ((currentTime f - currentTime f) / 16.67) with 0 by (field; lra).
      apply Rmin_glb; lra.
    + apply Rmin_glb; [| lra].
      apply Rmult_le_pos; [lra |]. apply Rlt_le, Rinv_0_lt_compat. lra.
  - intros Hne Hgap. rewrite (proj2 (eq_false _ _)) by exact Hne.
    apply Rmin_left. lra.
Qed.

End SpatialLaws.

(** X1.  [clampVelocity], in both variants.  In exact arithmetic the
    speed afterwards is the smaller of the speed before and
    [maxVelocity], the velocity is the old one times a factor in (0, 1],
    so its direction is kept, the position is untouched, and clamping
    twice is clamping once.  In the script's doubles the rescale is
    rounded: the velocity (-40, -39.6) is clamped to one whose speed,
    computed as the script computes it, is still above [maxVelocity]
    (30.000000000000004 and 35.00000000000001), and a second call changes
    both components again. *)
Theorem X1_clamp_law_exact_and_rounded :
  (forall b,
      Portfolio.speed (Portfolio.clampVelocity b)
      = Rmin (Portfolio.speed b) Portfolio.maxVelocity
      /\ (exists k, 0 < k <= 1
                    /\ Portfolio.vx (Portfolio.clampVelocity b) = k * Portfolio.vx b
                    /\ Portfolio.vy (Portfolio.clampVelocity b) = k * Portfolio.vy b)
      /\ Portfolio.x (Portfolio.clampVelocity b) = Portfolio.x b
      /\ Portfolio.y (Portfolio.clampVelocity b) = Portfolio.y b
      /\ Portfolio.clampVelocity (Portfolio.clampVelocity b) = Portfolio.clampVelocity b)
  /\
  (forall b,
      Spatial.speed (Spatial.clampVelocity b)
      = Rmin (Spatial.speed b) Spatial.maxVelocity
      /\ (exists k, 0 < k <= 1
                    /\ Spatial.vx (Spatial.clampVelocity b) = k * Spatial.vx b
                    /\ Spatial.vy (Spatial.clampVelocity b) = k * Spatial.vy b)
      /\ Spatial.x (Spatial.clampVelocity b) = Spatial.x b
      /\ Spatial.y (Spatial.clampVelocity b) = Spatial.y b
      /\ Spatial.clampVelocity (Spatial.clampVelocity b) = Spatial.clampVelocity b)
  /\
  (Doubles.overLimit Doubles.portfolio
                     (Doubles.clampVelocity Doubles.portfolio Doubles.fast) = true
   /\ Doubles.sameVelocity
        (Doubles.clampVelocity Doubles.portfolio
                               (Doubles.clampVelocity Doubles.portfolio Doubles.fast))
        (Doubles.clampVelocity Doubles.portfolio Doubles.fast) = false
   /\ Doubles.overLimit Doubles.spatial
                        (Doubles.clampVelocity Doubles.spatial Doubles.fast) = true
   /\ Doubles.sameVelocity
        (Doubles.clampVelocity Doubles.spatial
                               (Doubles.clampVelocity Doubles.spatial Doubles.fast))
        (Doubles.clampVelocity Doubles.spatial Doubles.fast) = false).
Proof.
  split; [| split].
  - intros b.
    split; [apply PortfolioLaws.clamp_speed_v1 |].
    split; [apply PortfolioLaws.clamp_scales_v1 |].
    split; [apply PortfolioLaws.clamp_position_v1 |].
    split; [apply PortfolioLaws.clamp_position_v1 |].
    apply PortfolioLaws.clamp_idempotent_v1.
  - intros b.
    split; [apply SpatialLaws.clamp_speed_v2 |].
    split; [apply SpatialLaws.clamp_scales_v2 |].
    split; [apply SpatialLaws.clamp_position_v2 |].
    split; [apply SpatialLaws.clamp_position_v2 |].
    apply SpatialLaws.clamp_idempotent_v2.
  - repeat split; vm_compute; reflexivity.
Qed.

(** X2.  The time step of a frame, in both variants: it never exceeds 2;
    it is 0 on the first frame ([lastTime = 0]); it is not negative when
    the timestamp has not gone backwards; and for a gap of at most
    33.34ms after a frame that set [lastTime] it is the gap divided by
    16.67. *)
Theorem X2_time_step_range :
  (forall f st,
      Portfolio.frameDelta f st <= 2
      /\ (Portfolio.lastTime st = 0 -> Portfolio.frameDelta f st = 0)
      /\ (Portfolio.lastTime st <= Portfolio.currentTime f ->
          0 <= Portfolio.frameDelta f st)
      /\ (Portfolio.lastTime st <> 0 ->
          Portfolio.currentTime f - Portfolio.lastTime st <= 33.34 ->
          Portfolio.frameDelta f st
          = (Portfolio.currentTime f - Portfolio.lastTime st) / 16.67))
  /\
  (forall f st,
      Spatial.frameDelta f st <= 2
      /\ (Spatial.lastTime st = 0 -> Spatial.frameDelta f st = 0)
      /\ (Spatial.lastTime st <= Spatial.currentTime f ->
          0 <= Spatial.frameDelta f st)
      /\ (Spatial.lastTime st <> 0 ->
          Spatial.currentTime f - Spatial.lastTime st <= 33.34 ->
          Spatial.frameDelta f st
          = (Spatial.currentTime f - Spatial.lastTime st) / 16.67)).
Proof.
  split; intros f st.
  - destruct (PortfolioLaws.frameDelta_range_v1 f st) as (H1 & H2 & H3).
    split; [exact H1 |].
    split; [apply PortfolioLoop.frameDelta_first_v1 |].
    split; assumption.
  - destruct (SpatialLaws.frameDelta_range_v2 f st) as (H1 & H2 & H3).
    split; [exact H1 |].
    split; [apply SpatialLoop.frameDelta_first_v2 |].
    split; assumption.
Qed.

(** A frame 10ms after the previous one steps by 10 / 16.67; the first
    frame after start steps by 0. *)
Lemma X2_time_step_witness :
  (Portfolio.frameDelta soonFrame runningState = (1010 - 1000) / 16.67
   /\ 0 <= Portfolio.frameDelta soonFrame runningState
   /\ Portfolio.frameDelta firstFrame Portfolio.initial = 0)
  /\
  (Spatial.frameDelta soonFrame2 runningState2 = (1010 - 1000) / 16.67
   /\ 0 <= Spatial.frameDelta soonFrame2 runningState2
   /\ Spatial.frameDelta firstFrame2 Spatial.initial = 0).
Proof.
  destruct X2_time_step_range as [H1 H2].
  split.
  - destruct (H1 soonFrame runningState) as (_ & _ & Hpos & Hgap).
    destruct (H1 firstFrame Portfolio.initial) as (_ & Hfirst & _).
    split; [apply Hgap; cbn; lra |]. split; [apply Hpos; cbn; lra |].
    apply Hfirst. reflexivity.
  - destruct (H2 soonFrame2 runningState2) as (_ & _ & Hpos & Hgap).
    destruct (H2 firstFrame2 Spatial.initial) as (_ & Hfirst & _).
    split; [apply Hgap; cbn; lra |]. split; [apply Hpos; cbn; lra |].
    apply Hfirst. reflexivity.
Defined.

(** ** Rectangles: hit, miss and what a hit leaves behind *)

Module PortfolioEdges.
Import Portfolio.

Lemma checkRect_hit_iff b obs :
  otype obs = rect -> fst (checkRectCollision b obs) = overlaps b obs.
Proof.
  intros Ht. unfold checkRectCollision. rewrite Ht. cbn [isRect negb].
  destruct (overlaps b obs); [| reflexivity].
  destruct (JS.lt (minOverlapX b obs) _); destruct (JS.lt _ _); reflexivity.
Qed.

Lemma checkRect_miss b obs :
  fst (checkRectCollision b obs) = false -> snd (checkRectCollision b obs) = b.
Proof.
  unfold checkRectCollision.
  destruct (negb _); [reflexivity |].
  destruct (overlaps b obs); [| reflexivity].
  destruct (JS.lt (minOverlapX b obs) _); destruct (JS.lt _ _); discriminate.
Qed.

Lemma checkRect_clears b obs :
  otype obs = rect -> overlaps (snd (checkRectCollision b obs)) obs = false.
Proof.
  intros Ht. unfold checkRectCollision. rewrite Ht. cbn [isRect negb].
  destruct (overlaps b obs) eqn:Hov; [| exact Hov].
  destruct (JS.lt (minOverlapX b obs) _); destruct (JS.lt _ _);
    cbn [snd]; unfold overlaps; cbn [x y].
  - rewrite (proj2 (gt_false (left obs - ballRadius + ballRadius) (left obs))) by lra.
    reflexivity.
  - rewrite (proj2 (lt_false (right obs + ballRadius - ballRadius) (right obs))) by lra.
    rewrite andb_false_r. reflexivity.
  - rewrite (proj2 (gt_false (top obs - ballRadius + ballRadius) (top obs))) by lra.
    rewrite andb_false_r. reflexivity.
  - rewrite (proj2 (lt_false (bottom obs + ballRadius - ballRadius) (bottom obs))) by lra.
    rewrite andb_false_r. reflexivity.
Qed.

Lemma snap_cases v : snap v = 0 \/ (snap v = v /\ stopVelocity <= Rabs v).
Proof.
  unfold snap. destruct (JS.lt _ _) eqn:E; reflect_guards; auto.
Qed.

Lemma snap_down v c :
  0 <= c ->
  snap (- Rabs v * c) <= 0
  /\ (snap (- Rabs v * c) = 0
      \/ (Rabs (snap (- Rabs v * c)) = c * Rabs v
          /\ stopVelocity <= Rabs (snap (- Rabs v * c)))).
Proof.
  intros Hc. pose proof (Rabs_pos v) as Hv.
  assert (Hneg : - Rabs v * c <= 0) by nra.
  destruct (snap_cases (- Rabs v * c)) as [-> | [-> Hs]].
  - split; [lra | left; reflexivity].
  - split; [exact Hneg |]. right. split; [| exact Hs].
    rewrite Rabs_left1 by exact Hneg. ring.
Qed.

Lemma snap_up v c :
  0 <= c ->
  0 <= snap (Rabs v * c)
  /\ (snap (Rabs v * c) = 0
      \/ (Rabs (snap (Rabs v * c)) = c * Rabs v
          /\ stopVelocity <= Rabs (snap (Rabs v * c)))).
Proof.
  intros Hc. pose proof (Rabs_pos v) as Hv.
  assert (Hpos : 0 <= Rabs v * c) by nra.
  destruct (snap_cases (Rabs v * c)) as [-> | [-> Hs]].
  - split; [lra | left; reflexivity].
  - split; [exact Hpos |]. right. split; [| exact Hs].
    rewrite Rabs_right by lra. ring.
Qed.

Lemma checkRect_rebound b obs :
  otype obs = rect -> overlaps b obs = true ->
  let b' := snd (checkRectCollision b obs) in
  (minOverlapX b obs < minOverlapY b obs ->
   (overlapLeft b obs < overlapRight b obs -> vx b' <= 0)
   /\ (overlapRight b obs <= overlapLeft b obs -> 0 <= vx b')
   /\ (vx b' = 0
       \/ (Rabs (vx b') = bounceFactor * Rabs (vx b)
           /\ stopVelocity <= Rabs (vx b'))))
  /\ (minOverlapY b obs <= minOverlapX b obs ->
      (overlapTop b obs < overlapBottom b obs -> vy b' <= 0)
      /\ (overlapBottom b obs <= overlapTop b obs -> 0 <= vy b')
      /\ (vy b' = 0
          \/ (Rabs (vy b') = bounceFactor * Rabs (vy b)
              /\ stopVelocity <= Rabs (vy b')))).
Proof.
  intros Ht Hov b'. subst b'. unfold checkRectCollision. rewrite Ht, Hov.
  cbn [isRect negb].
  assert (Hc : 0 <= bounceFactor) by (unfold bounceFactor; lra).
  destruct (snap_down (vx b) bounceFactor Hc) as [Hxd Hxd'].
  destruct (snap_up (vx b) bounceFactor Hc) as [Hxu Hxu'].
  destruct (snap_down (vy b) bounceFactor Hc) as [Hyd Hyd'].
  destruct (snap_up (vy b) bounceFactor Hc) as [Hyu Hyu'].
  destruct (JS.lt (minOverlapX b obs) (minOverlapY b obs)) eqn:Eaxis;
    reflect_guards; split; intros Hcmp; try lra.
  - destruct (JS.lt (overlapLeft b obs) (overlapRight b obs)) eqn:Eside;
      reflect_guards; cbn [snd vx];
      (split; [intros; lra || assumption | split; [intros; lra || assumption | assumption]]).
  - destruct (JS.lt (overlapTop b obs) (overlapBottom b obs)) eqn:Eside;
      reflect_guards; cbn [snd vy];
      (split; [intros; lra || assumption | split; [intros; lra || assumption | assumption]]).
Qed.

End PortfolioEdges.

Module SpatialEdges.
Import Spatial.

Lemma checkRect_hit_iff_v2 b o :
  fst (checkRectCollision b (RectObstacle o)) = overlaps b o.
Proof.
  unfold checkRectCollision.
  destruct (overlaps b o); [| reflexivity].
  destruct (JS.lt (minOverlapX b o) _); destruct (JS.lt _ _); reflexivity.
Qed.

Lemma checkRect_miss_v2 b obs :
  fst (checkRectCollision b obs) = false -> snd (checkRectCollision b obs) = b.
Proof.
  unfold checkRectCollision. destruct obs as [o | o w h m]; [| reflexivity].
  destruct (overlaps b o); [| reflexivity].
  destruct (JS.lt (minOverlapX b o) _); destruct (JS.lt _ _); discriminate.
Qed.

Lemma checkRect_clears_v2 b o :
  overlaps (snd (checkRectCollision b (RectObstacle o))) o = false.
Proof.
  unfold checkRectCollision.
  destruct (overlaps b o) eqn:Hov; [| exact Hov].
  destruct (JS.lt (minOverlapX b o) _); destruct (JS.lt _ _);
    cbn [snd]; unfold overlaps; cbn [x y setRotation setVel setPos].
  - rewrite (proj2 (gt_false (left o - ballRadius + ballRadius) (left o))) by lra.
    reflexivity.
  - rewrite (proj2 (lt_false (right o + ballRadius - ballRadius) (right o))) by lra.
    rewrite andb_false_r. reflexivity.
  - rewrite (proj2 (gt_false (top o - ballRadius + ballRadius) (top o))) by lra.
    rewrite andb_false_r. reflexivity.
  - rewrite (proj2 (lt_false (bottom o + ballRadius - ballRadius) (bottom o))) by lra.
    rewrite andb_false_r. reflexivity.
Qed.

Lemma snap_cases_v2 v : snap v = 0 \/ (snap v = v /\ stopVelocity <= Rabs v).
Proof.
  unfold snap. destruct (JS.lt _ _) eqn:E; reflect_guards; auto.
Qed.

Lemma snap_down_v2 v c :
  0 <= c ->
  snap (- Rabs v * c) <= 0
  /\ (snap (- Rabs v * c) = 0
      \/ (Rabs (snap (- Rabs v * c)) = c * Rabs v
          /\ stopVelocity <= Rabs (snap (- Rabs v * c)))).
Proof.
  intros Hc. pose proof (Rabs_pos v) as Hv.
  assert (Hneg : - Rabs v * c <= 0) by nra.
  destruct (snap_cases_v2 (- Rabs v * c)) as [-> | [-> Hs]].
  - split; [lra | left; reflexivity].
  - split; [exact Hneg |]. right. split; [| exact Hs].
    rewrite Rabs_left1 by exact Hneg. ring.
Qed.

Lemma snap_up_v2 v c :
  0 <= c ->
  0 <= snap (Rabs v * c)
  /\ (snap (Rabs v * c) = 0
      \/ (Rabs (snap (Rabs v * c)) = c * Rabs v
          /\ stopVelocity <= Rabs (snap (Rabs v * c)))).
Proof.
  intros Hc. pose proof (Rabs_pos v) as Hv.
  assert (Hpos : 0 <= Rabs v * c) by nra.
  destruct (snap_cases_v2 (Rabs v * c)) as [-> | [-> Hs]].
  - split; [lra | left; reflexivity].
  - split; [exact Hpos |]. right. split; [| exact Hs].
    rewrite Rabs_right by lra. ring.
Qed.

Lemma checkRect_rebound_v2 b o :
  overlaps b o = true ->
  let b' := snd (checkRectCollision b (RectObstacle o)) in
  (minOverlapX b o < minOverlapY b o ->
   (overlapLeft b o < overlapRight b o -> vx b' <= 0)
   /\ (overlapRight b o <= overlapLeft b o -> 0 <= vx b')
   /\ (vx b' = 0
       \/ (Rabs (vx b') = bounceFactor * Rabs (vx b)
           /\ stopVelocity <= Rabs (vx b'))))
  /\ (minOverlapY b o <= minOverlapX b o ->
      (overlapTop b o < overlapBottom b o -> vy b' <= 0)
      /\ (overlapBottom b o <= overlapTop b o -> 0 <= vy b')
      /\ (vy b' = 0
          \/ (Rabs (vy b') = bounceFactor * Rabs (vy b)
              /\ stopVelocity <= Rabs (vy b')))).
Proof.
  intros Hov b'. subst b'. unfold checkRectCollision. rewrite Hov.
  assert (Hc : 0 <= bounceFactor) by (unfold bounceFactor; lra).
  destruct (snap_down_v2 (vx b) bounceFactor Hc) as [Hxd Hxd'].
  destruct (snap_up_v2 (vx b) bounceFactor Hc) as [Hxu Hxu'].
  destruct (snap_down_v2 (vy b) bounceFactor Hc) as [Hyd Hyd'].
  destruct (snap_up_v2 (vy b) bounceFactor Hc) as [Hyu Hyu'].
  destruct (JS.lt (minOverlapX b o) (minOverlapY b o)) eqn:Eaxis;
    reflect_guards; split; intros Hcmp; try lra.
  - destruct (JS.lt (overlapLeft b o) (overlapRight b o)) eqn:Eside;
      reflect_guards; cbn [snd vx setRotation setVel setPos];
      (split; [intros; lra || assumption | split; [intros; lra || assumption | assumption]]).
  - destruct (JS.lt (overlapTop b o) (overlapBottom b o)) eqn:Eside;
      reflect_guards; cbn [snd vy setVel setPos];
      (split; [intros; lra || assumption | split; [intros; lra || assumption | assumption]]).
Qed.

End SpatialEdges.

(** X3.  [checkRectCollision], in both variants: it reports a hit exactly
    when the ball's bounding square overlaps the rectangle, and on a miss
    the ball is returned unchanged.  In exact arithmetic the ball no
    longer overlaps the rectangle after the call, so a second call is a
    miss.  In the script's doubles it can: put against the left edge at
    0.4, the ball's right side [(0.4 - ballRadius) + ballRadius] is
    0.40000000000000036, so a second call hits again and damps the
    horizontal velocity once more. *)
Theorem X3_rect_hit_miss_and_repeat_hit :
  (forall b obs,
      Portfolio.otype obs = rect ->
      fst (Portfolio.checkRectCollision b obs) = Portfolio.overlaps b obs
      /\ Portfolio.overlaps (snd (Portfolio.checkRectCollision b obs)) obs = false
      /\ fst (Portfolio.checkRectCollision
                (snd (Portfolio.checkRectCollision b obs)) obs) = false)
  /\ (forall b obs,
         fst (Portfolio.checkRectCollision b obs) = false ->
         snd (Portfolio.checkRectCollision b obs) = b)
  /\ (forall b o,
         fst (Spatial.checkRectCollision b (Spatial.RectObstacle o))
         = Spatial.overlaps b o
         /\ Spatial.overlaps
              (snd (Spatial.checkRectCollision b (Spatial.RectObstacle o))) o = false
         /\ fst (Spatial.checkRectCollision
                   (snd (Spatial.checkRectCollision b (Spatial.RectObstacle o)))
                   (Spatial.RectObstacle o)) = false)
  /\ (forall b obs,
         fst (Spatial.checkRectCollision b obs) = false ->
         snd (Spatial.checkRectCollision b obs) = b)
  /\ (let once := Doubles.checkRectCollision Doubles.portfolio
                                             Doubles.edgeBall Doubles.edgeBox in
      let twice := Doubles.checkRectCollision Doubles.portfolio
                                              (snd once) Doubles.edgeBox in
      fst once = true /\ fst twice = true
      /\ Doubles.same (Doubles.vx (snd twice)) (Doubles.vx (snd once)) = false)
  /\ (let once := Doubles.checkRectCollision Doubles.spatial
                                             Doubles.edgeBall Doubles.edgeBox in
      let twice := Doubles.checkRectCollision Doubles.spatial
                                              (snd once) Doubles.edgeBox in
      fst once = true /\ fst twice = true
      /\ Doubles.same (Doubles.vx (snd twice)) (Doubles.vx (snd once)) = false).
Proof.
  split; [| split; [| split; [| split; [| split]]]];
    [| | | | repeat split; vm_compute; reflexivity
     | repeat split; vm_compute; reflexivity].
  - intros b obs Ht.
    split; [apply PortfolioEdges.checkRect_hit_iff, Ht |].
    split; [apply PortfolioEdges.checkRect_clears, Ht |].
    rewrite PortfolioEdges.checkRect_hit_iff by exact Ht.
    apply PortfolioEdges.checkRect_clears, Ht.
  - apply PortfolioEdges.checkRect_miss.
  - intros b o.
    split; [apply SpatialEdges.checkRect_hit_iff_v2 |].
    split; [apply SpatialEdges.checkRect_clears_v2 |].
    rewrite SpatialEdges.checkRect_hit_iff_v2.
    apply SpatialEdges.checkRect_clears_v2.
  - apply SpatialEdges.checkRect_miss_v2.
Qed.

(** The corner ball is hit once and clear afterwards. *)
Lemma X3_rect_witness :
  fst (Portfolio.checkRectCollision cornerBall box) = true
  /\ fst (Portfolio.checkRectCollision
            (snd (Portfolio.checkRectCollision cornerBall box)) box) = false.
Proof.
  destruct X3_rect_hit_miss_and_repeat_hit as (H1 & _).
  destruct (H1 cornerBall box eq_refl) as (Hhit & _ & Hclear).
  split; [rewrite Hhit; exact cornerBall_overlaps | exact Hclear].
Defined.

(** X4.  The rebound off a rectangle, in both variants: the velocity
    component along the resolved axis ends pointing away from the edge
    the ball was put against (whatever its sign was), and it is either
    exactly 0 or has magnitude [bounceFactor] times the old magnitude and
    at least [stopVelocity]. *)
Theorem X4_rebound_points_away_or_stops :
  (forall b obs,
      Portfolio.otype obs = rect -> Portfolio.overlaps b obs = true ->
      let b' := snd (Portfolio.checkRectCollision b obs) in
      (Portfolio.minOverlapX b obs < Portfolio.minOverlapY b obs ->
       (Portfolio.overlapLeft b obs < Portfolio.overlapRight b obs ->
        Portfolio.vx b' <= 0)
       /\ (Portfolio.overlapRight b obs <= Portfolio.overlapLeft b obs ->
           0 <= Portfolio.vx b')
       /\ (Portfolio.vx b' = 0
           \/ (Rabs (Portfolio.vx b') = Portfolio.bounceFactor * Rabs (Portfolio.vx b)
               /\ Portfolio.stopVelocity <= Rabs (Portfolio.vx b'))))
      /\ (Portfolio.minOverlapY b obs <= Portfolio.minOverlapX b obs ->
          (Portfolio.overlapTop b obs < Portfolio.overlapBottom b obs ->
           Portfolio.vy b' <= 0)
          /\ (Portfolio.overlapBottom b obs <= Portfolio.overlapTop b obs ->
              0 <= Portfolio.vy b')
          /\ (Portfolio.vy b' = 0
              \/ (Rabs (Portfolio.vy b') = Portfolio.bounceFactor * Rabs (Portfolio.vy b)
                  /\ Portfolio.stopVelocity <= Rabs (Portfolio.vy b')))))
  /\
  (forall b o,
      Spatial.overlaps b o = true ->
      let b' := snd (Spatial.checkRectCollision b (Spatial.RectObstacle o)) in
      (Spatial.minOverlapX b o < Spatial.minOverlapY b o ->
       (Spatial.overlapLeft b o < Spatial.overlapRight b o -> Spatial.vx b' <= 0)
       /\ (Spatial.overlapRight b o <= Spatial.overlapLeft b o -> 0 <= Spatial.vx b')
       /\ (Spatial.vx b' = 0
           \/ (Rabs (Spatial.vx b') = Spatial.bounceFactor * Rabs (Spatial.vx b)
               /\ Spatial.stopVelocity <= Rabs (Spatial.vx b'))))
      /\ (Spatial.minOverlapY b o <= Spatial.minOverlapX b o ->
          (Spatial.overlapTop b o < Spatial.overlapBottom b o -> Spatial.vy b' <= 0)
          /\ (Spatial.overlapBottom b o <= Spatial.overlapTop b o -> 0 <= Spatial.vy b')
          /\ (Spatial.vy b' = 0
              \/ (Rabs (Spatial.vy b') = Spatial.bounceFactor * Rabs (Spatial.vy b)
                  /\ Spatial.stopVelocity <= Rabs (Spatial.vy b'))))).
Proof.
  split.
  - intros b obs Ht Hov. apply (PortfolioEdges.checkRect_rebound b obs Ht Hov).
  - intros b o Hov. apply (SpatialEdges.checkRect_rebound_v2 b o Hov).
Qed.

(** The side ball, moving right at 3, leaves the left edge moving left. *)
Lemma X4_rebound_witness :
  Portfolio.vx (snd (Portfolio.checkRectCollision sideBall box)) <= 0
  /\ Spatial.vx (snd (Spatial.checkRectCollision sideBall2 (Spatial.RectObstacle box2)))
     <= 0.
Proof.
  destruct X4_rebound_points_away_or_stops as [H1 H2].
  split.
  - destruct (H1 sideBall box eq_refl sideBall_overlaps) as [Hx _].
    destruct (Hx sideBall_x_first) as (Hleft & _).
    apply Hleft.
    unfold Portfolio.overlapLeft, Portfolio.overlapRight, sideBall, box. cbn.
    unfold_v1. lra.
  - destruct (H2 sideBall2 box2 sideBall2_overlaps) as [Hx _].
    destruct (Hx sideBall2_x_first) as (Hleft & _).
    apply Hleft.
    unfold Spatial.overlapLeft, Spatial.overlapRight, sideBall2, box2. cbn.
    unfold_v2. lra.
Defined.

(** ** Ball against ball: restitution and the midpoint *)


Module PortfolioBounce.
Import Portfolio.



Lemma resolve_midpoint a b :
  x (fst (resolveBallCollision a b)) + x (snd (resolveBallCollision a b)) = x a + x b
  /\ y (fst (resolveBallCollision a b)) + y (snd (resolveBallCollision a b)) = y a + y b.
Proof.
  unfold resolveBallCollision. cbv zeta.
  destruct (JS.eq _ 0); destruct (JS.lt _ (ballRadius * 2));
    try (cbn; split; ring);
    (destruct (JS.gt _ 0); cbn [fst snd setPos setVel x y]; split; ring).
Qed.

Lemma resolve_keeps_identity a b :
  element (fst (resolveBallCollision a b)) = element a
  /\ active (fst (resolveBallCollision a b)) = active a
  /\ element (snd (resolveBallCollision a b)) = element b
  /\ active (snd (resolveBallCollision a b)) = active b.
Proof.
  unfold resolveBallCollision. cbv zeta.
  destruct (JS.eq _ 0); destruct (JS.lt _ (ballRadius * 2));
    try (cbn; auto);
    (destruct (JS.gt _ 0); cbn; auto).
Qed.

End PortfolioBounce.

Module SpatialBounce.
Import Spatial.



Lemma resolve_midpoint_v2 ra rb a b :
  x (fst (resolveBallCollision ra rb a b)) + x (snd (resolveBallCollision ra rb a b))
  = x a + x b
  /\ y (fst (resolveBallCollision ra rb a b)) + y (snd (resolveBallCollision ra rb a b))
     = y a + y b.
Proof.
  unfold resolveBallCollision. cbv zeta.
  destruct (JS.eq _ 0); destruct (JS.lt _ (ballRadius * 2));
    try (cbn; split; ring);
    (destruct (JS.gt _ 0); cbn [fst snd setPos setVel setRotation x y]; split; ring).
Qed.

Lemma resolve_keeps_identity_v2 ra rb a b :
  element (fst (resolveBallCollision ra rb a b)) = element a
  /\ active (fst (resolveBallCollision ra rb a b)) = active a
  /\ element (snd (resolveBallCollision ra rb a b)) = element b
  /\ active (snd (resolveBallCollision ra rb a b)) = active b.
Proof.
  unfold resolveBallCollision. cbv zeta.
  destruct (JS.eq _ 0); destruct (JS.lt _ (ballRadius * 2));
    try (cbn; auto);
    (destruct (JS.gt _ 0); cbn; auto).
Qed.

End SpatialBounce.



Lemma far_distance_v1 : Portfolio.centreDistance farA farB = 40.
Proof.
  unfold Portfolio.centreDistance, farA, farB. cbn.
  replace ((40 - 0) * (40 - 0) + (0 - 0) * (0 - 0)) with (40 * 40 + 0 * 0) by ring.
  apply sqrt_axis. lra.
Qed.

Lemma far_distance_v2 : Spatial.centreDistance farA2 farB2 = 40.
Proof.
  unfold Spatial.centreDistance, farA2, farB2. cbn.
  replace ((40 - 0) * (40 - 0) + (0 - 0) * (0 - 0)) with (40 * 40 + 0 * 0) by ring.
  apply sqrt_axis. lra.
Qed.



(** X6.  [resolveBallCollision] on positions, in both variants: a pair
    whose centres are one diameter or more apart is returned exactly as
    it came.  In exact arithmetic the midpoint of the two centres is the
    same before and after, for every pair.  In the script's doubles the
    two moves [a.x -= nx * separation] and [b.x += nx * separation] are
    rounded one by one, and the midpoint shifts in the last digit: for
    the balls at (0, 0) and (3, 8) of variant 1, and at (0, 0) and (3, 4)
    of variant 2, [x_a + x_b] goes from 3 to 3.0000000000000004 and to
    2.999999999999999. *)
Theorem X6_distant_pair_untouched_midpoint_to_rounding :
  (forall a b,
      Portfolio.x (fst (Portfolio.resolveBallCollision a b))
      + Portfolio.x (snd (Portfolio.resolveBallCollision a b))
      = Portfolio.x a + Portfolio.x b
      /\ Portfolio.y (fst (Portfolio.resolveBallCollision a b))
         + Portfolio.y (snd (Portfolio.resolveBallCollision a b))
         = Portfolio.y a + Portfolio.y b)
  /\ (forall a b,
         Portfolio.ballRadius * 2 <= Portfolio.centreDistance a b ->
         Portfolio.resolveBallCollision a b = (a, b))
  /\ (forall ra rb a b,
         Spatial.x (fst (Spatial.resolveBallCollision ra rb a b))
         + Spatial.x (snd (Spatial.resolveBallCollision ra rb a b))
         = Spatial.x a + Spatial.x b
         /\ Spatial.y (fst (Spatial.resolveBallCollision ra rb a b))
            + Spatial.y (snd (Spatial.resolveBallCollision ra rb a b))
            = Spatial.y a + Spatial.y b)
  /\ (forall ra rb a b,
         Spatial.ballRadius * 2 <= Spatial.centreDistance a b ->
         Spatial.resolveBallCollision ra rb a b = (a, b))
  /\ Doubles.same
       (Doubles.sumX (Doubles.resolveBallCollision Doubles.portfolio
                                                   Doubles.leftBall Doubles.rightBall1))
       (Doubles.sumX (Doubles.leftBall, Doubles.rightBall1)) = false
  /\ Doubles.same
       (Doubles.sumX (Doubles.resolveBallCollision Doubles.spatial
                                                   Doubles.leftBall Doubles.rightBall2))
       (Doubles.sumX (Doubles.leftBall, Doubles.rightBall2)) = false.
Proof.
  split; [| split; [| split; [| split; [| split]]]].
  - apply PortfolioBounce.resolve_midpoint.
  - apply PortfolioSpeed.resolve_apart.
  - apply SpatialBounce.resolve_midpoint_v2.
  - apply SpatialSpeed.resolve_apart_v2.
  - vm_compute. reflexivity.
  - vm_compute. reflexivity.
Qed.

(** Two balls 40 apart pass each other by. *)
Lemma X6_distant_pair_witness :
  Portfolio.resolveBallCollision farA farB = (farA, farB)
  /\ Spatial.resolveBallCollision 0.5 0.5 farA2 farB2 = (farA2, farB2).
Proof.
  destruct X6_distant_pair_untouched_midpoint_to_rounding as (_ & H1 & _ & H2 & _).
  split.
  - apply H1. rewrite far_distance_v1. unfold Portfolio.ballRadius. lra.
  - apply H2. rewrite far_distance_v2. unfold Spatial.ballRadius. lra.
Defined.

(** ** What a frame leaves in the array *)

Lemma map_setNth {A B : Type} (g : A -> B) (i : nat) (v : A) (l : list A) :
  map g (setNth i v l) = setNth i (g v) (map g l).
Proof.
  revert i; induction l as [| h tl IH]; intros [| i]; cbn; try reflexivity.
  rewrite IH. reflexivity.
Qed.

Lemma map_setNth_same {A B : Type} (g : A -> B) (i : nat) (a a' : A) (l : list A) :
  nth_error l i = Some a -> g a' = g a -> map g (setNth i a' l) = map g l.
Proof.
  intros Hn Hg. rewrite map_setNth, Hg.
  apply setNth_same. apply map_nth_error. exact Hn.
Qed.

Lemma fold_left_invariant {A B : Type} (P : A -> Prop) (g : A -> B -> A)
      (l : list B) (a : A) :
  (forall acc x, P acc -> P (g acc x)) -> P a -> P (fold_left g l a).
Proof.
  intros Hstep. revert a. induction l as [| x tl IH]; intros a Ha; [exact Ha |].
  cbn. apply IH. apply Hstep. exact Ha.
Qed.

Lemma detach_absent (e : nat) (l : list nat) : ~ In e l -> detach e l = l.
Proof.
  induction l as [| h tl IH]; intros Hn; [reflexivity |].
  cbn. destruct (Nat.eqb_spec h e) as [-> | Hne].
  - exfalso. apply Hn. left. reflexivity.
  - cbn. f_equal. apply IH. intros Hin. apply Hn. right. exact Hin.
Qed.

Lemma detach_middle (e : nat) (pre post : list nat) :
  NoDup (pre ++ e :: post) -> detach e (pre ++ e :: post) = pre ++ post.
Proof.
  intros Hnd. assert (Hnot := NoDup_remove_2 _ _ _ Hnd).
  unfold detach. rewrite filter_app. cbn [filter].
  rewrite Nat.eqb_refl. cbn [negb].
  fold (detach e pre). fold (detach e post).
  rewrite !detach_absent; [reflexivity | |];
    intros Hin; apply Hnot, in_or_app; auto.
Qed.

Module PortfolioFrame.
Import Portfolio PortfolioRun.

Lemma integrate_tag dt b : tag (integrate dt b) = tag b.
Proof.
  unfold integrate, tag. destruct (active b) eqn:Ha; cbn [negb]; [| rewrite Ha; reflexivity].
  unfold move, clampVelocity, applyAirResistance, applyGravity.
  cbv zeta. destruct (JS.gt _ maxVelocity); cbn; rewrite Ha; reflexivity.
Qed.

Lemma checkRect_tag b obs : tag (snd (checkRectCollision b obs)) = tag b.
Proof.
  unfold checkRectCollision, tag.
  destruct (negb (isRect (otype obs))); [reflexivity |].
  destruct (overlaps b obs); [| reflexivity].
  destruct (JS.lt (minOverlapX b obs) (minOverlapY b obs));
    [destruct (JS.lt (overlapLeft b obs) (overlapRight b obs))
    | destruct (JS.lt (overlapTop b obs) (overlapBottom b obs))]; reflexivity.
Qed.

Lemma collideObstacles_tag obstacles b : tag (collideObstacles obstacles b) = tag b.
Proof.
  unfold collideObstacles. destruct (negb (active b)); [reflexivity |].
  apply (fold_left_invariant (fun acc => tag acc = tag b)); [| reflexivity].
  intros acc obs Hacc. rewrite checkRect_tag. exact Hacc.
Qed.

Lemma beforePairs_tags f st : map tag (beforePairs f st) = map tag (balls st).
Proof.
  unfold beforePairs. cbv zeta. rewrite !map_map.
  apply map_ext. intros b. rewrite collideObstacles_tag. apply integrate_tag.
Qed.

Lemma resolve_tag a b :
  tag (fst (resolveBallCollision a b)) = tag a
  /\ tag (snd (resolveBallCollision a b)) = tag b.
Proof.
  destruct (PortfolioBounce.resolve_keeps_identity a b) as (H1 & H2 & H3 & H4).
  unfold tag. rewrite H1, H2, H3, H4. auto.
Qed.

Lemma pairStep_tags bs i j : map tag (pairStep bs i j) = map tag bs.
Proof.
  unfold pairStep.
  destruct (nth_error bs i) as [a |] eqn:Hi; [| reflexivity].
  destruct (nth_error bs j) as [b |] eqn:Hj; [| reflexivity].
  destruct (active a && active b); [| reflexivity].
  destruct (resolve_tag a b) as [Ha Hb].
  destruct (resolveBallCollision a b) as [a' b']. cbn [fst snd] in *.
  rewrite map_setNth, Hb, map_setNth, Ha.
  rewrite (setNth_same i (tag a)) by (apply map_nth_error; exact Hi).
  apply setNth_same. apply map_nth_error. exact Hj.
Qed.

Lemma ballCollisions_tags bs : map tag (ballCollisions bs) = map tag bs.
Proof.
  unfold ballCollisions.
  apply (fold_left_invariant (fun acc => map tag acc = map tag bs)); [| reflexivity].
  intros acc i Hacc.
  apply (fold_left_invariant (fun acc => map tag acc = map tag bs)); [| exact Hacc].
  intros acc' j Hacc'. rewrite pairStep_tags. exact Hacc'.
Qed.

Lemma leftWall_facts b :
  ballRadius <= x (leftWall b) /\ y (leftWall b) = y b
  /\ tag (leftWall b) = tag b.
Proof.
  unfold leftWall, tag. destruct (JS.lt (x b - ballRadius) 0) eqn:H; cbn.
  - repeat split; lra.
  - apply lt_false in H. repeat split; lra.
Qed.

Lemma rightWall_facts w b :
  x (rightWall w b) <= w - ballRadius
  /\ (ballRadius * 2 <= w -> ballRadius <= x b -> ballRadius <= x (rightWall w b))
  /\ y (rightWall w b) = y b /\ tag (rightWall w b) = tag b.
Proof.
  unfold rightWall, tag. destruct (JS.gt (x b + ballRadius) w) eqn:H; cbn.
  - repeat split; intros; lra.
  - apply gt_false in H. repeat split; intros; lra.
Qed.

Lemma ceiling_facts sy b :
  sy + ballRadius <= y (ceiling sy b) /\ x (ceiling sy b) = x b
  /\ tag (ceiling sy b) = tag b.
Proof.
  unfold ceiling, tag. destruct (JS.lt (y b - ballRadius) sy) eqn:H; cbn.
  - repeat split; lra.
  - apply lt_false in H. repeat split; lra.
Qed.

Lemma walls_element f b d : element (fst (walls f b d)) = element b.
Proof.
  unfold walls. destruct (negb (active b)); [reflexivity |]. cbv zeta.
  destruct (ceiling_facts (scrollY f) (rightWall (clientWidth f) (leftWall b)))
    as (_ & _ & Hc).
  destruct (rightWall_facts (clientWidth f) (leftWall b)) as (_ & _ & _ & Hr).
  destruct (leftWall_facts b) as (_ & _ & Hl).
  assert (He : element (ceiling (scrollY f) (rightWall (clientWidth f) (leftWall b)))
               = element b).
  { change (fst (tag (ceiling (scrollY f) (rightWall (clientWidth f) (leftWall b))))
            = fst (tag b)).
    rewrite Hc, Hr, Hl. reflexivity. }
  destruct (JS.gt _ (scrollHeight f + 50)); cbn; exact He.
Qed.

(** A ball that is still active after the wall pass is inside the
    document. *)
Lemma walls_contained f b d :
  ballRadius * 2 <= clientWidth f ->
  active (fst (walls f b d)) = true -> contained f (fst (walls f b d)).
Proof.
  intros Hw. unfold walls. destruct (active b) eqn:Ha; cbn [negb];
    [| cbn [fst]; congruence].
  cbv zeta.
  destruct (ceiling_facts (scrollY f) (rightWall (clientWidth f) (leftWall b)))
    as (Hcy & Hcx & _).
  destruct (rightWall_facts (clientWidth f) (leftWall b)) as (Hrx & Hrl & _ & _).
  destruct (leftWall_facts b) as (Hlx & _ & _).
  specialize (Hrl Hw Hlx).
  set (b3 := ceiling (scrollY f) (rightWall (clientWidth f) (leftWall b))) in *.
  destruct (JS.gt (y b3 - ballRadius) (scrollHeight f + 50)) eqn:Hfall;
    cbn [fst]; [cbn; discriminate |].
  intros _. apply gt_false in Hfall. unfold contained.
  rewrite Hcx. repeat split; lra.
Qed.

Lemma wallsAll_elements f bs d :
  map element (fst (wallsAll f bs d)) = map element bs.
Proof.
  revert d. induction bs as [| b tl IH]; intros d; [reflexivity |].
  cbn [wallsAll]. assert (He := walls_element f b d).
  destruct (walls f b d) as [b' d']. specialize (IH d').
  destruct (wallsAll f tl d') as [tl' d'']. cbn [fst map] in *.
  rewrite He, IH. reflexivity.
Qed.

Lemma animateAll_balls f st :
  balls (animateAll f st)
  = filter active (fst (wallsAll f (ballCollisions (beforePairs f st)) (dom st))).
Proof.
  unfold animateAll. destruct (balls st) as [| b0 tl] eqn:Hb.
  - unfold beforePairs. rewrite Hb. reflexivity.
  - cbv zeta.
    destruct (wallsAll f (ballCollisions (beforePairs f st)) (dom st)) as [bs4 d].
    cbn [fst]. destruct (existsb active (filter active bs4)); reflexivity.
Qed.

Lemma frame_elements f st :
  map element (fst (wallsAll f (ballCollisions (beforePairs f st)) (dom st)))
  = map element (balls st).
Proof.
  rewrite wallsAll_elements.
  assert (H : map tag (ballCollisions (beforePairs f st)) = map tag (balls st))
    by (rewrite ballCollisions_tags; apply beforePairs_tags).
  apply (f_equal (map fst)) in H. rewrite !map_map in H. exact H.
Qed.

Lemma frame_output f st :
  (forall b', In b' (balls (animateAll f st)) ->
              active b' = true /\ In (element b') (map element (balls st)))
  /\ (length (balls (animateAll f st)) <= length (balls st))%nat.
Proof.
  rewrite animateAll_balls. split.
  - intros b' Hin. apply filter_In in Hin. destruct Hin as [Hin Hact].
    split; [exact Hact |]. rewrite <- (frame_elements f st).
    apply in_map. exact Hin.
  - etransitivity; [apply filter_length_le |].
    rewrite <- (length_map element), frame_elements, length_map. reflexivity.
Qed.

Lemma frame_contained f st b' :
  ballRadius * 2 <= clientWidth f ->
  In b' (balls (animateAll f st)) -> contained f b'.
Proof.
  intros Hw. rewrite animateAll_balls. intros Hin.
  apply filter_In in Hin. destruct Hin as [Hin Hact].
  apply PortfolioSpeed.wallsAll_members in Hin.
  destruct Hin as (b & d0 & _ & ->).
  apply walls_contained; assumption.
Qed.

End PortfolioFrame.

Module SpatialFrame.
Import Spatial SpatialRun.

Lemma spin_element dt b : element (spin dt b) = element b.
Proof. unfold spin. cbv zeta. destruct (JS.eq (rotation b) 0); reflexivity. Qed.

Lemma clampVelocity_element b : element (clampVelocity b) = element b.
Proof. unfold clampVelocity. cbv zeta. destruct (JS.gt _ maxVelocity); reflexivity. Qed.

Lemma magnetism_element mx my b : element (applyCursorMagnetism mx my b) = element b.
Proof.
  unfold applyCursorMagnetism. cbv zeta.
  destruct (JS.lt _ _ && JS.gt _ 25); reflexivity.
Qed.

Lemma integrate_tag_v2 mx my dt b : tag (integrate mx my dt b) = tag b.
Proof.
  unfold tag. rewrite SpatialSpeed.integrate_active_v2. f_equal.
  unfold integrate. destruct (negb (active b)); [reflexivity |].
  rewrite spin_element. unfold move, setPos. cbn [element].
  rewrite clampVelocity_element. unfold applyAirResistance, applyGravity, setVel.
  cbn [element]. rewrite magnetism_element. reflexivity.
Qed.

Lemma checkRect_tag_v2 b obs : tag (snd (checkRectCollision b obs)) = tag b.
Proof.
  unfold checkRectCollision, tag. destruct obs as [o | o w h m]; [| reflexivity].
  destruct (overlaps b o); [| reflexivity].
  destruct (JS.lt (minOverlapX b o) (minOverlapY b o));
    [destruct (JS.lt (overlapLeft b o) (overlapRight b o))
    | destruct (JS.lt (overlapTop b o) (overlapBottom b o))]; reflexivity.
Qed.

Lemma maskBounce_tag b m sx sy : tag (maskBounce b m sx sy) = tag b.
Proof.
  unfold maskBounce, tag. destruct (maskNormal b m sx sy) as [nx ny]. reflexivity.
Qed.

Lemma checkMask_tag b obs : tag (snd (checkMaskCollision b obs)) = tag b.
Proof.
  unfold checkMaskCollision. destruct obs as [o | o w h m]; [reflexivity |].
  cbv zeta.
  repeat match goal with
         | |- context [if ?c then _ else _] => destruct c
         end; cbn [snd]; try reflexivity.
  apply maskBounce_tag.
Qed.

Lemma collideObstacles_tag_v2 obstacles b : tag (collideObstacles obstacles b) = tag b.
Proof.
  unfold collideObstacles. destruct (negb (active b)); [reflexivity |].
  apply (fold_left_invariant (fun acc => tag acc = tag b)); [| reflexivity].
  intros acc obs Hacc. destruct obs.
  - rewrite checkRect_tag_v2. exact Hacc.
  - rewrite checkMask_tag. exact Hacc.
Qed.

Lemma beforePairs_tags_v2 f st : map tag (beforePairs f st) = map tag (balls st).
Proof.
  unfold beforePairs. cbv zeta. rewrite !map_map.
  rewrite SpatialSpeed.refreshObstacles_balls.
  apply map_ext. intros b. rewrite collideObstacles_tag_v2. apply integrate_tag_v2.
Qed.

Lemma resolve_tag_v2 ra rb a b :
  tag (fst (resolveBallCollision ra rb a b)) = tag a
  /\ tag (snd (resolveBallCollision ra rb a b)) = tag b.
Proof.
  destruct (SpatialBounce.resolve_keeps_identity_v2 ra rb a b) as (H1 & H2 & H3 & H4).
  unfold tag. rewrite H1, H2, H3, H4. auto.
Qed.

Lemma pairStep_tags_v2 f bs i j : map tag (pairStep f bs i j) = map tag bs.
Proof.
  unfold pairStep.
  destruct (nth_error bs i) as [a |] eqn:Hi; [| reflexivity].
  destruct (nth_error bs j) as [b |] eqn:Hj; [| reflexivity].
  destruct (active a && active b); [| reflexivity].
  destruct (resolve_tag_v2 (fst (pairRandom f i j)) (snd (pairRandom f i j)) a b)
    as [Ha Hb].
  destruct (resolveBallCollision _ _ a b) as [a' b']. cbn [fst snd] in *.
  rewrite map_setNth, Hb, map_setNth, Ha.
  rewrite (setNth_same i (tag a)) by (apply map_nth_error; exact Hi).
  apply setNth_same. apply map_nth_error. exact Hj.
Qed.

Lemma ballCollisions_tags_v2 f bs : map tag (ballCollisions f bs) = map tag bs.
Proof.
  unfold ballCollisions.
  apply (fold_left_invariant (fun acc => map tag acc = map tag bs)); [| reflexivity].
  intros acc i Hacc.
  apply (fold_left_invariant (fun acc => map tag acc = map tag bs)); [| exact Hacc].
  intros acc' j Hacc'. rewrite pairStep_tags_v2. exact Hacc'.
Qed.

Lemma leftWall_facts_v2 b :
  ballRadius <= x (leftWall b) /\ y (leftWall b) = y b
  /\ element (leftWall b) = element b.
Proof.
  unfold leftWall. destruct (JS.lt (x b - ballRadius) 0) eqn:H; cbn.
  - repeat split; lra.
  - apply lt_false in H. repeat split; lra.
Qed.

Lemma rightWall_facts_v2 w b :
  x (rightWall w b) <= w - ballRadius
  /\ (ballRadius * 2 <= w -> ballRadius <= x b -> ballRadius <= x (rightWall w b))
  /\ y (rightWall w b) = y b /\ element (rightWall w b) = element b.
Proof.
  unfold rightWall. destruct (JS.gt (x b + ballRadius) w) eqn:H; cbn.
  - repeat split; intros; lra.
  - apply gt_false in H. repeat split; intros; lra.
Qed.

Lemma ceiling_facts_v2 b :
  ballRadius <= y (ceiling b) /\ x (ceiling b) = x b
  /\ element (ceiling b) = element b.
Proof.
  unfold ceiling. destruct (JS.lt (y b - ballRadius) 0) eqn:H; cbn.
  - repeat split; lra.
  - apply lt_false in H. repeat split; lra.
Qed.

Lemma floorBounce_facts f b :
  x (floorBounce f b) = x b /\ y (floorBounce f b) = innerHeight f - ballRadius
  /\ element (floorBounce f b) = element b.
Proof.
  unfold floorBounce. cbv zeta.
  repeat match goal with
         | |- context [if ?c then _ else _] => destruct c
         end; cbn; auto.
Qed.

Lemma walls_element_v2 f b : element (walls f b) = element b.
Proof.
  unfold walls. destruct (negb (active b)); [reflexivity |]. cbv zeta.
  destruct (ceiling_facts_v2 (rightWall (innerWidth f) (leftWall b))) as (_ & _ & Hc).
  destruct (rightWall_facts_v2 (innerWidth f) (leftWall b)) as (_ & _ & _ & Hr).
  destruct (leftWall_facts_v2 b) as (_ & _ & Hl).
  set (b3 := ceiling (rightWall (innerWidth f) (leftWall b))) in *.
  destruct (floorBounce_facts f b3) as (_ & _ & Hf).
  destruct (JS.gt (y b3) (innerHeight f + 200)); [cbn; congruence |].
  destruct (JS.gt (y b3 + ballRadius) (innerHeight f)); [congruence |].
  cbn. congruence.
Qed.

(** A ball that is still active after the wall pass is inside the
    viewport. *)
Lemma walls_contained_v2 f b :
  ballRadius * 2 <= innerWidth f -> ballRadius * 2 <= innerHeight f ->
  active (walls f b) = true -> contained f (walls f b).
Proof.
  intros Hw Hh. unfold walls. destruct (active b) eqn:Ha; cbn [negb];
    [| congruence].
  cbv zeta.
  destruct (ceiling_facts_v2 (rightWall (innerWidth f) (leftWall b))) as (Hcy & Hcx & _).
  destruct (rightWall_facts_v2 (innerWidth f) (leftWall b)) as (Hrx & Hrl & _ & _).
  destruct (leftWall_facts_v2 b) as (Hlx & _ & _).
  specialize (Hrl Hw Hlx).
  set (b3 := ceiling (rightWall (innerWidth f) (leftWall b))) in *.
  destruct (floorBounce_facts f b3) as (Hfx & Hfy & _).
  rewrite <- Hcx in Hrx, Hrl. clearbody b3.
  unfold contained.
  destruct (JS.gt (y b3) (innerHeight f + 200)) eqn:Hfar; [cbn; discriminate |].
  destruct (JS.gt (y b3 + ballRadius) (innerHeight f)) eqn:Hfloor.
  - intros _. rewrite Hfx, Hfy. repeat split; lra.
  - intros _. apply gt_false in Hfloor. cbn. repeat split; lra.
Qed.

Lemma animateAll_balls_v2 f st :
  balls (animateAll f st)
  = filter active (map (walls f) (ballCollisions f (beforePairs f st))).
Proof.
  unfold animateAll. destruct (balls st) as [| b0 tl] eqn:Hb.
  - unfold beforePairs. cbv zeta. rewrite SpatialSpeed.refreshObstacles_balls, Hb.
    unfold setLoop. cbn [balls]. rewrite Hb. reflexivity.
  - cbv zeta.
    destruct (existsb active
                (filter active (map (walls f) (ballCollisions f (beforePairs f st)))));
      reflexivity.
Qed.

Lemma frame_elements_v2 f st :
  map element (map (walls f) (ballCollisions f (beforePairs f st)))
  = map element (balls st).
Proof.
  rewrite map_map.
  rewrite (map_ext (fun b => element (walls f b)) element (walls_element_v2 f)).
  assert (H : map tag (ballCollisions f (beforePairs f st)) = map tag (balls st))
    by (rewrite ballCollisions_tags_v2; apply beforePairs_tags_v2).
  apply (f_equal (map fst)) in H. rewrite !map_map in H. exact H.
Qed.

Lemma frame_output_v2 f st :
  (forall b', In b' (balls (animateAll f st)) ->
              active b' = true /\ In (element b') (map element (balls st)))
  /\ (length (balls (animateAll f st)) <= length (balls st))%nat.
Proof.
  rewrite animateAll_balls_v2. split.
  - intros b' Hin. apply filter_In in Hin. destruct Hin as [Hin Hact].
    split; [exact Hact |]. rewrite <- (frame_elements_v2 f st).
    apply in_map. exact Hin.
  - etransitivity; [apply filter_length_le |].
    rewrite <- (length_map element), frame_elements_v2, length_map. reflexivity.
Qed.

Lemma frame_contained_v2 f st b' :
  ballRadius * 2 <= innerWidth f -> ballRadius * 2 <= innerHeight f ->
  In b' (balls (animateAll f st)) -> contained f b'.
Proof.
  intros Hw Hh. rewrite animateAll_balls_v2. intros Hin.
  apply filter_In in Hin. destruct Hin as [Hin Hact].
  apply in_map_iff in Hin. destruct Hin as (b & <- & _).
  apply walls_contained_v2; assumption.
Qed.

End SpatialFrame.

(** X7.  What [animateAll] leaves in the array, in both variants: every
    ball left is active and carries the element of a ball that was in the
    array before the frame, and the array never grows. *)
Theorem X7_frame_keeps_only_live_known_balls :
  (forall f st,
      Forall (fun b' => Portfolio.active b' = true
                        /\ In (Portfolio.element b')
                              (map Portfolio.element (Portfolio.balls st)))
             (Portfolio.balls (Portfolio.animateAll f st))
      /\ (length (Portfolio.balls (Portfolio.animateAll f st))
          <= length (Portfolio.balls st))%nat)
  /\
  (forall f st,
      Forall (fun b' => Spatial.active b' = true
                        /\ In (Spatial.element b')
                              (map Spatial.element (Spatial.balls st)))
             (Spatial.balls (Spatial.animateAll f st))
      /\ (length (Spatial.balls (Spatial.animateAll f st))
          <= length (Spatial.balls st))%nat).
Proof.
  split; intros f st.
  - destruct (PortfolioFrame.frame_output f st) as [H1 H2].
    split; [apply Forall_forall; exact H1 | exact H2].
  - destruct (SpatialFrame.frame_output_v2 f st) as [H1 H2].
    split; [apply Forall_forall; exact H1 | exact H2].
Qed.

(** X8.  Where a frame leaves the balls.  Variant 1, in a document at
    least one ball wide: every ball left by [animateAll] has its centre
    at least a radius from both side walls and from the top of the
    viewport, and at most a radius and 50px below the document.  Variant
    2, in a viewport at least one ball wide and high: every ball left lies
    wholly inside the viewport. *)
Theorem X8_frame_leaves_balls_inside :
  (forall f st,
      Portfolio.ballRadius * 2 <= Portfolio.clientWidth f ->
      Forall (PortfolioRun.contained f) (Portfolio.balls (Portfolio.animateAll f st)))
  /\
  (forall f st,
      Spatial.ballRadius * 2 <= Spatial.innerWidth f ->
      Spatial.ballRadius * 2 <= Spatial.innerHeight f ->
      Forall (SpatialRun.contained f) (Spatial.balls (Spatial.animateAll f st))).
Proof.
  split.
  - intros f st Hw. apply Forall_forall. intros b' Hin.
    apply (PortfolioFrame.frame_contained f st b' Hw Hin).
  - intros f st Hw Hh. apply Forall_forall. intros b' Hin.
    apply (SpatialFrame.frame_contained_v2 f st b' Hw Hh Hin).
Qed.

(** A 1200px wide page, 10ms after the previous frame. *)
Lemma X8_inside_witness :
  Forall (PortfolioRun.contained soonFrame)
         (Portfolio.balls (Portfolio.animateAll soonFrame runningState))
  /\ Forall (SpatialRun.contained soonFrame2)
            (Spatial.balls (Spatial.animateAll soonFrame2 runningState2)).
Proof.
  destruct X8_frame_leaves_balls_inside as [H1 H2]. split.
  - apply H1. unfold soonFrame, Portfolio.ballRadius. cbn. lra.
  - apply H2; unfold soonFrame2, Spatial.ballRadius; cbn; lra.
Defined.

(** ** Invariants of a run *)

Lemma existsb_filter_nonempty {A : Type} (p : A -> bool) (l : list A) :
  existsb p (filter p l) = true <-> filter p l <> [].
Proof.
  induction l as [| h tl IH]; cbn.
  - split; [discriminate | congruence].
  - destruct (p h) eqn:Hp; [| exact IH].
    cbn. rewrite Hp. cbn. split; [discriminate | reflexivity].
Qed.

Lemma NoDup_map_filter {A B : Type} (g : A -> B) (p : A -> bool) (l : list A) :
  NoDup (map g l) -> NoDup (map g (filter p l)).
Proof.
  induction l as [| h tl IH]; intros Hnd; [exact Hnd |].
  cbn in *. inversion Hnd as [| ? ? Hnot Htl]; subst.
  destruct (p h); [| apply IH; exact Htl].
  cbn. constructor; [| apply IH; exact Htl].
  intros Hin. apply Hnot. apply in_map_iff in Hin.
  destruct Hin as (a & Ha & Hin). apply filter_In in Hin.
  rewrite <- Ha. apply in_map. apply Hin.
Qed.

Module PortfolioRunFacts.
Import Portfolio PortfolioRun.

Lemma heroClick_fields e sy rnd st :
  onLinkOrButton e = false ->
  dom (heroClick e sy rnd st) = snd (cleanupLoop (balls st) (dom st)) ++ [nextElement st]
  /\ nextElement (heroClick e sy rnd st) = S (nextElement st)
  /\ animating (heroClick e sy rnd st) = true
  /\ frameRequested (heroClick e sy rnd st)
     = (if animating st then frameRequested st else true).
Proof.
  intros He. unfold heroClick, cleanupBalls, createBall. rewrite He.
  destruct (cleanupLoop (balls st) (dom st)) as [bs d]. cbn.
  destruct (animating st); cbn; auto.
Qed.

Lemma animateAll_fields f st :
  dom (animateAll f st)
  = snd (wallsAll f (ballCollisions (beforePairs f st)) (dom st))
  /\ nextElement (animateAll f st) = nextElement st
  /\ (balls (animateAll f st) <> [] ->
      animating (animateAll f st) = animating st
      /\ frameRequested (animateAll f st) = true)
  /\ (balls (animateAll f st) = [] ->
      animating (animateAll f st) = false
      /\ frameRequested (animateAll f st) = false).
Proof.
  unfold animateAll. destruct (balls st) as [| b0 tl] eqn:Hb.
  - unfold beforePairs. rewrite Hb. cbn.
    split; [reflexivity | split; [reflexivity | split]]; [congruence | auto].
  - cbv zeta.
    destruct (wallsAll f (ballCollisions (beforePairs f st)) (dom st)) as [bs4 d].
    destruct (existsb active (filter active bs4)) eqn:Hex; cbn;
      (split; [reflexivity | split; [reflexivity | split]]).
    + auto.
    + intros Hempty. apply existsb_filter_nonempty in Hex. contradiction.
    + intros Hne. apply existsb_filter_nonempty in Hne. congruence.
    + auto.
Qed.

(** The loop flags along a run: a frame is pending exactly while
    [animating] is set, and [animating] is set exactly while there are
    balls. *)
Lemma run_flags st :
  reachable st ->
  animating st = frameRequested st /\ (animating st = true <-> balls st <> []).
Proof.
  induction 1 as [| e sy rnd st Hr [IH1 IH2] | f st Hr [IH1 IH2] Hreq].
  - cbn. split; [reflexivity |]. split; [discriminate | congruence].
  - destruct (onLinkOrButton e) eqn:He.
    + unfold heroClick. rewrite He. auto.
    + destruct (heroClick_fields e sy rnd st He) as (_ & _ & Ha & Hf).
      rewrite Ha, Hf, (PortfolioSpawn.heroClick_balls e sy rnd st He).
      split.
      * destruct (animating st) eqn:Han; [rewrite <- IH1 |]; reflexivity.
      * split; [| reflexivity]. intros _ Happ.
        apply app_eq_nil in Happ. destruct Happ as [_ Happ]. discriminate.
  - destruct (animateAll_fields f st) as (_ & _ & Hne & Hempty).
    destruct (balls (animateAll f st)) as [| b tl] eqn:Hb.
    + destruct Hempty as [-> ->]; [reflexivity |].
      split; [reflexivity |]. split; [discriminate | congruence].
    + destruct Hne as [-> ->]; [discriminate |].
      rewrite IH1, Hreq. split; [reflexivity |].
      split; [discriminate | reflexivity].
Qed.

Lemma run_cap st : reachable st -> (length (balls st) <= S maxBalls)%nat.
Proof.
  induction 1 as [| e sy rnd st Hr IH | f st Hr IH Hreq].
  - cbn. lia.
  - assert (H := PortfolioSpawn.heroClick_length_bound e sy rnd st). lia.
  - destruct (PortfolioFrame.frame_output f st) as [_ H]. lia.
Qed.

Lemma walls_dom f b d :
  active b = true ->
  (active (fst (walls f b d)) = false
   /\ snd (walls f b d) = detach (element b) d)
  \/ (active (fst (walls f b d)) = true /\ snd (walls f b d) = d).
Proof.
  intros Ha. assert (He := PortfolioFrame.walls_element f b d).
  revert He. unfold walls. rewrite Ha. cbn [negb]. cbv zeta.
  destruct (PortfolioFrame.ceiling_facts (scrollY f)
              (rightWall (clientWidth f) (leftWall b))) as (_ & _ & Hc).
  destruct (PortfolioFrame.rightWall_facts (clientWidth f) (leftWall b))
    as (_ & _ & _ & Hr).
  destruct (PortfolioFrame.leftWall_facts b) as (_ & _ & Hl).
  assert (Hact : active (ceiling (scrollY f) (rightWall (clientWidth f) (leftWall b)))
                 = true).
  { change (snd (PortfolioRun.tag
                   (ceiling (scrollY f) (rightWall (clientWidth f) (leftWall b))))
            = true).
    rewrite Hc, Hr, Hl. exact Ha. }
  set (b3 := ceiling (scrollY f) (rightWall (clientWidth f) (leftWall b))) in *.
  clearbody b3.
  destruct (JS.gt (y b3 - ballRadius) (scrollHeight f + 50)); cbn; intros He.
  - left. rewrite He. auto.
  - right. auto.
Qed.

Lemma wallsAll_dom f bs pre :
  NoDup (pre ++ map element bs) -> Forall (fun b => active b = true) bs ->
  snd (wallsAll f bs (pre ++ map element bs))
  = pre ++ map element (filter active (fst (wallsAll f bs (pre ++ map element bs)))).
Proof.
  revert pre. induction bs as [| b tl IH]; intros pre Hnd Hall; [reflexivity |].
  inversion Hall as [| ? ? Hb Htl]; subst.
  cbn [wallsAll map] in *.
  assert (He := PortfolioFrame.walls_element f b (pre ++ element b :: map element tl)).
  destruct (walls_dom f b (pre ++ element b :: map element tl) Hb)
    as [[Hoff Hd] | [Hon Hd]];
    destruct (walls f b (pre ++ element b :: map element tl)) as [b' d'];
    cbn [fst snd] in *; subst d'.
  - rewrite (detach_middle _ _ _ Hnd).
    assert (Hnd' : NoDup (pre ++ map element tl)) by (eapply NoDup_remove_1; exact Hnd).
    specialize (IH pre Hnd' Htl).
    destruct (wallsAll f tl (pre ++ map element tl)) as [tl' d''].
    cbn [fst snd filter] in *. rewrite Hoff. exact IH.
  - assert (Heq : pre ++ element b :: map element tl
                  = (pre ++ [element b]) ++ map element tl)
      by (rewrite <- app_assoc; reflexivity).
    rewrite Heq in *. specialize (IH (pre ++ [element b]) Hnd Htl).
    destruct (wallsAll f tl ((pre ++ [element b]) ++ map element tl)) as [tl' d''].
    cbn [fst snd filter] in *. rewrite Hon. cbn [map]. rewrite He, IH.
    rewrite <- app_assoc. reflexivity.
Qed.

Lemma cleanupLoop_dom bs :
  NoDup (map element bs) ->
  snd (cleanupLoop bs (map element bs)) = map element (fst (cleanupLoop bs (map element bs)))
  /\ exists gone, bs = gone ++ fst (cleanupLoop bs (map element bs)).
Proof.
  induction bs as [| b rest IH]; intros Hnd.
  - cbn. split; [reflexivity |]. exists []. reflexivity.
  - cbn [cleanupLoop]. destruct (maxBalls <? length (b :: rest))%nat.
    + cbn [map] in *.
      assert (Hdet := detach_middle (element b) [] (map element rest) Hnd).
      cbn [app] in Hdet. rewrite Hdet. inversion Hnd; subst.
      destruct (IH ltac:(assumption)) as [Hd [gone Hg]].
      split; [exact Hd |]. exists (b :: gone). cbn. rewrite <- Hg. reflexivity.
    + cbn. split; [reflexivity |]. exists []. reflexivity.
Qed.

(** The ball elements on the page along a run. *)
Lemma run_dom st :
  reachable st ->
  Forall (fun b => active b = true) (balls st)
  /\ dom st = map element (balls st)
  /\ NoDup (dom st)
  /\ Forall (fun e => (e < nextElement st)%nat) (dom st).
Proof.
  induction 1 as [| e sy rnd st Hr (IHa & IHd & IHn & IHf)
                    | f st Hr (IHa & IHd & IHn & IHf) Hreq].
  - cbn. repeat split; constructor.
  - destruct (onLinkOrButton e) eqn:He.
    + unfold heroClick. rewrite He. auto.
    + destruct (heroClick_fields e sy rnd st He) as (Hd & Hn & _ & _).
      rewrite Hd, Hn, (PortfolioSpawn.heroClick_balls e sy rnd st He).
      rewrite IHd in *.
      destruct (cleanupLoop_dom (balls st) IHn) as [Hsync [gone Hgone]].
      set (kept := fst (cleanupLoop (balls st) (map element (balls st)))) in *.
      rewrite Hsync. clearbody kept.
      assert (Hkept : forall x, In x (map element kept) -> (x < nextElement st)%nat).
      { intros x Hx. rewrite Forall_forall in IHf. apply IHf.
        rewrite Hgone, map_app. apply in_or_app. right. exact Hx. }
      repeat split.
      * apply Forall_app. split.
        -- rewrite Hgone in IHa. apply Forall_app in IHa. apply IHa.
        -- constructor; [reflexivity | constructor].
      * rewrite map_app. reflexivity.
      * apply NoDup_app; [ | repeat constructor; intros [] | ].
        -- rewrite Hgone, map_app in IHn. apply NoDup_app_remove_l in IHn. exact IHn.
        -- intros x Hx [<- | []]. apply Hkept in Hx. lia.
      * apply Forall_app. split.
        -- apply Forall_forall. intros x Hx. apply Hkept in Hx. lia.
        -- constructor; [lia | constructor].
  - destruct (animateAll_fields f st) as (Hd & Hn & _ & _).
    rewrite Hd, Hn, PortfolioFrame.animateAll_balls.
    assert (Htags : map PortfolioRun.tag (ballCollisions (beforePairs f st))
                    = map PortfolioRun.tag (balls st))
      by (rewrite PortfolioFrame.ballCollisions_tags;
          apply PortfolioFrame.beforePairs_tags).
    assert (Hel : map element (ballCollisions (beforePairs f st))
                  = map element (balls st)).
    { apply (f_equal (map fst)) in Htags. rewrite !map_map in Htags. exact Htags. }
    assert (Hact : Forall (fun b => active b = true) (ballCollisions (beforePairs f st))).
    { assert (Hflags : map active (ballCollisions (beforePairs f st))
                       = map active (balls st)).
      { apply (f_equal (map snd)) in Htags. rewrite !map_map in Htags. exact Htags. }
      apply (Forall_map active (fun t => t = true)).
      rewrite Hflags. apply Forall_map. exact IHa. }
    set (bs3 := ballCollisions (beforePairs f st)) in *. clearbody bs3.
    assert (Hsync := wallsAll_dom f bs3 [] ltac:(cbn; congruence) Hact).
    cbn [app] in Hsync. rewrite Hel, <- IHd in Hsync.
    assert (Hels := PortfolioFrame.wallsAll_elements f bs3 (dom st)).
    set (bs4 := fst (wallsAll f bs3 (dom st))) in *. clearbody bs4.
    rewrite Hsync. repeat split.
    + apply Forall_forall. intros b Hb. apply filter_In in Hb. apply Hb.
    + apply NoDup_map_filter. rewrite Hels, Hel, <- IHd. exact IHn.
    + apply Forall_forall. intros x Hx. rewrite Forall_forall in IHf. apply IHf.
      apply in_map_iff in Hx. destruct Hx as (b & <- & Hb).
      apply filter_In in Hb. rewrite IHd, <- Hel, <- Hels. apply in_map. apply Hb.
Qed.

End PortfolioRunFacts.

Module SpatialRunFacts.
Import Spatial SpatialRun.

Lemma cleanupLoop_keeps (P : Ball -> Prop) bs d :
  Forall P bs -> Forall P (fst (cleanupLoop bs d)).
Proof.
  revert d. induction bs as [| b rest IH]; intros d Hall; [constructor |].
  cbn [cleanupLoop]. destruct (maxBalls <? length (b :: rest))%nat.
  - apply IH. inversion Hall; assumption.
  - exact Hall.
Qed.

Lemma spawnBall_fields px py pvx pvy r st :
  animating (snd (spawnBall px py pvx pvy r st)) = true
  /\ frameRequested (snd (spawnBall px py pvx pvy r st))
     = (if animating st then frameRequested st else true)
  /\ active (fst (spawnBall px py pvx pvy r st)) = true.
Proof.
  unfold spawnBall, cleanupBalls, createBall, setBalls, setLoop.
  destruct (cleanupLoop (balls st) (dom st)) as [bs d]. cbn.
  destruct (animating st) eqn:Ha; cbn; auto.
Qed.

Lemma heroClick_cases e rnd st :
  SpatialClick.heroClick e rnd st = st
  \/ exists px py pvx pvy r,
      SpatialClick.heroClick e rnd st = snd (spawnBall px py pvx pvy r st).
Proof.
  unfold SpatialClick.heroClick, SpatialClick.spawnFromClick.
  destruct (SpatialClick.onLinkOrButton e); [left; reflexivity |].
  destruct (SpatialClick.launch rnd) as [[vx0 vy0] k].
  right. do 5 eexists. reflexivity.
Qed.

Lemma animateAll_fields_v2 f st :
  (balls (animateAll f st) <> [] ->
   animating (animateAll f st) = animating st
   /\ frameRequested (animateAll f st) = true)
  /\ (balls (animateAll f st) = [] ->
      animating (animateAll f st) = false
      /\ frameRequested (animateAll f st) = false).
Proof.
  unfold animateAll. destruct (balls st) as [| b0 tl] eqn:Hb.
  - unfold setLoop. cbn. rewrite Hb. split; [congruence | auto].
  - cbv zeta.
    destruct (existsb active
                (filter active (map (walls f) (ballCollisions f (beforePairs f st)))))
      eqn:Hex; unfold setLoop, setBalls; cbn [balls animating frameRequested]; split.
    + intros _. split; [| reflexivity].
      unfold refreshObstacles.
      destruct (JS.gt _ obstacleCacheDuration); [| reflexivity].
      destruct (getObstacles f (maskCache st)). reflexivity.
    + intros Hempty. apply existsb_filter_nonempty in Hex. contradiction.
    + intros Hne. apply existsb_filter_nonempty in Hne. congruence.
    + auto.
Qed.

Lemma spawn_step px py pvx pvy r st :
  (animating st = frameRequested st /\ (animating st = true <-> balls st <> [])
   /\ Forall (fun b => active b = true) (balls st)) ->
  let st' := snd (spawnBall px py pvx pvy r st) in
  animating st' = frameRequested st' /\ (animating st' = true <-> balls st' <> [])
  /\ Forall (fun b => active b = true) (balls st').
Proof.
  intros (IH1 & IH2 & IH3). cbv zeta.
  destruct (spawnBall_fields px py pvx pvy r st) as (Ha & Hf & Hact).
  rewrite Ha, Hf, SpatialSpawn.spawnBall_balls.
  split; [| split].
  - destruct (animating st) eqn:Han; [rewrite <- IH1 |]; reflexivity.
  - split; [| reflexivity]. intros _ Happ.
    apply app_eq_nil in Happ. destruct Happ as [_ Happ]. discriminate.
  - apply Forall_app. split.
    + apply cleanupLoop_keeps. exact IH3.
    + constructor; [exact Hact | constructor].
Qed.

Lemma run_flags_v2 st :
  reachable st ->
  animating st = frameRequested st /\ (animating st = true <-> balls st <> [])
  /\ Forall (fun b => active b = true) (balls st).
Proof.
  induction 1 as [| px py pvx pvy r st Hr IH | e rnd st Hr IH
                    | cx cy st Hr IH | st Hr IH | f st Hr (IH1 & IH2 & IH3) Hreq].
  - cbn. split; [reflexivity |]. split; [| constructor].
    split; [discriminate | congruence].
  - apply spawn_step. exact IH.
  - destruct (heroClick_cases e rnd st) as [-> | (px & py & pvx & pvy & r & ->)];
      [exact IH | apply spawn_step; exact IH].
  - exact IH.
  - exact IH.
  - destruct (animateAll_fields_v2 f st) as (Hne & Hempty).
    assert (Hlive : Forall (fun b => active b = true) (balls (animateAll f st))).
    { apply Forall_forall. intros b Hb.
      apply (proj1 (SpatialFrame.frame_output_v2 f st) b Hb). }
    destruct (balls (animateAll f st)) as [| b tl] eqn:Hb.
    + destruct Hempty as [-> ->]; [reflexivity |].
      split; [reflexivity |]. split; [| constructor].
      split; [discriminate | congruence].
    + destruct Hne as [-> ->]; [discriminate |].
      rewrite IH1, Hreq. split; [reflexivity |]. split; [| exact Hlive].
      split; [discriminate | reflexivity].
Qed.

Lemma run_cap_v2 st : reachable st -> (length (balls st) <= S maxBalls)%nat.
Proof.
  induction 1 as [| px py pvx pvy r st Hr IH | e rnd st Hr IH
                    | cx cy st Hr IH | st Hr IH | f st Hr IH Hreq].
  - cbn. lia.
  - assert (H := SpatialSpawn.spawnBall_length_bound px py pvx pvy r st). lia.
  - destruct (heroClick_cases e rnd st) as [-> | (px & py & pvx & pvy & r & ->)];
      [exact IH |].
    assert (H := SpatialSpawn.spawnBall_length_bound px py pvx pvy r st). lia.
  - exact IH.
  - exact IH.
  - destruct (SpatialFrame.frame_output_v2 f st) as [_ H]. lia.
Qed.

End SpatialRunFacts.

(** X9.  The size of the array along a run.  After any sequence of clicks
    (or spawns, cursor moves and smoothing steps in variant 2) and
    requested frames from the initial state, the array holds at most
    [maxBalls + 1] balls. *)
Theorem X9_run_never_exceeds_cap_plus_one :
  (forall st, PortfolioRun.reachable st ->
              (length (Portfolio.balls st) <= S Portfolio.maxBalls)%nat)
  /\ (forall st, SpatialRun.reachable st ->
                 (length (Spatial.balls st) <= S Spatial.maxBalls)%nat).
Proof.
  split.
  - apply PortfolioRunFacts.run_cap.
  - apply SpatialRunFacts.run_cap_v2.
Qed.

(** The page after one click, and after one spawn. *)
Lemma X9_cap_witness :
  (length (Portfolio.balls (Portfolio.heroClick click0 0 0.5 Portfolio.initial))
   <= S Portfolio.maxBalls)%nat
  /\ (length (Spatial.balls (spawn0 Spatial.initial)) <= S Spatial.maxBalls)%nat.
Proof.
  destruct X9_run_never_exceeds_cap_plus_one as [H1 H2]. split.
  - apply H1. apply PortfolioRun.run_click, PortfolioRun.run_start.
  - apply H2. unfold spawn0. apply SpatialRun.go_spawn, SpatialRun.go_start.
Defined.

(** X10.  The loop flags along a run, in both variants: a frame is
    pending exactly when [animating] is set, [animating] is set exactly
    when the array is not empty, and every ball in the array is active.
    So the early return of [animateAll] on an empty array is never taken
    by a requested frame. *)
Theorem X10_loop_runs_exactly_while_balls_exist :
  (forall st, PortfolioRun.reachable st ->
              Portfolio.animating st = Portfolio.frameRequested st
              /\ (Portfolio.animating st = true <-> Portfolio.balls st <> [])
              /\ Forall (fun b => Portfolio.active b = true) (Portfolio.balls st))
  /\ (forall st, SpatialRun.reachable st ->
                 Spatial.animating st = Spatial.frameRequested st
                 /\ (Spatial.animating st = true <-> Spatial.balls st <> [])
                 /\ Forall (fun b => Spatial.active b = true) (Spatial.balls st)).
Proof.
  split.
  - intros st Hr. destruct (PortfolioRunFacts.run_flags st Hr) as [H1 H2].
    destruct (PortfolioRunFacts.run_dom st Hr) as [H3 _]. auto.
  - apply SpatialRunFacts.run_flags_v2.
Qed.

Lemma X10_loop_witness :
  Portfolio.animating (Portfolio.heroClick click0 0 0.5 Portfolio.initial)
  = Portfolio.frameRequested (Portfolio.heroClick click0 0 0.5 Portfolio.initial)
  /\ Spatial.animating (spawn0 Spatial.initial)
     = Spatial.frameRequested (spawn0 Spatial.initial).
Proof.
  destruct X10_loop_runs_exactly_while_balls_exist as [H1 H2]. split.
  - apply (proj1 (H1 _ (PortfolioRun.run_click click0 0 0.5 _ PortfolioRun.run_start))).
  - unfold spawn0.
    apply (proj1 (H2 _ (SpatialRun.go_spawn 100 100 0 2 _ _ SpatialRun.go_start))).
Defined.

(** X11.  The ball elements on the page along a run of variant 1: the
    elements attached to the document are exactly the elements of the
    balls in the array, in the same order and without repetition, and
    every one of them was created before the next element to come. *)
Theorem X11_page_elements_match_array :
  forall st, PortfolioRun.reachable st ->
             Portfolio.dom st = map Portfolio.element (Portfolio.balls st)
             /\ NoDup (Portfolio.dom st)
             /\ Forall (fun e => (e < Portfolio.nextElement st)%nat) (Portfolio.dom st).
Proof.
  intros st Hr. destruct (PortfolioRunFacts.run_dom st Hr) as (_ & H1 & H2 & H3).
  auto.
Qed.

Lemma X11_page_elements_witness :
  Portfolio.dom (Portfolio.heroClick click0 0 0.5 Portfolio.initial)
  = map Portfolio.element
        (Portfolio.balls (Portfolio.heroClick click0 0 0.5 Portfolio.initial)).
Proof.
  apply (proj1 (X11_page_elements_match_array
                  _ (PortfolioRun.run_click click0 0 0.5 _ PortfolioRun.run_start))).
Defined.

(** ** Image masks: the pixel cache and the bounce *)

Module SpatialCache.
Import Spatial.

Lemma getMaskData_keeps el mc k m :
  cacheGet k mc = Some m -> cacheGet k (snd (getMaskData el mc)) = Some m.
Proof.
  intros Hk. unfold getMaskData.
  destruct (cacheGet (mel_id el) mc) eqn:Hc; [exact Hk |].
  destruct (negb (mel_complete el) || _ || _); [exact Hk |].
  cbn. destruct (Nat.eqb_spec (mel_id el) k) as [E | _]; [| exact Hk].
  rewrite E in Hc. congruence.
Qed.

Lemma getMaskData_stored el mc m :
  fst (getMaskData el mc) = Some m ->
  cacheGet (mel_id el) (snd (getMaskData el mc)) = Some m.
Proof.
  unfold getMaskData.
  destruct (cacheGet (mel_id el) mc) eqn:Hc.
  - cbn. intros [= <-]. exact Hc.
  - destruct (negb (mel_complete el) || _ || _); cbn; [discriminate |].
    intros [= <-]. rewrite Nat.eqb_refl. reflexivity.
Qed.

Lemma getMaskData_cached el mc m :
  cacheGet (mel_id el) mc = Some m -> getMaskData el mc = (Some m, mc).
Proof. intros Hc. unfold getMaskData. rewrite Hc. reflexivity. Qed.

Lemma maskObstacles_keeps els mc k m :
  cacheGet k mc = Some m -> cacheGet k (snd (maskObstacles els mc)) = Some m.
Proof.
  revert mc. induction els as [| el tl IH]; intros mc Hk; [exact Hk |].
  cbn [maskObstacles]. cbv zeta.
  destruct (JS.lt _ 6 || JS.lt _ 6); [apply IH; exact Hk |].
  assert (Hk' := getMaskData_keeps el mc k m Hk).
  destruct (getMaskData el mc) as [[m0 |] mc']; cbn [snd] in Hk'.
  - specialize (IH mc' Hk'). destruct (maskObstacles tl mc'). exact IH.
  - apply IH. exact Hk'.
Qed.

Lemma refreshObstacles_keeps f st k m :
  cacheGet k (maskCache st) = Some m ->
  cacheGet k (maskCache (refreshObstacles f st)) = Some m.
Proof.
  intros Hk. unfold refreshObstacles, getObstacles.
  destruct (JS.gt _ obstacleCacheDuration); [| exact Hk].
  assert (H := maskObstacles_keeps (maskElements f) (maskCache st) k m Hk).
  destruct (maskObstacles (maskElements f) (maskCache st)). exact H.
Qed.

Lemma animateAll_keeps f st k m :
  cacheGet k (maskCache st) = Some m ->
  cacheGet k (maskCache (animateAll f st)) = Some m.
Proof.
  intros Hk. unfold animateAll. destruct (balls st); [exact Hk |].
  cbv zeta. assert (H := refreshObstacles_keeps f st k m Hk).
  destruct (existsb active _); exact H.
Qed.

Lemma maskBounce_law b m sx sy :
  x (maskBounce b m sx sy) = someOr (prevX b) (x b)
  /\ y (maskBounce b m sx sy) = someOr (prevY b) (y b)
  /\ vx (maskBounce b m sx sy) * vx (maskBounce b m sx sy)
     + vy (maskBounce b m sx sy) * vy (maskBounce b m sx sy)
     = bounceFactor * bounceFactor * (vx b * vx b + vy b * vy b).
Proof.
  unfold maskBounce.
  pose proof (SpatialSpeed.maskNormal_unit_or_zero b m sx sy) as Hn.
  destruct (maskNormal b m sx sy) as [nx ny]. cbn [fst snd] in Hn.
  cbn. split; [reflexivity | split; [reflexivity |]].
  pose proof (mirror_keeps_length (vx b) (vy b) nx ny Hn) as Hm.
  rewrite <- Hm. ring.
Qed.

Lemma checkMask_law b obs :
  (fst (checkMaskCollision b obs) = false -> snd (checkMaskCollision b obs) = b)
  /\ (fst (checkMaskCollision b obs) = true ->
      let b' := snd (checkMaskCollision b obs) in
      x b' = someOr (prevX b) (x b)
      /\ y b' = someOr (prevY b) (y b)
      /\ vx b' * vx b' + vy b' * vy b'
         = bounceFactor * bounceFactor * (vx b * vx b + vy b * vy b)
      /\ exists o w h m,
          obs = MaskObstacle o w h m
          /\ left o <= x b <= left o + w /\ top o <= y b <= top o + h).
Proof.
  unfold checkMaskCollision. destruct obs as [o | o w h m].
  - cbn. split; [reflexivity | discriminate].
  - destruct (_ || _ || _ || _); [cbn; split; [reflexivity | discriminate] |].
    destruct (JS.lt (x b - left o) 0 || JS.lt (y b - top o) 0
              || JS.gt (x b - left o) w || JS.gt (y b - top o) h) eqn:Hin;
      [cbn; split; [reflexivity | discriminate] |].
    cbv zeta. destruct (transparent _);
      [cbn; split; [reflexivity | discriminate] |].
    cbn [fst snd]. split; [discriminate |]. intros _.
    destruct (maskBounce_law b m (samplePixel (x b - left o) w (mwidth m))
                             (samplePixel (y b - top o) h (mheight m)))
      as (Hx & Hy & Hv).
    split; [exact Hx | split; [exact Hy | split; [exact Hv |]]].
    exists o, w, h, m. split; [reflexivity |].
    apply orb_false_elim in Hin. destruct Hin as [Hin H4].
    apply orb_false_elim in Hin. destruct Hin as [Hin H3].
    apply orb_false_elim in Hin. destruct Hin as [H1 H2].
    reflect_guards. split; lra.
Qed.

(** Within the cache duration the frame reads nothing of the page's
    obstacles. *)
Lemma animateAll_cached_obstacles f st rects masks :
  currentTime f - obstacleCacheTime st <= obstacleCacheDuration ->
  animateAll (mkFrame (currentTime f) rects masks (innerWidth f) (innerHeight f)
                      (pairRandom f)) st
  = animateAll f st.
Proof.
  intros Hfresh. destruct f as [t r m w h pr]. cbn [currentTime innerWidth innerHeight pairRandom] in *.
  unfold animateAll, beforePairs, refreshObstacles. cbn [currentTime].
  rewrite (proj2 (gt_false (t - obstacleCacheTime st) obstacleCacheDuration)) by exact Hfresh.
  reflexivity.
Qed.

Lemma animateAll_refreshes f st :
  balls st <> [] ->
  obstacleCacheDuration < currentTime f - obstacleCacheTime st ->
  obstacleCache (animateAll f st) = fst (getObstacles f (maskCache st))
  /\ obstacleCacheTime (animateAll f st) = currentTime f.
Proof.
  intros Hne Hstale. unfold animateAll. destruct (balls st); [congruence |].
  cbv zeta. unfold refreshObstacles.
  rewrite (proj2 (gt_true _ _)) by exact Hstale.
  destruct (getObstacles f (maskCache st)) as [obs mc].
  destruct (existsb active _); cbn; auto.
Qed.

End SpatialCache.

(** X12.  The pixel cache of [getMaskData].  Once an image element has
    yielded a mask, every later query for the same element returns that
    very mask and leaves the cache alone, whatever the element's pixels
    or size have become; and a frame never drops or replaces an entry of
    the cache. *)
Theorem X12_mask_pixels_read_once :
  (forall el el' mc m,
      Spatial.mel_id el' = Spatial.mel_id el ->
      fst (Spatial.getMaskData el mc) = Some m ->
      Spatial.getMaskData el' (snd (Spatial.getMaskData el mc))
      = (Some m, snd (Spatial.getMaskData el mc)))
  /\ (forall f st k m,
         Spatial.cacheGet k (Spatial.maskCache st) = Some m ->
         Spatial.cacheGet k (Spatial.maskCache (Spatial.animateAll f st)) = Some m).
Proof.
  split.
  - intros el el' mc m Hid Hm. apply SpatialCache.getMaskData_cached.
    rewrite Hid. apply SpatialCache.getMaskData_stored. exact Hm.
  - apply SpatialCache.animateAll_keeps.
Qed.

(** The logo keeps its first mask after its picture has gone blank. *)
Lemma X12_mask_cache_witness :
  fst (Spatial.getMaskData logoImageLater (snd (Spatial.getMaskData logoImage [])))
  = Some (Spatial.mkMask [0; 0; 0; 255; 0; 0; 0; 0]%Z 2 1).
Proof.
  rewrite (proj1 X12_mask_pixels_read_once logoImage logoImageLater []
                 (Spatial.mkMask [0; 0; 0; 255; 0; 0; 0; 0]%Z 2 1));
    reflexivity.
Defined.

(** X13.  [checkMaskCollision] as a whole.  When it reports no hit the
    ball is unchanged.  When it reports a hit, the obstacle is a mask
    whose box contains the ball's centre, the ball is put back where the
    step started (or stays, if no start was recorded), and it is slowed
    down: its speed is between 0.59 and 0.61 times the speed it came
    with ([bounceFactor] times it, up to rounding). *)
Theorem X13_mask_hit_rolls_back_and_damps :
  forall b obs,
    (fst (Spatial.checkMaskCollision b obs) = false ->
     snd (Spatial.checkMaskCollision b obs) = b)
    /\ (fst (Spatial.checkMaskCollision b obs) = true ->
        let b' := snd (Spatial.checkMaskCollision b obs) in
        Spatial.x b' = Spatial.someOr (Spatial.prevX b) (Spatial.x b)
        /\ Spatial.y b' = Spatial.someOr (Spatial.prevY b) (Spatial.y b)
        /\ 0.59 * 0.59 * (Spatial.vx b * Spatial.vx b + Spatial.vy b * Spatial.vy b)
           <= Spatial.vx b' * Spatial.vx b' + Spatial.vy b' * Spatial.vy b'
           <= 0.61 * 0.61 * (Spatial.vx b * Spatial.vx b + Spatial.vy b * Spatial.vy b)
        /\ exists o w h m,
            obs = Spatial.MaskObstacle o w h m
            /\ Spatial.left o <= Spatial.x b <= Spatial.left o + w
            /\ Spatial.top o <= Spatial.y b <= Spatial.top o + h).
Proof.
  intros b obs. destruct (SpatialCache.checkMask_law b obs) as [Hmiss Hhit].
  split; [exact Hmiss |]. intros Hfst.
  destruct (Hhit Hfst) as (Hx & Hy & Hv & Hbox). cbv zeta.
  split; [exact Hx | split; [exact Hy | split; [| exact Hbox]]].
  rewrite Hv. unfold Spatial.bounceFactor.
  pose proof (sum_sq_nonneg (Spatial.vx b) (Spatial.vy b)) as Hs. lra.
Qed.

(** A ball that moves at 5 inside an opaque image and has no recorded
    start stays put and leaves with a squared speed between 8.7 and
    9.4 (9 in exact arithmetic). *)
Lemma X13_mask_hit_witness :
  Spatial.x (snd (Spatial.checkMaskCollision maskBall maskBox)) = 50
  /\ Spatial.y (snd (Spatial.checkMaskCollision maskBall maskBox)) = 50
  /\ 8.7 <= Spatial.vx (snd (Spatial.checkMaskCollision maskBall maskBox))
            * Spatial.vx (snd (Spatial.checkMaskCollision maskBall maskBox))
            + Spatial.vy (snd (Spatial.checkMaskCollision maskBall maskBox))
              * Spatial.vy (snd (Spatial.checkMaskCollision maskBall maskBox))
         <= 9.4.
Proof.
  destruct (proj2 (X13_mask_hit_rolls_back_and_damps maskBall maskBox) maskBall_hits)
    as (Hx & Hy & Hv & _).
  split; [exact Hx | split; [exact Hy |]].
  set (after := Spatial.vx (snd (Spatial.checkMaskCollision maskBall maskBox))
                * Spatial.vx (snd (Spatial.checkMaskCollision maskBall maskBox))
                + Spatial.vy (snd (Spatial.checkMaskCollision maskBall maskBox))
                  * Spatial.vy (snd (Spatial.checkMaskCollision maskBall maskBox)))
    in *.
  clearbody after. unfold maskBall in Hv. cbn [Spatial.vx Spatial.vy] in Hv.
  lra.
Defined.

(** X14.  The obstacle cache of variant 2.  A frame that comes no later
    than [obstacleCacheDuration] after the last refresh yields the same
    state whatever elements the page flags as obstacles or masks; a
    later frame over a non-empty array stores the page's obstacles and
    its own time stamp. *)
Theorem X14_obstacles_reread_only_when_stale :
  (forall f st rects masks,
      Spatial.currentTime f - Spatial.obstacleCacheTime st
      <= Spatial.obstacleCacheDuration ->
      Spatial.animateAll
        (Spatial.mkFrame (Spatial.currentTime f) rects masks (Spatial.innerWidth f)
                         (Spatial.innerHeight f) (Spatial.pairRandom f)) st
      = Spatial.animateAll f st)
  /\ (forall f st,
         Spatial.balls st <> [] ->
         Spatial.obstacleCacheDuration
         < Spatial.currentTime f - Spatial.obstacleCacheTime st ->
         Spatial.obstacleCache (Spatial.animateAll f st)
         = fst (Spatial.getObstacles f (Spatial.maskCache st))
         /\ Spatial.obstacleCacheTime (Spatial.animateAll f st) = Spatial.currentTime f).
Proof.
  split.
  - apply SpatialCache.animateAll_cached_obstacles.
  - apply SpatialCache.animateAll_refreshes.
Qed.

(** A frame 60ms after the refresh does not see a box flagged since. *)
Lemma X14_obstacles_witness :
  Spatial.animateAll
    (Spatial.mkFrame (Spatial.currentTime soonFrame2) [roomyBox] []
                     (Spatial.innerWidth soonFrame2) (Spatial.innerHeight soonFrame2)
                     (Spatial.pairRandom soonFrame2)) runningState2
  = Spatial.animateAll soonFrame2 runningState2.
Proof.
  apply (proj1 X14_obstacles_reread_only_when_stale).
  unfold soonFrame2, runningState2, Spatial.obstacleCacheDuration. cbn. lra.
Defined.

(** ** The cursor and the click of variant 2 *)

Module SpatialPointer.
Import Spatial.



Lemma launch_bounds rnd :
  (forall i, 0 <= rnd i < 1) ->
  - 12 < fst (fst (SpatialClick.launch rnd)) < 12
  /\ - 12 < snd (fst (SpatialClick.launch rnd)) < 12
  /\ (SpatialClick.pickPattern (rnd 0%nat) = SpatialClick.straight ->
      8 <= snd (fst (SpatialClick.launch rnd)))
  /\ (SpatialClick.pickPattern (rnd 0%nat) = SpatialClick.arc ->
      snd (fst (SpatialClick.launch rnd)) <= - 4).
Proof.
  intros Hr. unfold SpatialClick.launch. cbv zeta.
  pose proof (Hr 1%nat) as H1. pose proof (Hr 3%nat) as H3.
  pose proof (Hr 4%nat) as H4.
  pose proof (COS_bound (rnd 3%nat * PI * 2)) as Hc.
  pose proof (SIN_bound (rnd 3%nat * PI * 2)) as Hs.
  destruct (SpatialClick.pickPattern (rnd 0%nat)); cbn [fst snd];
    (split; [nra | split; [nra | split; intros E; try discriminate; nra]]).
Qed.

Lemma spawnBall_ball px py pvx pvy r st :
  let b := fst (spawnBall px py pvx pvy r st) in
  element b = nextElement st /\ x b = px /\ y b = py
  /\ vx b = pvx + (rnd_vx r - 0.5) * 6
  /\ vy b = pvy + (rnd_vy r - 0.5) * 4
  /\ active b = true /\ prevX b = None /\ prevY b = None.
Proof.
  unfold spawnBall, cleanupBalls, createBall, setBalls.
  destruct (cleanupLoop (balls st) (dom st)) as [bs d]. cbn. repeat split.
Qed.

Lemma click_ball e rnd st :
  (forall i, 0 <= rnd i < 1) ->
  let b := fst (SpatialClick.spawnFromClick e rnd st) in
  x b = SpatialClick.pageX e /\ y b = SpatialClick.pageY e /\ active b = true
  /\ - 15 < vx b < 15 /\ - 14 < vy b < 14
  /\ bounded b
  /\ (SpatialClick.pickPattern (rnd 0%nat) = SpatialClick.straight -> 6 <= vy b)
  /\ (SpatialClick.pickPattern (rnd 0%nat) = SpatialClick.arc -> vy b < - 2).
Proof.
  intros Hr. cbv zeta.
  destruct (launch_bounds rnd Hr) as (Hvx & Hvy & Hdown & Hup).
  unfold SpatialClick.spawnFromClick.
  destruct (SpatialClick.launch rnd) as [[vx0 vy0] k]. cbn [fst snd] in *.
  set (r := mkSpawnRandom (rnd (k + 1)%nat) (rnd (k + 2)%nat)
                          (rnd (k + 3)%nat) (rnd (k + 4)%nat)).
  destruct (spawnBall_ball (SpatialClick.pageX e) (SpatialClick.pageY e) vx0 vy0 r st)
    as (_ & Hx & Hy & Hbx & Hby & Ha & _ & _).
  pose proof (Hr (k + 1)%nat) as R1. pose proof (Hr (k + 2)%nat) as R2.
  unfold bounded, maxVelocity. rewrite Hx, Hy, Ha, Hbx, Hby.
  subst r. cbn [rnd_vx rnd_vy].
  split; [reflexivity | split; [reflexivity | split; [reflexivity |]]].
  split; [lra | split; [lra | split; [nra | split]]].
  - intros E. specialize (Hdown E). lra.
  - intros E. specialize (Hup E). lra.
Qed.

End SpatialPointer.


(** X16.  The ball launched by a click on the hero in variant 2, for
    any values of [Math.random()] in [0, 1): it starts at the click
    position, active, with [|vx| < 15] and [|vy| < 14], hence within the
    speed limit; the straight pattern sends it downwards at 6 or more,
    the arc pattern upwards at more than 2. *)
Theorem X16_click_launch_within_limits :
  forall e rnd st,
    (forall i, 0 <= rnd i < 1) ->
    let b := fst (SpatialClick.spawnFromClick e rnd st) in
    Spatial.x b = SpatialClick.pageX e /\ Spatial.y b = SpatialClick.pageY e
    /\ Spatial.active b = true
    /\ - 15 < Spatial.vx b < 15 /\ - 14 < Spatial.vy b < 14
    /\ Spatial.bounded b
    /\ (SpatialClick.pickPattern (rnd 0%nat) = SpatialClick.straight ->
        6 <= Spatial.vy b)
    /\ (SpatialClick.pickPattern (rnd 0%nat) = SpatialClick.arc ->
        Spatial.vy b < - 2).
Proof. exact SpatialPointer.click_ball. Qed.

Lemma X16_click_witness :
  Spatial.bounded (fst (SpatialClick.spawnFromClick heroPoint evenRandom Spatial.initial)).
Proof.
  assert (Hr : forall i, 0 <= evenRandom i < 1) by (intros i; unfold evenRandom; lra).
  destruct (X16_click_launch_within_limits heroPoint evenRandom Spatial.initial Hr)
    as (_ & _ & _ & _ & _ & H & _).
  exact H.
Defined.

(** ** The reveal observer without reduced motion *)

Module RevealRun.
Import Reveal.

Lemma detach_keeps a el l : In a l -> a <> el -> In a (detach el l).
Proof.
  intros Hin Hne. unfold detach. apply filter_In. split; [exact Hin |].
  destruct (Nat.eqb_spec a el); [contradiction | reflexivity].
Qed.

Lemma detach_removes el l : ~ In el (detach el l).
Proof.
  unfold detach. intros Hin. apply filter_In in Hin. destruct Hin as [_ H].
  rewrite Nat.eqb_refl in H. discriminate.
Qed.

Lemma addClass_in a el l : In a (addClass el l) -> a = el \/ In a l.
Proof.
  unfold addClass. destruct (existsb (Nat.eqb el) l); [auto |].
  intros [<- | H]; auto.
Qed.

Lemma addClass_NoDup el l : NoDup l -> NoDup (addClass el l).
Proof.
  intros Hnd. unfold addClass. destruct (existsb (Nat.eqb el) l) eqn:He; [exact Hnd |].
  constructor; [| exact Hnd]. intros Hin.
  assert (Ht : existsb (Nat.eqb el) l = true).
  { apply existsb_exists. exists el. split; [exact Hin | apply Nat.eqb_refl]. }
  congruence.
Qed.

Lemma onEntry_split reveals st e :
  In (target e) reveals -> split_of reveals st -> split_of reveals (onEntry st e).
Proof.
  intros Ht (H1 & H2 & H3 & H4). unfold onEntry.
  destruct (isIntersecting e); [| exact (conj H1 (conj H2 (conj H3 H4)))].
  unfold split_of. cbn [revealed observed]. split; [| split; [| split]].
  - intros el Hel. apply addClass_in in Hel. destruct Hel as [-> | Hel].
    + split; [exact Ht | apply detach_removes].
    + destruct (H1 el Hel) as [Ha Hb]. split; [exact Ha |].
      intros Hin. apply Hb. apply (RevealFacts.detach_subset _ _ _ Hin).
  - intros el Hel. destruct (Nat.eq_dec el (target e)) as [-> | Hne].
    + left. apply RevealFacts.addClass_adds.
    + destruct (H2 el Hel) as [Hr | Ho].
      * left. apply RevealFacts.addClass_keeps. exact Hr.
      * right. apply detach_keeps; assumption.
  - apply addClass_NoDup. exact H3.
  - intros el Hel. apply H4. apply (RevealFacts.detach_subset _ _ _ Hel).
Qed.

Lemma callback_split reveals entries st :
  (forall e, In e entries -> In (target e) reveals) ->
  split_of reveals st -> split_of reveals (callback entries st).
Proof.
  unfold callback. revert st.
  induction entries as [| e tl IH]; intros st Hin Hs; [exact Hs |].
  cbn. apply IH.
  - intros e' He'. apply Hin. right. exact He'.
  - apply onEntry_split; [apply Hin; left; reflexivity | exact Hs].
Qed.

Lemma run_split reveals st :
  reachable (init reveals false) st -> split_of reveals st.
Proof.
  induction 1 as [| st entries Hr IH Hd].
  - unfold init, split_of. cbn. repeat split; try contradiction; auto.
    constructor.
  - apply callback_split; [| exact IH].
    intros e He. destruct IH as (_ & _ & _ & H4). apply H4. apply Hd. exact He.
Qed.

End RevealRun.

(** X17.  The reveal observer when motion is not reduced.  However the
    observer fires, an element carries [revealed] only if it is flagged
    and no longer observed, every flagged element is revealed or still
    observed, and the class is never added twice. *)
Theorem X17_revealed_and_observed_split_the_flagged :
  forall reveals st,
    Reveal.reachable (Reveal.init reveals false) st ->
    (forall el, In el (Reveal.revealed st) ->
                In el reveals /\ ~ In el (Reveal.observed st))
    /\ (forall el, In el reveals ->
                   In el (Reveal.revealed st) \/ In el (Reveal.observed st))
    /\ NoDup (Reveal.revealed st).
Proof.
  intros reveals st Hr.
  destruct (RevealRun.run_split reveals st Hr) as (H1 & H2 & H3 & _). auto.
Qed.

(** Two flagged elements, the first of which scrolls into view. *)
Lemma X17_reveal_witness :
  NoDup (Reveal.revealed
           (Reveal.callback [Reveal.mkEntry 7 true] (Reveal.init [7; 8]%nat false))).
Proof.
  apply (X17_revealed_and_observed_split_the_flagged [7; 8]%nat).
  apply Reveal.reach_fire; [apply Reveal.reach_init |].
  intros e [<- | []]. left. reflexivity.
Defined.

(** ** Project pages *)

Module ProjectFacts.
Import Project.

(** The quotient of [getScrollProgress] before clamping. *)
Lemma progress_quotient box sy wh :
  0 < rect_height box + wh ->
  getScrollProgress box sy wh
  = Rmax 0 (Rmin 1 ((2 * wh - rect_top box) / (rect_height box + wh))).
Proof.
  intros Hd. unfold getScrollProgress, rect_bottom. cbv zeta.
  f_equal. f_equal. field. lra.
Qed.

Lemma progress_facts box sy wh :
  0 < rect_height box + wh ->
  0 <= getScrollProgress box sy wh <= 1
  /\ getScrollProgress box sy wh = getScrollProgress box 0 wh
  /\ (getScrollProgress box sy wh = 0 <-> 2 * wh <= rect_top box)
  /\ (getScrollProgress box sy wh = 1 <-> rect_bottom box <= wh).
Proof.
  intros Hd. rewrite !progress_quotient by exact Hd.
  unfold rect_bottom.
  set (d := rect_height box + wh) in *.
  assert (Hq : (2 * wh - rect_top box) / d * d = 2 * wh - rect_top box)
    by (field; lra).
  set (q := (2 * wh - rect_top box) / d) in *. clearbody q.
  assert (Hle0 : q <= 0 <-> 2 * wh <= rect_top box) by (split; intros; nra).
  assert (Hge1 : 1 <= q <-> rect_top box + rect_height box <= wh)
    by (subst d; split; intros; nra).
  split; [| split; [reflexivity | split]];
    unfold Rmax, Rmin; repeat destruct (Rle_dec _ _); split; intros; try lra;
      try (apply Hle0; lra); try (apply Hge1; lra);
      try (apply Hle0 in H; lra); try (apply Hge1 in H; lra).
Qed.


Lemma throttle_invariant t :
  reachable t -> queued t = (if ticking t then 1 else 0)%nat.
Proof.
  induction 1 as [| t Hr IH | t Hr IH | t Hr IH Hq].
  - reflexivity.
  - unfold onScroll. destruct (ticking t) eqn:Ht; cbn.
    + rewrite Ht. exact IH.
    + rewrite IH. reflexivity.
  - exact IH.
  - cbn. destruct (ticking t); rewrite IH in *; [reflexivity | lia].
Qed.

Lemma scroll_burst t n :
  ticking t = false -> queued t = 0%nat ->
  Nat.iter (S n) onScroll t = mkThrottle true 1 (updates t).
Proof.
  intros Ht Hq. induction n as [| n IH].
  - cbn. unfold onScroll. rewrite Ht, Hq. reflexivity.
  - rewrite Nat.iter_succ, IH. reflexivity.
Qed.

Lemma stagger_length base step p k vis :
  length (stagger base step p k vis) = length vis.
Proof.
  revert k. induction vis as [| v tl IH]; intros k; cbn; [reflexivity |].
  rewrite IH. reflexivity.
Qed.

Lemma stagger_nth base step p k vis i :
  (i < length vis)%nat ->
  nth i (stagger base step p k vis) false
  = (if JS.gt p (base + INR (k + i) * step) then true else nth i vis false).
Proof.
  revert k i. induction vis as [| v tl IH]; intros k i Hi; [cbn in Hi; lia |].
  destruct i as [| i]; cbn [stagger nth].
  - rewrite Nat.add_0_r. reflexivity.
  - rewrite IH by (cbn in Hi; lia).
    rewrite Nat.add_succ_comm. reflexivity.
Qed.

Lemma stagger_beyond base step p k vis i :
  (length vis <= i)%nat -> nth i (stagger base step p k vis) false = nth i vis false.
Proof.
  intros Hi. rewrite !nth_overflow; [reflexivity | exact Hi |].
  rewrite stagger_length. exact Hi.
Qed.

Lemma identity_layers p s :
  0 <= p <= 1 ->
  let s' := animateIdentity p s in
  length (layers s') = length (layers s)
  /\ (forall i, nth i (layers s) false = true -> nth i (layers s') false = true)
  /\ (forall i, (6 <= i)%nat -> nth i (layers s') false = nth i (layers s) false)
  /\ (forall i j, (j <= i)%nat -> nth i (layers s) false = false ->
                  nth i (layers s') false = true -> nth j (layers s') false = true).
Proof.
  intros Hp. cbv zeta. unfold animateIdentity. cbn [layers].
  split; [apply stagger_length | split; [| split]].
  - intros i Hi. destruct (Nat.lt_ge_cases i (length (layers s))) as [Hlt | Hge].
    + rewrite stagger_nth by exact Hlt. rewrite Hi. destruct (JS.gt _ _); reflexivity.
    + rewrite stagger_beyond by exact Hge. exact Hi.
  - intros i Hi. destruct (Nat.lt_ge_cases i (length (layers s))) as [Hlt | Hge].
    + rewrite stagger_nth by exact Hlt. cbn [Nat.add].
      assert (H6 : 6 <= INR i) by (apply le_INR in Hi; cbn in Hi; lra).
      rewrite (proj2 (gt_false p (0.2 + INR i * 0.15))) by lra. reflexivity.
    + apply stagger_beyond. exact Hge.
  - intros i j Hji Hoff Hon.
    destruct (Nat.lt_ge_cases i (length (layers s))) as [Hlt | Hge].
    + rewrite stagger_nth in Hon by exact Hlt. rewrite Hoff in Hon. cbn [Nat.add] in Hon.
      destruct (JS.gt p (0.2 + INR i * 0.15)) eqn:Hgt; [| discriminate].
      apply gt_true in Hgt.
      rewrite stagger_nth by lia. cbn [Nat.add].
      assert (Hle : INR j <= INR i) by (apply le_INR; exact Hji).
      rewrite (proj2 (gt_true p (0.2 + INR j * 0.15))) by lra. reflexivity.
    + rewrite stagger_beyond in Hon by exact Hge. congruence.
Qed.


End ProjectFacts.



(** X19.  The scroll throttle of the project pages.  Along any sequence
    of scroll events, resize events and frame callbacks, exactly one
    frame callback is queued while [ticking] is set and none otherwise;
    so a burst of scroll events between two frames costs one update. *)
Theorem X19_one_update_per_frame :
  (forall t, Project.reachable t ->
             Project.queued t = (if Project.ticking t then 1 else 0)%nat)
  /\ (forall t n, Project.reachable t -> Project.ticking t = false ->
                  Project.onFrame (Nat.iter (S n) Project.onScroll t)
                  = Project.mkThrottle false 0 (S (Project.updates t))).
Proof.
  split.
  - apply ProjectFacts.throttle_invariant.
  - intros t n Hr Ht.
    assert (Hq := ProjectFacts.throttle_invariant t Hr). rewrite Ht in Hq.
    rewrite (ProjectFacts.scroll_burst t n Ht Hq). reflexivity.
Qed.

(** Three scroll events after load, then the frame. *)
Lemma X19_throttle_witness :
  Project.onFrame (Nat.iter 3 Project.onScroll Project.start)
  = Project.mkThrottle false 0 2.
Proof.
  apply (proj2 X19_one_update_per_frame Project.start 2%nat Project.tick_start).
  reflexivity.
Defined.

(** X20.  The staggered layers of the identity scene under one pass of
    [updateSceneAnimations].  No layer is hidden again and none is added;
    a layer shown by the pass has every earlier layer shown with it; and
    since the progress never exceeds 1, the layers from the seventh on
    are left as they were. *)
Theorem X20_layers_appear_in_order_up_to_the_sixth :
  forall box sy wh s,
    0 < rect_height box + wh ->
    let s' := Project.updateIdentity box sy wh s in
    length (Project.layers s') = length (Project.layers s)
    /\ (forall i, nth i (Project.layers s) false = true ->
                  nth i (Project.layers s') false = true)
    /\ (forall i, (6 <= i)%nat ->
                  nth i (Project.layers s') false = nth i (Project.layers s) false)
    /\ (forall i j, (j <= i)%nat -> nth i (Project.layers s) false = false ->
                    nth i (Project.layers s') false = true ->
                    nth j (Project.layers s') false = true).
Proof.
  intros box sy wh s Hd. unfold Project.updateIdentity.
  apply ProjectFacts.identity_layers.
  apply (ProjectFacts.progress_facts box sy wh Hd).
Qed.

(** Eight layers: the seventh stays hidden. *)
Lemma X20_layers_witness :
  nth 6 (Project.layers (Project.updateIdentity sceneBox 0 800 eightLayers)) false
  = nth 6 (Project.layers eightLayers) false.
Proof.
  assert (Hd : 0 < rect_height sceneBox + 800) by (unfold sceneBox; cbn; lra).
  destruct (X20_layers_appear_in_order_up_to_the_sixth sceneBox 0 800 eightLayers Hd)
    as (_ & _ & H & _).
  apply H. lia.
Defined.



(** ** Rest on the floor in variant 2 *)

Lemma Rpower_antitone (a u v : R) : 0 < a < 1 -> u <= v -> Rpower a v <= Rpower a u.
Proof.
  intros Ha Huv. unfold Rpower.
  assert (Hln : ln a < 0) by (rewrite <- ln_1; apply ln_increasing; lra).
  destruct (Req_dec u v) as [-> | Hne]; [lra |].
  left. apply exp_increasing. nra.
Qed.

Module SpatialRest.
Import Spatial.

Lemma air_factor dt : 0 <= dt <= 2 -> 0.99 <= JS.pow airResistance dt <= 1.
Proof.
  intros Hdt.
  assert (Ha : 0 < airResistance < 1) by (unfold airResistance; lra).
  split.
  - apply Rle_trans with (JS.pow airResistance 2).
    + rewrite pow_two by lra. unfold airResistance. lra.
    + unfold JS.pow. apply Rpower_antitone; lra.
  - rewrite <- (pow_zero airResistance) by lra.
    unfold JS.pow. apply Rpower_antitone; lra.
Qed.

Lemma frameDelta_slow f st :
  lastTime st <> 0 -> 7 <= currentTime f - lastTime st ->
  0.41 <= frameDelta f st <= 2.
Proof.
  intros H0 Hgap. unfold frameDelta.
  rewrite (proj2 (eq_false (lastTime st) 0)) by exact H0.
  unfold Rmin. destruct (Rle_dec _ 2); lra.
Qed.

Lemma collideObstacles_none b : collideObstacles [] b = b.
Proof. unfold collideObstacles. destruct (negb (active b)); reflexivity. Qed.

(** The floor branch of the wall pass. *)
Lemma walls_floor f b :
  active b = true ->
  0 <= x b - ballRadius -> x b + ballRadius <= innerWidth f ->
  0 <= y b - ballRadius -> y b <= innerHeight f + 200 ->
  innerHeight f < y b + ballRadius ->
  walls f b = floorBounce f b.
Proof.
  intros Ha Hl Hr Hc Hfar Hfloor. unfold walls. rewrite Ha. cbn [negb].
  unfold leftWall. rewrite (proj2 (lt_false (x b - ballRadius) 0)) by exact Hl.
  unfold rightWall.
  rewrite (proj2 (gt_false (x b + ballRadius) (innerWidth f))) by exact Hr.
  unfold ceiling. rewrite (proj2 (lt_false (y b - ballRadius) 0)) by exact Hc.
  cbv zeta.
  rewrite (proj2 (gt_false (y b) (innerHeight f + 200))) by exact Hfar.
  rewrite (proj2 (gt_true (y b + ballRadius) (innerHeight f))) by exact Hfloor.
  reflexivity.
Qed.

(** A bounce that is too fast to count as rest clears the timer. *)
Lemma floorBounce_lively f b :
  stopVelocity <= Rabs (vy b) * bounceFactor ->
  floorBounce f b
  = setResting (setVel (setPos b (x b) (innerHeight f - ballRadius))
                       (vx b) (- Rabs (vy b) * bounceFactor)) None.
Proof.
  intros Hfast. unfold floorBounce. cbv zeta.
  assert (Hsnap : snap (- Rabs (vy b) * bounceFactor) = - Rabs (vy b) * bounceFactor).
  { unfold snap. rewrite (proj2 (lt_false _ _)); [reflexivity |].
    replace (- Rabs (vy b) * bounceFactor) with (- (Rabs (vy b) * bounceFactor)) by ring.
    rewrite Rabs_Ropp, Rabs_right; [exact Hfast |].
    unfold stopVelocity in Hfast. lra. }
  rewrite Hsnap. unfold setVel at 2 3. unfold setPos. cbn [vx vy].
  rewrite (proj2 (lt_false (Rabs (- Rabs (vy b) * bounceFactor)) stopVelocity)).
  - rewrite andb_false_r. reflexivity.
  - replace (- Rabs (vy b) * bounceFactor) with (- (Rabs (vy b) * bounceFactor)) by ring.
    rewrite Rabs_Ropp, Rabs_right; [exact Hfast |].
    unfold stopVelocity in Hfast. lra.
Qed.

(** One step for a ball lying on the floor. *)
Lemma rest_step f mx my dt b :
  active b = true -> vy b = 0 -> Rabs (vx b) < stopVelocity ->
  y b = innerHeight f - ballRadius ->
  ballRadius + 1 <= x b <= innerWidth f - ballRadius - 1 ->
  ballRadius * 2 <= innerHeight f ->
  magneticRadius * magneticRadius
  <= (mx - x b) * (mx - x b) + (my - y b) * (my - y b) ->
  0.41 <= dt <= 2 ->
  let b' := walls f (integrate mx my dt b) in
  active b' = true /\ restingStartTime b' = None
  /\ vy b' <= - stopVelocity /\ y b' = innerHeight f - ballRadius.
Proof.
  intros Ha Hvy Hvx Hy Hx Hh Hfar Hdt. cbv zeta.
  destruct (air_factor dt ltac:(lra)) as [Hp1 Hp2].
  assert (Hvx' : - stopVelocity < vx b < stopVelocity)
    by (apply Rabs_def2 in Hvx; lra).
  unfold stopVelocity, ballRadius, gravity, bounceFactor, maxVelocity in *.
  assert (Hin : 0.28 <= (0 + 0.7 * dt) * JS.pow airResistance dt <= 1.4) by nra.
  assert (Hvp : - 0.15 <= vx b * JS.pow airResistance dt <= 0.15) by nra.
  assert (Hdx : - 0.6 <= vx b * JS.pow airResistance dt * dt <= 0.6) by nra.
  assert (Hdy : 0 < (0 + 0.7 * dt) * JS.pow airResistance dt * dt <= 2.8) by nra.
  rewrite SpatialLoop.integrate_unclamped_v2;
    [| exact Ha | exact Hfar
     | rewrite Hvy; unfold gravity, maxVelocity;
       set (pw := JS.pow airResistance dt) in *; clearbody pw; nra].
  rewrite Hvy. unfold gravity.
  set (pw := JS.pow airResistance dt) in *. clearbody pw.
  rewrite walls_floor; cbn [active x y]; unfold ballRadius; try reflexivity; try lra.
  rewrite floorBounce_lively; cbn [vy];
    [| unfold stopVelocity, bounceFactor; rewrite Rabs_right by lra; lra].
  cbn. rewrite Rabs_right by lra.
  unfold bounceFactor, ballRadius.
  split; [reflexivity | split; [reflexivity | split; lra]].
Qed.

Lemma rest_frame f st b :
  balls st = [b] ->
  active b = true -> vy b = 0 -> Rabs (vx b) < stopVelocity ->
  y b = innerHeight f - ballRadius ->
  ballRadius + 1 <= x b <= innerWidth f - ballRadius - 1 ->
  ballRadius * 2 <= innerHeight f ->
  magneticRadius * magneticRadius
  <= (mouseX st - x b) * (mouseX st - x b) + (mouseY st - y b) * (mouseY st - y b) ->
  obstacleCache (refreshObstacles f st) = [] ->
  lastTime st <> 0 -> 7 <= currentTime f - lastTime st ->
  exists b',
    balls (animateAll f st) = [b']
    /\ active b' = true /\ restingStartTime b' = None
    /\ vy b' <= - stopVelocity.
Proof.
  intros Hb Ha Hvy Hvx Hy Hx Hh Hfar Hobs Hlast Hgap.
  pose proof (frameDelta_slow f st Hlast Hgap) as Hdt.
  destruct (rest_step f (mouseX st) (mouseY st) (frameDelta f st) b
                      Ha Hvy Hvx Hy Hx Hh Hfar Hdt) as (H1 & H2 & H3 & _).
  exists (walls f (integrate (mouseX st) (mouseY st) (frameDelta f st) b)).
  split; [| auto].
  rewrite SpatialFrame.animateAll_balls_v2. unfold beforePairs. cbv zeta.
  rewrite Hobs, SpatialSpeed.refreshObstacles_balls, Hb. cbn [map].
  rewrite collideObstacles_none, SpatialLoop.ballCollisions_single_v2.
  assert (Hm : mouseX (refreshObstacles f st) = mouseX st
               /\ mouseY (refreshObstacles f st) = mouseY st).
  { unfold refreshObstacles. destruct (JS.gt _ obstacleCacheDuration); [| auto].
    destruct (getObstacles f (maskCache st)). cbn. auto. }
  destruct Hm as [-> ->]. cbn [map filter]. rewrite H1. reflexivity.
Qed.

End SpatialRest.

(** X22.  Rest on the floor in variant 2.  Take a lone ball lying still
    on the floor (vertical velocity 0, horizontal speed below
    [stopVelocity]), clear of the side walls, out of reach of the cursor
    and with no obstacle in effect.  A frame that comes 7ms or more after
    the previous one leaves it in the array, active, moving upwards at
    [stopVelocity] or more, and with its resting time cleared: whatever
    the time it has been lying there, such a frame does not remove it. *)
Theorem X22_rest_timer_cleared_by_ordinary_frame :
  forall f st b,
    Spatial.balls st = [b] ->
    Spatial.active b = true -> Spatial.vy b = 0 ->
    Rabs (Spatial.vx b) < Spatial.stopVelocity ->
    Spatial.y b = Spatial.innerHeight f - Spatial.ballRadius ->
    Spatial.ballRadius + 1 <= Spatial.x b
                       <= Spatial.innerWidth f - Spatial.ballRadius - 1 ->
    Spatial.ballRadius * 2 <= Spatial.innerHeight f ->
    Spatial.magneticRadius * Spatial.magneticRadius
    <= (Spatial.mouseX st - Spatial.x b) * (Spatial.mouseX st - Spatial.x b)
       + (Spatial.mouseY st - Spatial.y b) * (Spatial.mouseY st - Spatial.y b) ->
    Spatial.obstacleCache (Spatial.refreshObstacles f st) = [] ->
    Spatial.lastTime st <> 0 ->
    7 <= Spatial.currentTime f - Spatial.lastTime st ->
    exists b',
      Spatial.balls (Spatial.animateAll f st) = [b']
      /\ Spatial.active b' = true
      /\ Spatial.restingStartTime b' = None
      /\ Spatial.vy b' <= - Spatial.stopVelocity.
Proof. exact SpatialRest.rest_frame. Qed.

(** A ball at rest since 500 is still there after the frame at 1010. *)
Lemma X22_rest_witness :
  exists b',
    Spatial.balls (Spatial.animateAll soonFrame2 restingState2) = [b']
    /\ Spatial.active b' = true
    /\ Spatial.restingStartTime b' = None
    /\ Spatial.vy b' <= - Spatial.stopVelocity.
Proof.
  apply (X22_rest_timer_cleared_by_ordinary_frame soonFrame2 restingState2 restingBall2);
    unfold soonFrame2, restingState2, restingBall2; unfold_v2; cbn;
    try reflexivity; try lra.
  - rewrite Rabs_R0. lra.
  - unfold Spatial.refreshObstacles. cbn.
    rewrite (proj2 (gt_false _ _)) by (unfold Spatial.obstacleCacheDuration; lra).
    reflexivity.
Defined.

(** ** Energy of a pair, and the reads of the mask sampler *)



Module PortfolioEnergy.
Import Portfolio.


End PortfolioEnergy.

Module SpatialEnergy.
Import Spatial.


Lemma clampIndex_range n i : (0 < n)%Z -> (0 <= clampIndex n i < n)%Z.
Proof. intros Hn. unfold clampIndex. lia. Qed.

Lemma alphaAt_defined m ix iy :
  (0 < mwidth m)%Z -> (0 < mheight m)%Z ->
  Z.of_nat (length (mdata m)) = (4 * mwidth m * mheight m)%Z ->
  (0 <= ix < mwidth m)%Z -> (0 <= iy < mheight m)%Z ->
  alphaAt m ix iy <> None.
Proof.
  intros Hw Hh Hlen Hx Hy. unfold alphaAt. cbv zeta.
  destruct (Z.ltb_spec ((iy * mwidth m + ix) * 4 + 3) 0) as [Hneg | Hpos]; [nia |].
  apply nth_error_Some. nia.
Qed.

End SpatialEnergy.


(** X24.  The reads of the mask sampler stay inside the image.  For a
    mask of positive size whose data holds four bytes per pixel, the
    pixel index computed from any offset lies inside the image, and so
    does every neighbour read by [sampleOpaque]; the alpha byte read
    there is never [undefined]. *)
Theorem X24_mask_sampler_reads_inside_the_image :
  forall m,
    (0 < Spatial.mwidth m)%Z -> (0 < Spatial.mheight m)%Z ->
    Z.of_nat (length (Spatial.mdata m)) = (4 * Spatial.mwidth m * Spatial.mheight m)%Z ->
    (forall localX localY width height,
        Spatial.alphaAt m (Spatial.samplePixel localX width (Spatial.mwidth m))
                        (Spatial.samplePixel localY height (Spatial.mheight m))
        <> None)
    /\ (forall sampleX sampleY dx dy,
           Spatial.alphaAt m (Spatial.clampIndex (Spatial.mwidth m) (sampleX + dx))
                           (Spatial.clampIndex (Spatial.mheight m) (sampleY + dy))
           <> None).
Proof.
  intros m Hw Hh Hlen. split.
  - intros lx ly w h. unfold Spatial.samplePixel.
    apply SpatialEnergy.alphaAt_defined; try assumption;
      apply SpatialEnergy.clampIndex_range; assumption.
  - intros sx sy dx dy.
    apply SpatialEnergy.alphaAt_defined; try assumption;
      apply SpatialEnergy.clampIndex_range; assumption.
Qed.

(** The one-pixel mask under any offset. *)
Lemma X24_mask_sampler_witness :
  Spatial.alphaAt onePixel (Spatial.samplePixel 50 100 (Spatial.mwidth onePixel))
                  (Spatial.samplePixel 50 100 (Spatial.mheight onePixel))
  <> None.
Proof.
  apply (X24_mask_sampler_reads_inside_the_image onePixel); reflexivity.
Defined.


(** * The speed limit, stage by stage *)

Lemma Forall_setNth {A : Type} (P : A -> Prop) (i : nat) (v : A) (l : list A) :
  Forall P l -> P v -> Forall P (setNth i v l).
Proof.
  intros Hl Hv. revert i. induction Hl as [| h tl Hh Htl IH]; intros [| i]; cbn.
  - constructor.
  - constructor.
  - constructor; assumption.
  - constructor; [exact Hh | apply IH].
Qed.

Lemma speed_le_of_squares (a b c d : R) :
  a * a + b * b <= c * c + d * d -> sqrt (a * a + b * b) <= sqrt (c * c + d * d).
Proof. intros H. apply sqrt_le_1_alt. exact H. Qed.

Module PortfolioLimit.
Import Portfolio.

Lemma checkRect_slower b obs :
  vx (snd (checkRectCollision b obs)) * vx (snd (checkRectCollision b obs))
  + vy (snd (checkRectCollision b obs)) * vy (snd (checkRectCollision b obs))
  <= vx b * vx b + vy b * vy b.
Proof.
  unfold checkRectCollision.
  destruct (reflected_sq_le (vx b) bounceFactor PortfolioSpeed.restitution_range)
    as [Hx1 Hx2].
  destruct (reflected_sq_le (vy b) bounceFactor PortfolioSpeed.restitution_range)
    as [Hy1 Hy2].
  apply PortfolioSpeed.snap_sq_le in Hx1, Hx2, Hy1, Hy2.
  destruct (negb _); [cbn; lra |].
  destruct (overlaps b obs); [| cbn; lra].
  destruct (JS.lt (minOverlapX b obs) _); destruct (JS.lt _ _); cbn [snd vx vy]; lra.
Qed.

Lemma collideObstacles_slower obstacles b :
  vx (collideObstacles obstacles b) * vx (collideObstacles obstacles b)
  + vy (collideObstacles obstacles b) * vy (collideObstacles obstacles b)
  <= vx b * vx b + vy b * vy b.
Proof.
  unfold collideObstacles. destruct (negb (active b)); [lra |].
  apply (fold_left_invariant
           (fun acc => vx acc * vx acc + vy acc * vy acc <= vx b * vx b + vy b * vy b));
    [| lra].
  intros acc obs Hacc. pose proof (checkRect_slower acc obs). lra.
Qed.

Lemma walls_slower f b d :
  vx (fst (walls f b d)) * vx (fst (walls f b d))
  + vy (fst (walls f b d)) * vy (fst (walls f b d))
  <= vx b * vx b + vy b * vy b.
Proof.
  unfold walls. destruct (negb (active b)); [cbn; lra |]. cbv zeta.
  assert (H1 : vx (leftWall b) * vx (leftWall b) + vy (leftWall b) * vy (leftWall b)
               <= vx b * vx b + vy b * vy b).
  { unfold leftWall. destruct (JS.lt _ _); [| lra]. cbn [vx vy].
    destruct (reflected_sq_le (vx b) bounceFactor PortfolioSpeed.restitution_range)
      as [Hx _].
    apply PortfolioSpeed.snap_sq_le in Hx. lra. }
  set (b1 := leftWall b) in *. clearbody b1.
  assert (H2 : vx (rightWall (clientWidth f) b1) * vx (rightWall (clientWidth f) b1)
               + vy (rightWall (clientWidth f) b1) * vy (rightWall (clientWidth f) b1)
               <= vx b * vx b + vy b * vy b).
  { unfold rightWall. destruct (JS.gt _ _); [| lra]. cbn [vx vy].
    destruct (reflected_sq_le (vx b1) bounceFactor PortfolioSpeed.restitution_range)
      as [_ Hx].
    apply PortfolioSpeed.snap_sq_le in Hx. lra. }
  set (b2 := rightWall (clientWidth f) b1) in *. clearbody b2.
  assert (H3 : vx (ceiling (scrollY f) b2) * vx (ceiling (scrollY f) b2)
               + vy (ceiling (scrollY f) b2) * vy (ceiling (scrollY f) b2)
               <= vx b * vx b + vy b * vy b).
  { unfold ceiling. destruct (JS.lt _ _); [| lra]. cbn [vx vy].
    destruct (reflected_sq_le (vy b2) bounceFactor PortfolioSpeed.restitution_range)
      as [Hy _].
    apply PortfolioSpeed.snap_sq_le in Hy. lra. }
  destruct (JS.gt _ _); cbn [fst]; [| exact H3].
  unfold setActive. cbn [vx vy]. exact H3.
Qed.

(** A pair that takes no impulse keeps its velocities. *)
Lemma quiet_pair a b :
  takesImpulse a b = false ->
  vx (fst (resolveBallCollision a b)) = vx a
  /\ vy (fst (resolveBallCollision a b)) = vy a
  /\ vx (snd (resolveBallCollision a b)) = vx b
  /\ vy (snd (resolveBallCollision a b)) = vy b.
Proof.
  unfold takesImpulse, resolveBallCollision. cbv zeta. unfold setPos, setVel.
  cbn [vx vy].
  destruct (JS.eq _ 0); (destruct (JS.lt _ (ballRadius * 2)); [| cbn; auto]);
    (destruct (JS.gt _ 0); cbn; [auto | discriminate]).
Qed.

Lemma pairLog_fst acc i j : fst (pairLog acc i j) = pairStep (fst acc) i j.
Proof.
  unfold pairLog, pairStep.
  destruct (nth_error (fst acc) i) as [a |]; [| reflexivity].
  destruct (nth_error (fst acc) j) as [b |]; [| reflexivity].
  destruct (active a && active b); reflexivity.
Qed.

Lemma collisionLog_fst bs : fst (collisionLog bs) = ballCollisions bs.
Proof.
  unfold collisionLog, ballCollisions.
  assert (Hin : forall i l acc,
             fst (fold_left (fun acc' j => pairLog acc' i j) l acc)
             = fold_left (fun acc' j => pairStep acc' i j) l (fst acc)).
  { intros i l. induction l as [| j tl IH]; intros acc; [reflexivity |].
    cbn [fold_left]. rewrite IH, pairLog_fst. reflexivity. }
  generalize (length bs) at 1 3. intros n.
  generalize (seq 0 (length bs)). intros l.
  change bs with (fst (bs, @nil nat)) at 2.
  generalize (bs, @nil nat). induction l as [| i tl IH]; intros acc; [reflexivity |].
  cbn [fold_left]. rewrite IH, Hin. reflexivity.
Qed.

(** What the pair loop keeps: an active ball is within the limit or has
    been struck. *)
Lemma pairLog_limit acc i j :
  Forall (fun b => active b = true -> bounded b \/ In (element b) (snd acc)) (fst acc) ->
  Forall (fun b => active b = true ->
                   bounded b \/ In (element b) (snd (pairLog acc i j)))
         (fst (pairLog acc i j)).
Proof.
  intros Hacc. unfold pairLog.
  destruct (nth_error (fst acc) i) as [a |] eqn:Hi; [| exact Hacc].
  destruct (nth_error (fst acc) j) as [b |] eqn:Hj; [| exact Hacc].
  destruct (active a && active b) eqn:Hact; [| exact Hacc].
  apply andb_prop in Hact. destruct Hact as [Ha Hb].
  cbn [fst snd]. unfold pairStep. rewrite Hi, Hj, Ha, Hb. cbn [andb].
  pose proof (PortfolioBounce.resolve_keeps_identity a b) as (Ea & Aa & Eb & Ab).
  pose proof (quiet_pair a b) as Hquiet.
  assert (Qa : bounded a \/ In (element a) (snd acc)).
  { apply nth_error_In in Hi. rewrite Forall_forall in Hacc. apply (Hacc a Hi Ha). }
  assert (Qb : bounded b \/ In (element b) (snd acc)).
  { apply nth_error_In in Hj. rewrite Forall_forall in Hacc. apply (Hacc b Hj Hb). }
  destruct (resolveBallCollision a b) as [a' b']. cbn [fst snd] in *.
  apply Forall_setNth; [apply Forall_setNth |].
  - apply (Forall_impl _ (P := fun b0 => active b0 = true ->
                                         bounded b0 \/ In (element b0) (snd acc)));
      [| exact Hacc].
    intros b0 H0 Hb0. destruct (H0 Hb0) as [H | H]; [left; exact H |].
    right. destruct (takesImpulse a b); [right; right; exact H | exact H].
  - intros _. rewrite Ea. destruct (takesImpulse a b).
    + right. left. reflexivity.
    + destruct (Hquiet eq_refl) as (Hvx & Hvy & _).
      destruct Qa as [Q | Q]; [left | right; exact Q].
      unfold bounded in *. rewrite Hvx, Hvy. exact Q.
  - intros _. rewrite Eb. destruct (takesImpulse a b).
    + right. right. left. reflexivity.
    + destruct (Hquiet eq_refl) as (_ & _ & Hvx & Hvy).
      destruct Qb as [Q | Q]; [left | right; exact Q].
      unfold bounded in *. rewrite Hvx, Hvy. exact Q.
Qed.

Lemma collisionLog_limit bs :
  Forall (fun b => active b = true -> bounded b) bs ->
  Forall (fun b => active b = true -> bounded b \/ In (element b) (struck bs))
         (ballCollisions bs).
Proof.
  intros Hbs. rewrite <- collisionLog_fst. unfold struck, collisionLog.
  apply (fold_left_invariant
           (fun acc => Forall (fun b => active b = true ->
                                        bounded b \/ In (element b) (snd acc)) (fst acc))).
  - intros acc i Hacc.
    apply (fold_left_invariant
             (fun acc => Forall (fun b => active b = true ->
                                          bounded b \/ In (element b) (snd acc)) (fst acc)));
      [| exact Hacc].
    intros acc' j Hacc'. apply pairLog_limit. exact Hacc'.
  - cbn [fst snd]. apply (Forall_impl _ (P := fun b => active b = true -> bounded b));
      [| exact Hbs].
    intros b H Hb. left. apply H, Hb.
Qed.

Lemma beforePairs_bounded f st :
  Forall (fun b => active b = true -> bounded b) (beforePairs f st).
Proof.
  apply Forall_forall. intros b2 Hin Hact.
  unfold beforePairs in Hin. cbv zeta in Hin.
  apply in_map_iff in Hin. destruct Hin as (b1 & <- & Hin).
  apply in_map_iff in Hin. destruct Hin as (b & <- & Hin).
  rewrite PortfolioSpeed.collideObstacles_active, PortfolioSpeed.integrate_active in Hact.
  apply PortfolioSpeed.collideObstacles_bounded, PortfolioSpeed.integrate_bounded, Hact.
Qed.

(** After a frame, a ball that was not struck is within the limit. *)
Lemma frame_limit f st b' :
  In b' (balls (animateAll f st)) ->
  ~ In (element b') (struck (beforePairs f st)) ->
  speed b' <= maxVelocity.
Proof.
  rewrite PortfolioFrame.animateAll_balls. intros Hin Hnot.
  apply filter_In in Hin. destruct Hin as [Hin Hact].
  apply PortfolioSpeed.wallsAll_members in Hin. destruct Hin as (b3 & d0 & Hb3 & ->).
  assert (Ha3 : active b3 = true).
  { destruct (active b3) eqn:E; [reflexivity |].
    rewrite (PortfolioSpeed.walls_inactive f b3 d0 E) in Hact. cbn [fst] in Hact.
    congruence. }
  pose proof (collisionLog_limit _ (beforePairs_bounded f st)) as Hall.
  rewrite Forall_forall in Hall. destruct (Hall b3 Hb3 Ha3) as [Hb | Hs].
  - apply PortfolioSpeed.bounded_speed, PortfolioSpeed.walls_bounded, Hb.
  - exfalso. apply Hnot. rewrite PortfolioFrame.walls_element. exact Hs.
Qed.

End PortfolioLimit.

Module SpatialLimit.
Import Spatial.

Lemma checkRect_slower_v2 b obs :
  vx (snd (checkRectCollision b obs)) * vx (snd (checkRectCollision b obs))
  + vy (snd (checkRectCollision b obs)) * vy (snd (checkRectCollision b obs))
  <= vx b * vx b + vy b * vy b.
Proof.
  unfold checkRectCollision.
  destruct (reflected_sq_le (vx b) bounceFactor SpatialSpeed.restitution_range_v2)
    as [Hx1 Hx2].
  destruct (reflected_sq_le (vy b) bounceFactor SpatialSpeed.restitution_range_v2)
    as [Hy1 Hy2].
  apply SpatialSpeed.snap_sq_le_v2 in Hx1, Hx2, Hy1, Hy2.
  destruct obs as [o | o w h m]; [| cbn; lra].
  destruct (overlaps b o); [| cbn; lra].
  destruct (JS.lt (minOverlapX b o) _); destruct (JS.lt _ _);
    cbn [snd]; unfold setRotation, setVel, setPos; cbn [vx vy]; lra.
Qed.

Lemma checkMask_slower b obs :
  vx (snd (checkMaskCollision b obs)) * vx (snd (checkMaskCollision b obs))
  + vy (snd (checkMaskCollision b obs)) * vy (snd (checkMaskCollision b obs))
  <= vx b * vx b + vy b * vy b.
Proof.
  destruct (SpatialCache.checkMask_law b obs) as [Hmiss Hhit].
  destruct (fst (checkMaskCollision b obs)) eqn:Hf.
  - destruct (Hhit eq_refl) as (_ & _ & Hv & _). rewrite Hv.
    unfold bounceFactor. pose proof (sum_sq_nonneg (vx b) (vy b)). lra.
  - rewrite (Hmiss eq_refl). lra.
Qed.

Lemma collideObstacles_slower_v2 obstacles b :
  vx (collideObstacles obstacles b) * vx (collideObstacles obstacles b)
  + vy (collideObstacles obstacles b) * vy (collideObstacles obstacles b)
  <= vx b * vx b + vy b * vy b.
Proof.
  unfold collideObstacles. destruct (negb (active b)); [lra |].
  apply (fold_left_invariant
           (fun acc => vx acc * vx acc + vy acc * vy acc <= vx b * vx b + vy b * vy b));
    [| lra].
  intros acc obs Hacc. destruct obs.
  - pose proof (checkRect_slower_v2 acc (RectObstacle bounds)). lra.
  - pose proof (checkMask_slower acc (MaskObstacle bounds width height m)). lra.
Qed.

Lemma floorBounce_slower f b :
  vx (floorBounce f b) * vx (floorBounce f b)
  + vy (floorBounce f b) * vy (floorBounce f b)
  <= vx b * vx b + vy b * vy b.
Proof.
  unfold floorBounce. cbv zeta.
  destruct (reflected_sq_le (vy b) bounceFactor SpatialSpeed.restitution_range_v2)
    as [_ Hy].
  apply SpatialSpeed.snap_sq_le_v2 in Hy.
  destruct (_ && _); [destruct (negb _); [| destruct (JS.gt _ _)] |];
    unfold setResting, setActive, setVel, setPos; cbn [vx vy]; lra.
Qed.

Lemma walls_slower_v2 f b :
  vx (walls f b) * vx (walls f b) + vy (walls f b) * vy (walls f b)
  <= vx b * vx b + vy b * vy b.
Proof.
  unfold walls. destruct (negb (active b)); [lra |]. cbv zeta.
  assert (H1 : vx (leftWall b) * vx (leftWall b) + vy (leftWall b) * vy (leftWall b)
               <= vx b * vx b + vy b * vy b).
  { unfold leftWall. destruct (JS.lt _ _); [| lra].
    unfold setVel, setPos. cbn [vx vy].
    destruct (reflected_sq_le (vx b) bounceFactor SpatialSpeed.restitution_range_v2)
      as [Hx _].
    apply SpatialSpeed.snap_sq_le_v2 in Hx. lra. }
  set (b1 := leftWall b) in *. clearbody b1.
  assert (H2 : vx (rightWall (innerWidth f) b1) * vx (rightWall (innerWidth f) b1)
               + vy (rightWall (innerWidth f) b1) * vy (rightWall (innerWidth f) b1)
               <= vx b * vx b + vy b * vy b).
  { unfold rightWall. destruct (JS.gt _ _); [| lra].
    unfold setVel, setPos. cbn [vx vy].
    destruct (reflected_sq_le (vx b1) bounceFactor SpatialSpeed.restitution_range_v2)
      as [_ Hx].
    apply SpatialSpeed.snap_sq_le_v2 in Hx. lra. }
  set (b2 := rightWall (innerWidth f) b1) in *. clearbody b2.
  assert (H3 : vx (ceiling b2) * vx (ceiling b2) + vy (ceiling b2) * vy (ceiling b2)
               <= vx b * vx b + vy b * vy b).
  { unfold ceiling. destruct (JS.lt _ _); [| lra].
    unfold setVel, setPos. cbn [vx vy].
    destruct (reflected_sq_le (vy b2) bounceFactor SpatialSpeed.restitution_range_v2)
      as [Hy _].
    apply SpatialSpeed.snap_sq_le_v2 in Hy. lra. }
  set (b3 := ceiling b2) in *. clearbody b3.
  destruct (JS.gt _ _); [unfold setActive; cbn [vx vy]; exact H3 |].
  destruct (JS.gt _ _).
  - pose proof (floorBounce_slower f b3). lra.
  - unfold setResting. cbn [vx vy]. exact H3.
Qed.

Lemma quiet_pair_v2 ra rb a b :
  takesImpulse a b = false ->
  vx (fst (resolveBallCollision ra rb a b)) = vx a
  /\ vy (fst (resolveBallCollision ra rb a b)) = vy a
  /\ vx (snd (resolveBallCollision ra rb a b)) = vx b
  /\ vy (snd (resolveBallCollision ra rb a b)) = vy b.
Proof.
  unfold takesImpulse, resolveBallCollision. cbv zeta. unfold setPos, setVel.
  cbn [vx vy].
  destruct (JS.eq _ 0); (destruct (JS.lt _ (ballRadius * 2)); [| cbn; auto]);
    (destruct (JS.gt _ 0); cbn; [auto | discriminate]).
Qed.

Lemma pairLog_fst_v2 f acc i j : fst (pairLog f acc i j) = pairStep f (fst acc) i j.
Proof.
  unfold pairLog, pairStep.
  destruct (nth_error (fst acc) i) as [a |]; [| reflexivity].
  destruct (nth_error (fst acc) j) as [b |]; [| reflexivity].
  destruct (active a && active b); reflexivity.
Qed.

Lemma collisionLog_fst_v2 f bs : fst (collisionLog f bs) = ballCollisions f bs.
Proof.
  unfold collisionLog, ballCollisions.
  assert (Hin : forall i l acc,
             fst (fold_left (fun acc' j => pairLog f acc' i j) l acc)
             = fold_left (fun acc' j => pairStep f acc' i j) l (fst acc)).
  { intros i l. induction l as [| j tl IH]; intros acc; [reflexivity |].
    cbn [fold_left]. rewrite IH, pairLog_fst_v2. reflexivity. }
  generalize (length bs) at 1 3. intros n.
  generalize (seq 0 (length bs)). intros l.
  change bs with (fst (bs, @nil nat)) at 2.
  generalize (bs, @nil nat). induction l as [| i tl IH]; intros acc; [reflexivity |].
  cbn [fold_left]. rewrite IH, Hin. reflexivity.
Qed.

Lemma pairLog_limit_v2 f acc i j :
  Forall (fun b => active b = true -> bounded b \/ In (element b) (snd acc)) (fst acc) ->
  Forall (fun b => active b = true ->
                   bounded b \/ In (element b) (snd (pairLog f acc i j)))
         (fst (pairLog f acc i j)).
Proof.
  intros Hacc. unfold pairLog.
  destruct (nth_error (fst acc) i) as [a |] eqn:Hi; [| exact Hacc].
  destruct (nth_error (fst acc) j) as [b |] eqn:Hj; [| exact Hacc].
  destruct (active a && active b) eqn:Hact; [| exact Hacc].
  apply andb_prop in Hact. destruct Hact as [Ha Hb].
  cbn [fst snd]. unfold pairStep. rewrite Hi, Hj, Ha, Hb. cbn [andb].
  pose proof (SpatialBounce.resolve_keeps_identity_v2
                (fst (pairRandom f i j)) (snd (pairRandom f i j)) a b)
    as (Ea & Aa & Eb & Ab).
  pose proof (quiet_pair_v2 (fst (pairRandom f i j)) (snd (pairRandom f i j)) a b)
    as Hquiet.
  assert (Qa : bounded a \/ In (element a) (snd acc)).
  { apply nth_error_In in Hi. rewrite Forall_forall in Hacc. apply (Hacc a Hi Ha). }
  assert (Qb : bounded b \/ In (element b) (snd acc)).
  { apply nth_error_In in Hj. rewrite Forall_forall in Hacc. apply (Hacc b Hj Hb). }
  destruct (resolveBallCollision _ _ a b) as [a' b']. cbn [fst snd] in *.
  apply Forall_setNth; [apply Forall_setNth |].
  - apply (Forall_impl _ (P := fun b0 => active b0 = true ->
                                         bounded b0 \/ In (element b0) (snd acc)));
      [| exact Hacc].
    intros b0 H0 Hb0. destruct (H0 Hb0) as [H | H]; [left; exact H |].
    right. destruct (takesImpulse a b); [right; right; exact H | exact H].
  - intros _. rewrite Ea. destruct (takesImpulse a b).
    + right. left. reflexivity.
    + destruct (Hquiet eq_refl) as (Hvx & Hvy & _).
      destruct Qa as [Q | Q]; [left | right; exact Q].
      unfold bounded in *. rewrite Hvx, Hvy. exact Q.
  - intros _. rewrite Eb. destruct (takesImpulse a b).
    + right. right. left. reflexivity.
    + destruct (Hquiet eq_refl) as (_ & _ & Hvx & Hvy).
      destruct Qb as [Q | Q]; [left | right; exact Q].
      unfold bounded in *. rewrite Hvx, Hvy. exact Q.
Qed.

Lemma collisionLog_limit_v2 f bs :
  Forall (fun b => active b = true -> bounded b) bs ->
  Forall (fun b => active b = true -> bounded b \/ In (element b) (struck f bs))
         (ballCollisions f bs).
Proof.
  intros Hbs. rewrite <- collisionLog_fst_v2. unfold struck, collisionLog.
  apply (fold_left_invariant
           (fun acc => Forall (fun b => active b = true ->
                                        bounded b \/ In (element b) (snd acc)) (fst acc))).
  - intros acc i Hacc.
    apply (fold_left_invariant
             (fun acc => Forall (fun b => active b = true ->
                                          bounded b \/ In (element b) (snd acc)) (fst acc)));
      [| exact Hacc].
    intros acc' j Hacc'. apply pairLog_limit_v2. exact Hacc'.
  - cbn [fst snd]. apply (Forall_impl _ (P := fun b => active b = true -> bounded b));
      [| exact Hbs].
    intros b H Hb. left. apply H, Hb.
Qed.

Lemma beforePairs_bounded_v2 f st :
  Forall (fun b => active b = true -> bounded b) (beforePairs f st).
Proof.
  apply Forall_forall. intros b2 Hin Hact.
  unfold beforePairs in Hin. cbv zeta in Hin.
  apply in_map_iff in Hin. destruct Hin as (b1 & <- & Hin).
  apply in_map_iff in Hin. destruct Hin as (b & <- & Hin).
  rewrite SpatialSpeed.collideObstacles_active_v2, SpatialSpeed.integrate_active_v2
    in Hact.
  apply SpatialSpeed.collideObstacles_bounded_v2, SpatialSpeed.integrate_bounded_v2,
    Hact.
Qed.

Lemma frame_limit_v2 f st b' :
  In b' (balls (animateAll f st)) ->
  ~ In (element b') (struck f (beforePairs f st)) ->
  speed b' <= maxVelocity.
Proof.
  rewrite SpatialFrame.animateAll_balls_v2. intros Hin Hnot.
  apply filter_In in Hin. destruct Hin as [Hin Hact].
  apply in_map_iff in Hin. destruct Hin as (b3 & <- & Hb3).
  assert (Ha3 : active b3 = true).
  { destruct (active b3) eqn:E; [reflexivity |].
    rewrite (SpatialSpeed.walls_inactive_v2 f b3 E) in Hact. congruence. }
  pose proof (collisionLog_limit_v2 f _ (beforePairs_bounded_v2 f st)) as Hall.
  rewrite Forall_forall in Hall. destruct (Hall b3 Hb3 Ha3) as [Hb | Hs].
  - apply SpatialSpeed.bounded_speed_v2, SpatialSpeed.walls_bounded_v2, Hb.
  - exfalso. apply Hnot. rewrite SpatialFrame.walls_element_v2. exact Hs.
Qed.

End SpatialLimit.

(** ** A frame with a collision and a clamped bystander *)

Lemma sqrt_ge_bound (s m : R) : 0 <= m -> m * m <= s -> m <= sqrt s.
Proof.
  intros Hm Hs. rewrite <- (sqrt_square m) at 1 by exact Hm.
  apply sqrt_le_1_alt. exact Hs.
Qed.

Module PortfolioBusy.
Import Portfolio.

(** A ball falling straight down, too fast after gravity and drag. *)
Lemma integrate_falling_fast dt b :
  active b = true -> vx b = 0 ->
  maxVelocity < (vy b + gravity * dt) * JS.pow airResistance dt ->
  integrate dt b
  = mkBall (element b) (x b) (y b + maxVelocity * dt) 0 maxVelocity true (stopping b).
Proof.
  intros Ha Hvx Hfast. unfold integrate. rewrite Ha. cbn [negb].
  unfold applyGravity, applyAirResistance, setVel. cbn [vx vy element x y active stopping].
  rewrite Hvx.
  set (w := (vy b + gravity * dt) * JS.pow airResistance dt) in *.
  assert (Hw : 0 < w) by (unfold maxVelocity in Hfast; lra).
  unfold clampVelocity. cbn [vx vy].
  replace (0 * JS.pow airResistance dt * (0 * JS.pow airResistance dt) + w * w)
    with (w * w) by ring.
  rewrite sqrt_sq_abs, Rabs_right by lra.
  rewrite (proj2 (gt_true w maxVelocity)) by exact Hfast.
  unfold setVel, move, setPos. cbn [vx vy element x y active stopping].
  rewrite Ha. f_equal; try reflexivity; field; lra.
Qed.

Lemma takesImpulse_apart a b :
  ballRadius * 2 <= centreDistance a b -> takesImpulse a b = false.
Proof.
  intros Hfar. unfold takesImpulse. fold (centreDistance a b).
  rewrite (proj2 (eq_false _ _)) by (unfold ballRadius in Hfar; lra).
  cbv zeta. rewrite (proj2 (lt_false _ _)) by exact Hfar. reflexivity.
Qed.

Lemma takesImpulse_approaching a b d :
  centreDistance a b = d -> 0 < d -> d < ballRadius * 2 ->
  (vx b - vx a) * ((x b - x a) / d) + (vy b - vy a) * ((y b - y a) / d) <= 0 ->
  takesImpulse a b = true.
Proof.
  intros Hd Hpos Hlt Hvan. unfold takesImpulse. fold (centreDistance a b).
  rewrite Hd. rewrite (proj2 (eq_false d 0)) by lra. cbv zeta.
  rewrite (proj2 (lt_true _ _)) by exact Hlt.
  rewrite (proj2 (gt_false _ _)) by exact Hvan. reflexivity.
Qed.

Lemma pairLog_apart bs hit i j a b :
  nth_error bs i = Some a -> nth_error bs j = Some b ->
  ballRadius * 2 <= centreDistance a b ->
  pairLog (bs, hit) i j = (bs, hit).
Proof.
  intros Hi Hj Hfar. unfold pairLog, pairStep. cbn [fst snd]. rewrite Hi, Hj.
  destruct (active a && active b); [| reflexivity].
  rewrite (PortfolioSpeed.resolve_apart a b Hfar), (takesImpulse_apart a b Hfar).
  rewrite (setNth_same i a bs Hi), (setNth_same j b bs Hj). reflexivity.
Qed.

Lemma busy_delta : frameDelta crossingFrame busyState = 2.
Proof. apply PortfolioLoop.frameDelta_capped_v1; cbn; lra. Qed.

Lemma busy_before_pairs :
  beforePairs crossingFrame busyState
  = [mkBall 0 157.075712 1057.075712 28.537856 0 true false;
     mkBall 1 167.075712 1057.075712 0 28.537856 true false;
     mkBall 2 600 260 0 30 true false].
Proof.
  unfold beforePairs. rewrite busy_delta.
  cbn [balls busyState obstacleRects crossingFrame scrollY getObstacles flat_map].
  change [crossA; crossB; fastBall] with ([crossA; crossB] ++ [fastBall]).
  rewrite map_app, crossing_integrated. cbn [map app].
  rewrite (integrate_falling_fast 2 fastBall);
    [| reflexivity | reflexivity
     | unfold fastBall; cbn [vy];
       rewrite pow_two by (unfold airResistance; lra);
       unfold airResistance, gravity, maxVelocity; lra].
  unfold fastBall. cbn [element x y stopping collideObstacles active negb fold_left].
  unfold maxVelocity. repeat f_equal. lra.
Qed.

Lemma busy_far_from_first :
  ballRadius * 2
  <= centreDistance (mkBall 0 152.075712 1057.075712 9.2748032 0 true false)
                    (mkBall 2 600 260 0 30 true false).
Proof.
  unfold centreDistance, ballRadius. cbn [x y].
  apply sqrt_ge_bound; lra.
Qed.

Lemma busy_far_from_second :
  ballRadius * 2
  <= centreDistance (mkBall 1 172.075712 1057.075712 19.2630528 28.537856 true false)
                    (mkBall 2 600 260 0 30 true false).
Proof.
  unfold centreDistance, ballRadius. cbn [x y].
  apply sqrt_ge_bound; lra.
Qed.

Lemma busy_collisions :
  collisionLog [mkBall 0 157.075712 1057.075712 28.537856 0 true false;
                mkBall 1 167.075712 1057.075712 0 28.537856 true false;
                mkBall 2 600 260 0 30 true false]
  = ([mkBall 0 152.075712 1057.075712 9.2748032 0 true false;
      mkBall 1 172.075712 1057.075712 19.2630528 28.537856 true false;
      mkBall 2 600 260 0 30 true false],
     [0%nat; 1%nat]).
Proof.
  unfold collisionLog. cbn [length seq Nat.sub fold_left].
  assert (Hstep : pairLog
                    ([mkBall 0 157.075712 1057.075712 28.537856 0 true false;
                      mkBall 1 167.075712 1057.075712 0 28.537856 true false;
                      mkBall 2 600 260 0 30 true false], []) 0 1
                  = ([mkBall 0 152.075712 1057.075712 9.2748032 0 true false;
                      mkBall 1 172.075712 1057.075712 19.2630528 28.537856 true false;
                      mkBall 2 600 260 0 30 true false], [0%nat; 1%nat])).
  { unfold pairLog, pairStep. cbn [fst snd nth_error active andb].
    rewrite crossing_resolved. cbn [setNth element].
    rewrite (takesImpulse_approaching _ _ 10 crossing_distance);
      [reflexivity | lra | unfold ballRadius; lra | cbn [vx vy x y]; lra]. }
  rewrite Hstep.
  rewrite (pairLog_apart
             [mkBall 0 152.075712 1057.075712 9.2748032 0 true false;
              mkBall 1 172.075712 1057.075712 19.2630528 28.537856 true false;
              mkBall 2 600 260 0 30 true false] [0%nat; 1%nat] 0 2
             (mkBall 0 152.075712 1057.075712 9.2748032 0 true false)
             (mkBall 2 600 260 0 30 true false)
             eq_refl eq_refl busy_far_from_first).
  rewrite (pairLog_apart
             [mkBall 0 152.075712 1057.075712 9.2748032 0 true false;
              mkBall 1 172.075712 1057.075712 19.2630528 28.537856 true false;
              mkBall 2 600 260 0 30 true false] [0%nat; 1%nat] 1 2
             (mkBall 1 172.075712 1057.075712 19.2630528 28.537856 true false)
             (mkBall 2 600 260 0 30 true false)
             eq_refl eq_refl busy_far_from_second).
  reflexivity.
Qed.

Lemma busy_step :
  balls (animateAll crossingFrame busyState)
  = [mkBall 0 152.075712 1057.075712 9.2748032 0 true false;
     mkBall 1 172.075712 1057.075712 19.2630528 28.537856 true false;
     mkBall 2 600 260 0 30 true false]
  /\ struck (beforePairs crossingFrame busyState) = [0%nat; 1%nat].
Proof.
  split.
  - rewrite PortfolioFrame.animateAll_balls, busy_before_pairs.
    rewrite <- PortfolioLimit.collisionLog_fst, busy_collisions. cbn [fst wallsAll].
    rewrite !PortfolioLoop.walls_untouched_v1;
      try reflexivity; try (unfold crossingFrame; cbn; unfold_v1; lra).
  - rewrite busy_before_pairs. unfold struck. rewrite busy_collisions. reflexivity.
Qed.

End PortfolioBusy.

(** C2 (amended).  The speed limit in exact arithmetic, in both
    variants.  The clamp leaves every ball with a speed of at most
    [maxVelocity]; the obstacle pass and the wall, ceiling and floor pass
    never raise a speed; [resolveBallCollision] changes no velocity of a
    pair to which it applies no impulse; and so, after a complete physics
    step, every ball still tracked that took no ball-ball impulse in that
    step has a speed of at most [maxVelocity].  A ball struck by an
    impulse, which comes after the clamp, may be left above the limit
    until the clamp of the next step.  In the script's doubles the
    rescale of the clamp is rounded and can leave a speed one unit in the
    last place above [maxVelocity], as it does for the velocity
    (-40, -39.6); there the bounds hold up to that rounding. *)
Theorem C2_speed_limit_without_impact :
  ((forall b, Portfolio.speed (Portfolio.clampVelocity b) <= Portfolio.maxVelocity)
   /\ (forall obstacles b,
          Portfolio.speed (Portfolio.collideObstacles obstacles b) <= Portfolio.speed b)
   /\ (forall f b d,
          Portfolio.speed (fst (Portfolio.walls f b d)) <= Portfolio.speed b)
   /\ (forall a b,
          Portfolio.takesImpulse a b = false ->
          Portfolio.vx (fst (Portfolio.resolveBallCollision a b)) = Portfolio.vx a
          /\ Portfolio.vy (fst (Portfolio.resolveBallCollision a b)) = Portfolio.vy a
          /\ Portfolio.vx (snd (Portfolio.resolveBallCollision a b)) = Portfolio.vx b
          /\ Portfolio.vy (snd (Portfolio.resolveBallCollision a b)) = Portfolio.vy b)
   /\ (forall f st b',
          In b' (Portfolio.balls (Portfolio.animateAll f st)) ->
          ~ In (Portfolio.element b')
               (Portfolio.struck (Portfolio.beforePairs f st)) ->
          Portfolio.speed b' <= Portfolio.maxVelocity))
  /\
  ((forall b, Spatial.speed (Spatial.clampVelocity b) <= Spatial.maxVelocity)
   /\ (forall obstacles b,
          Spatial.speed (Spatial.collideObstacles obstacles b) <= Spatial.speed b)
   /\ (forall f b, Spatial.speed (Spatial.walls f b) <= Spatial.speed b)
   /\ (forall ra rb a b,
          Spatial.takesImpulse a b = false ->
          Spatial.vx (fst (Spatial.resolveBallCollision ra rb a b)) = Spatial.vx a
          /\ Spatial.vy (fst (Spatial.resolveBallCollision ra rb a b)) = Spatial.vy a
          /\ Spatial.vx (snd (Spatial.resolveBallCollision ra rb a b)) = Spatial.vx b
          /\ Spatial.vy (snd (Spatial.resolveBallCollision ra rb a b)) = Spatial.vy b)
   /\ (forall f st b',
          In b' (Spatial.balls (Spatial.animateAll f st)) ->
          ~ In (Spatial.element b')
               (Spatial.struck f (Spatial.beforePairs f st)) ->
          Spatial.speed b' <= Spatial.maxVelocity))
  /\
  (Doubles.overLimit Doubles.portfolio
                     (Doubles.clampVelocity Doubles.portfolio Doubles.fast) = true
   /\ Doubles.overLimit Doubles.spatial
                        (Doubles.clampVelocity Doubles.spatial Doubles.fast) = true).
Proof.
  split; [| split]; [| | split; vm_compute; reflexivity];
    (split; [| split; [| split; [| split]]]).
  - intros b. apply PortfolioSpeed.bounded_speed, PortfolioSpeed.clampVelocity_bounded.
  - intros obstacles b. apply speed_le_of_squares,
      PortfolioLimit.collideObstacles_slower.
  - intros f b d. apply speed_le_of_squares, PortfolioLimit.walls_slower.
  - apply PortfolioLimit.quiet_pair.
  - apply PortfolioLimit.frame_limit.
  - intros b. apply SpatialSpeed.bounded_speed_v2, SpatialSpeed.clampVelocity_bounded_v2.
  - intros obstacles b. apply speed_le_of_squares,
      SpatialLimit.collideObstacles_slower_v2.
  - intros f b. apply speed_le_of_squares, SpatialLimit.walls_slower_v2.
  - apply SpatialLimit.quiet_pair_v2.
  - apply SpatialLimit.frame_limit_v2.
Qed.

(** A frame of variant 1, two time steps long, over three balls: the
    crossing pair collides and takes an impulse, and the third ball,
    falling at 40 far from both, is clamped and leaves the frame at 30,
    within the limit, while the second ball of the pair leaves it above
    the limit. *)
Lemma C2_speed_limit_witness :
  In (Portfolio.mkBall 2 600 260 0 30 true false)
     (Portfolio.balls (Portfolio.animateAll crossingFrame busyState))
  /\ Portfolio.maxVelocity < Portfolio.speed fastBall
  /\ Portfolio.speed (Portfolio.mkBall 2 600 260 0 30 true false)
     <= Portfolio.maxVelocity
  /\ (exists b',
         In b' (Portfolio.balls (Portfolio.animateAll crossingFrame busyState))
         /\ In (Portfolio.element b')
               (Portfolio.struck (Portfolio.beforePairs crossingFrame busyState))
         /\ Portfolio.maxVelocity < Portfolio.speed b').
Proof.
  destruct PortfolioBusy.busy_step as [Hballs Hstruck].
  assert (Hin : In (Portfolio.mkBall 2 600 260 0 30 true false)
                   (Portfolio.balls (Portfolio.animateAll crossingFrame busyState)))
    by (rewrite Hballs; right; right; left; reflexivity).
  split; [exact Hin |]. split; [| split].
  - unfold Portfolio.speed, fastBall. cbn [Portfolio.vx Portfolio.vy].
    apply sqrt_gt_bound; unfold Portfolio.maxVelocity; lra.
  - apply (proj2 (proj2 (proj2 (proj2 (proj1 C2_speed_limit_without_impact))))
             crossingFrame busyState _ Hin).
    rewrite Hstruck. cbn [Portfolio.element].
    intros [H | [H | []]]; discriminate H.
  - exists (Portfolio.mkBall 1 172.075712 1057.075712 19.2630528 28.537856 true false).
    split; [rewrite Hballs; right; left; reflexivity |].
    split; [rewrite Hstruck; right; left; reflexivity |].
    unfold Portfolio.speed. cbn [Portfolio.vx Portfolio.vy].
    apply sqrt_gt_bound; unfold Portfolio.maxVelocity; lra.
Defined.
